(** * Builtin pattern-language functions: a shallow embedding

    This development embeds the builtin functions that
    [registerPatternLanguageFunctions] (plugins/builtin/source/content/
    pl_builtin_functions.cpp) hands to the pattern-language evaluator, and
    proves properties of them.

    Conventions of the embedding:
    - fixed-width C++ integers are [Z] with the wrap-around written out
      ([u32], [u64], [u128], [i32], [i128]);
    - [std::string] is [string], a byte of host memory is [byte];
    - a lambda [(Evaluator *ctx, auto params) -> std::optional<Token::Literal>]
      is a function from the evaluator facade and the argument list to a
      computation [M (option Literal)] over the mutable state the lambdas
      can reach (console, the two [static] variables of the file namespace,
      the host file system) which either returns, aborts the evaluation
      ([LogConsole::abortEvaluation]) or has no defined behaviour. *)

From Stdlib Require Import ZArith Lia List String Ascii.
From Stdlib Require Import Floats.SpecFloat.
From stdpp Require Import gmap strings pretty.
From coqutil Require Import Byte Word.LittleEndianList.

Local Open Scope Z_scope.

(** ** Fixed-width integers *)

Definition u32 (z : Z) : Z := z mod 2 ^ 32.
Definition u64 (z : Z) : Z := z mod 2 ^ 64.
Definition u128 (z : Z) : Z := z mod 2 ^ 128.

(** Conversion to a signed type of [w] bits keeps the low [w] bits and reads
    them in two's complement. *)
Definition to_signed (w : Z) (z : Z) : Z := (z + 2 ^ (w - 1)) mod 2 ^ w - 2 ^ (w - 1).
Definition i32 (z : Z) : Z := to_signed 32 z.
Definition i128 (z : Z) : Z := to_signed 128 z.

Definition LLONG_MAX : Z := 2 ^ 63 - 1.
Definition LLONG_MIN : Z := - 2 ^ 63.

#[global] Instance byte_eq_decision : EqDecision byte := Byte.byte_eq_dec.

(** ** Outcome of a builtin call *)

(** [Abort msg] is the exception thrown by [LogConsole::abortEvaluation];
    [Undefined] marks executions the C++ standard gives no meaning to (an
    out-of-range [operator[]]). *)
Inductive Result (A : Type) : Type :=
| Ok (a : A)
| Abort (msg : string)
| Undefined.

Arguments Ok {A} a.
Arguments Abort {A} msg.
Arguments Undefined {A}.

Definition result_bind {A B : Type} (r : Result A) (k : A -> Result B) : Result B :=
  match r with
  | Ok a => k a
  | Abort msg => Abort msg
  | Undefined => Undefined
  end.

(** ** Token::Literal *)

(** Modelled from the spec: [pl::Pattern] (pl/patterns/pattern.hpp is not
    among the sources); an opaque handle to a compound value exposing a
    [toString] capability. *)
Record Pattern : Type := { pattern_toString : string }.

(** Modelled from the spec: [Token::Literal] (pl/token.hpp is not among the
    sources); a closed tagged union with exactly one active variant.  The
    String variant is called [StringValue] because [String] is the
    constructor of [string]. *)
Inductive Literal : Type :=
| UnsignedInteger (v : Z)
| SignedInteger (v : Z)
| FloatingPoint (d : spec_float)
| Boolean (b : bool)
| Character (c : ascii)
| StringValue (s : string)
| PatternReference (p : Pattern).

(** Modelled from the spec: the text of the type-mismatch abort raised by the
    literal coercions is not given; one fixed message stands for it. *)
Definition type_mismatch : string := "literal type mismatch".

(** Modelled from the spec: [Token::literalToUnsigned] (pl/token.hpp is not
    among the sources).  Accepts UnsignedInteger, SignedInteger, Boolean and
    Character; a signed input is reinterpreted through its two's-complement
    bit pattern widened to 128 bits. *)
Definition literalToUnsigned (l : Literal) : Result Z :=
  match l with
  | UnsignedInteger v => Ok (u128 v)
  | SignedInteger v => Ok (u128 v)
  | Boolean b => Ok (if b then 1 else 0)
  | Character c => Ok (Z.of_N (N_of_ascii c))
  | _ => Abort type_mismatch
  end.

(** Modelled from the spec: [Token::literalToSigned], symmetric to
    [literalToUnsigned]. *)
Definition literalToSigned (l : Literal) : Result Z :=
  match l with
  | UnsignedInteger v => Ok (i128 v)
  | SignedInteger v => Ok (i128 v)
  | Boolean b => Ok (if b then 1 else 0)
  | Character c => Ok (Z.of_N (N_of_ascii c))
  | _ => Abort type_mismatch
  end.

(** ** The platform: C library and file abstraction *)

(** The parts of the C library and of the formatting library (neither is
    code of the repository) whose results are floating-point numbers or
    renderings of them; they are kept abstract. *)
Class LibC : Type := {
  (** value [strtod] computes for a string that starts (after white space)
      with a floating-point subject sequence *)
  strtod_convert : string -> spec_float;
  (** decimal rendering of a double *)
  format_double : spec_float -> string
}.

(** [fs::File::Mode] *)
Inductive Mode : Type := Read | Write | Create.

(** Modelled from the spec: [fs::File] (hex/helpers/file.hpp is not among
    the sources), a file abstraction with the operations [isValid],
    [readString], [write], [seek], [getSize], [setSize], [flush] and
    [remove].  It is kept abstract: a type of file objects, a type of host
    file systems, and for every method a function from the file object and
    the file system to their new values. *)
Class FileApi : Type := {
  File : Type;
  FileSystem : Type;
  (** [fs::File file(path, mode)] *)
  File_new : string -> Mode -> FileSystem -> File * FileSystem;
  (** [~File()], run when a file object is erased from the table or goes
      out of scope *)
  File_delete : File -> FileSystem -> FileSystem;
  File_isValid : File -> bool;
  File_readString : File -> Z -> FileSystem -> string * File * FileSystem;
  File_write : File -> string -> FileSystem -> File * FileSystem;
  File_seek : File -> Z -> FileSystem -> File * FileSystem;
  File_getSize : File -> FileSystem -> Z * File * FileSystem;
  File_setSize : File -> Z -> FileSystem -> File * FileSystem;
  File_flush : File -> FileSystem -> File * FileSystem;
  File_remove : File -> FileSystem -> File * FileSystem
}.

(** Modelled from the spec: [Token::literalToString(literal, cast)].  A
    String is returned as it is; with [cast] any other literal is rendered
    (numbers in base 10, a pattern through its [toString]); without it a
    non-string is a type mismatch. *)
Definition literalToString `{LibC} (l : Literal) (cast : bool) : Result string :=
  match l with
  | StringValue s => Ok s
  | _ =>
      if cast then
        match l with
        | UnsignedInteger v => Ok (pretty (u128 v))
        | SignedInteger v => Ok (pretty (i128 v))
        | FloatingPoint d => Ok (format_double d)
        | Boolean b => Ok (if b then "true" else "false")%string
        | Character c => Ok (String c EmptyString)
        | StringValue s => Ok s
        | PatternReference p => Ok (pattern_toString p)
        end
      else Abort type_mismatch
  end.

(** ** Mutable state and the evaluator facade *)

(** [LogConsole::Level] *)
Inductive Level : Type := Debug | Info | Warning | Error.

(** The state a builtin can touch: the console of the evaluator, the reads
    it has issued to the host memory, and the two [static] variables
    [fileCounter] and [openFiles] with the file system behind them. *)
Record State `{FileApi} : Type := {
  console : list (Level * string);
  memoryReads : list (Z * nat);
  fileCounter : Z;
  openFiles : gmap Z File;
  fileSystem : FileSystem
}.

(** Modelled from the spec: the part of [pl::Evaluator] the builtins read
    (pl/evaluator.hpp is not among the sources), kept abstract.  [readData]
    gives the bytes the host writes to the front of the buffer, or fails
    ("bounds failures are the host's responsibility to signal"). *)
Record Evaluator : Type := {
  getDataBaseAddress : Z;
  getDataSize : Z;
  readData : Z -> nat -> Result (list byte);
  getEnvVariable : string -> option Literal
}.

Section Monad.
Context `{FileApi}.

Definition M (A : Type) : Type := State -> State * Result A.

Definition ret {A : Type} (a : A) : M A := fun st => (st, Ok a).

Definition bind {A B : Type} (c : M A) (k : A -> M B) : M B :=
  fun st =>
    match c st with
    | (st', Ok a) => k a st'
    | (st', Abort msg) => (st', Abort msg)
    | (st', Undefined) => (st', Undefined)
    end.

(** [LogConsole::abortEvaluation(message)] *)
Definition abortEvaluation {A : Type} (message : string) : M A :=
  fun st => (st, Abort message).

Definition lift {A : Type} (r : Result A) : M A := fun st => (st, r).

(** [params[i]]: indexing past the end of the argument vector has no
    defined behaviour (the evaluator checks the arity before the call). *)
Definition param (params : list Literal) (i : nat) : M Literal :=
  match nth_error params i with
  | Some l => ret l
  | None => lift Undefined
  end.
End Monad.

Notation "'let*' x ':=' c 'in' k" := (bind c (fun x => k))
  (at level 10, x pattern, c at level 200, k at level 200, only parsing).
Notation "'run!' c 'in' k" := (bind c (fun _ => k))
  (at level 10, c at level 200, k at level 200, only parsing).

(** ** The registry *)

(** [pl::api::FunctionParameterCount] *)
Inductive FunctionParameterCount : Type :=
| none
| exactly (n : Z)
| atLeast (n : Z)
| moreThan (n : Z).

(** [addFunction] registers at the Standard tier, [addDangerousFunction] at
    the Dangerous tier. *)
Inductive Trust : Type := Standard | Dangerous.

Inductive Math1 : Type :=
| std_floor | std_ceil | std_round | std_trunc | std_log10 | std_log2 | std_log
| std_sqrt | std_cbrt | std_sin | std_cos | std_tan | std_asin | std_acos | std_atan
| std_sinh | std_cosh | std_tanh | std_asinh | std_acosh | std_atanh.

Inductive Math2 : Type := std_fmod | std_pow | std_atan2.

(** The lambda handed to a registration call, named after what its body
    does.  [math1 f] is a body [return std::f(literalToFloatingPoint(params[0]))],
    [math2 f] a body
    [return std::f(literalToFloatingPoint(params[0]), literalToFloatingPoint(params[1]))]. *)
Inductive Callback : Type :=
| cb_print | cb_format | cb_env | cb_sizeof_pack | cb_error | cb_warning
| cb_base_address | cb_size | cb_find_sequence_in_range
| cb_read_unsigned | cb_read_signed | cb_read_string
| cb_length | cb_at | cb_substr | cb_parse_int | cb_parse_float
| cb_http_get
| cb_file_open | cb_file_close | cb_file_read | cb_file_write | cb_file_seek
| cb_file_size | cb_file_resize | cb_file_flush | cb_file_remove
| math1 (f : Math1)
| math2 (f : Math2).

Record Function : Type := {
  fn_namespace : list string;
  fn_name : string;
  parameterCount : FunctionParameterCount;
  trust : Trust;
  callback : Callback
}.

Definition addFunction (ns : list string) (name : string)
    (count : FunctionParameterCount) (cb : Callback) : Function :=
  {| fn_namespace := ns; fn_name := name; parameterCount := count;
     trust := Standard; callback := cb |}.

Definition addDangerousFunction (ns : list string) (name : string)
    (count : FunctionParameterCount) (cb : Callback) : Function :=
  {| fn_namespace := ns; fn_name := name; parameterCount := count;
     trust := Dangerous; callback := cb |}.

Definition nsStd : list string := ["builtin"; "std"]%string.
Definition nsStdMem : list string := ["builtin"; "std"; "mem"]%string.
Definition nsStdString : list string := ["builtin"; "std"; "string"]%string.
Definition nsStdHttp : list string := ["builtin"; "std"; "http"]%string.
Definition nsStdFile : list string := ["builtin"; "std"; "file"]%string.
Definition nsStdMath : list string := ["builtin"; "std"; "math"]%string.

(** The registration calls of [registerPatternLanguageFunctions], in the
    order in which they are made. *)
Definition registerPatternLanguageFunctions : list Function := [
  addFunction nsStd "print" (moreThan 0) cb_print;
  addFunction nsStd "format" (moreThan 0) cb_format;
  addFunction nsStd "env" (exactly 1) cb_env;
  addFunction nsStd "sizeof_pack" (atLeast 0) cb_sizeof_pack;
  addFunction nsStd "error" (exactly 1) cb_error;
  addFunction nsStd "warning" (exactly 1) cb_warning;

  addFunction nsStdMem "base_address" none cb_base_address;
  addFunction nsStdMem "size" none cb_size;
  addFunction nsStdMem "find_sequence_in_range" (moreThan 3) cb_find_sequence_in_range;
  addFunction nsStdMem "read_unsigned" (exactly 2) cb_read_unsigned;
  addFunction nsStdMem "read_signed" (exactly 2) cb_read_signed;
  addFunction nsStdMem "read_string" (exactly 2) cb_read_string;

  addFunction nsStdString "length" (exactly 1) cb_length;
  addFunction nsStdString "at" (exactly 2) cb_at;
  addFunction nsStdString "substr" (exactly 3) cb_substr;
  addFunction nsStdString "parse_int" (exactly 2) cb_parse_int;
  addFunction nsStdString "parse_float" (exactly 1) cb_parse_float;

  addDangerousFunction nsStdHttp "get" (exactly 1) cb_http_get;

  addDangerousFunction nsStdFile "open" (exactly 2) cb_file_open;
  addDangerousFunction nsStdFile "close" (exactly 1) cb_file_close;
  addDangerousFunction nsStdFile "read" (exactly 2) cb_file_read;
  addDangerousFunction nsStdFile "write" (exactly 2) cb_file_write;
  addDangerousFunction nsStdFile "seek" (exactly 2) cb_file_seek;
  addDangerousFunction nsStdFile "size" (exactly 1) cb_file_size;
  addDangerousFunction nsStdFile "resize" (exactly 2) cb_file_resize;
  addDangerousFunction nsStdFile "flush" (exactly 1) cb_file_flush;
  addDangerousFunction nsStdFile "remove" (exactly 1) cb_file_remove;

  addFunction nsStdMath "floor" (exactly 1) (math1 std_floor);
  addFunction nsStdMath "ceil" (exactly 1) (math1 std_ceil);
  addFunction nsStdMath "round" (exactly 1) (math1 std_round);
  addFunction nsStdMath "trunc" (exactly 1) (math1 std_trunc);
  addFunction nsStdMath "log10" (exactly 1) (math1 std_log10);
  addFunction nsStdMath "log2" (exactly 1) (math1 std_log2);
  addFunction nsStdMath "ln" (exactly 1) (math1 std_log);
  addFunction nsStdMath "fmod" (exactly 2) (math2 std_fmod);
  addFunction nsStdMath "pow" (exactly 2) (math2 std_pow);
  addFunction nsStdMath "sqrt" (exactly 1) (math1 std_sqrt);
  addFunction nsStdMath "cbrt" (exactly 1) (math1 std_cbrt);
  addFunction nsStdMath "sin" (exactly 1) (math1 std_sin);
  addFunction nsStdMath "cos" (exactly 1) (math1 std_cos);
  addFunction nsStdMath "tan" (exactly 1) (math1 std_tan);
  addFunction nsStdMath "asin" (exactly 1) (math1 std_asin);
  addFunction nsStdMath "acos" (exactly 1) (math1 std_acos);
  addFunction nsStdMath "atan" (exactly 1) (math1 std_atan);
  addFunction nsStdMath "atan" (exactly 1) (math2 std_atan2);
  addFunction nsStdMath "sinh" (exactly 1) (math1 std_sinh);
  addFunction nsStdMath "cosh" (exactly 1) (math1 std_cosh);
  addFunction nsStdMath "tanh" (exactly 1) (math1 std_tanh);
  addFunction nsStdMath "asinh" (exactly 1) (math1 std_asinh);
  addFunction nsStdMath "acosh" (exactly 1) (math1 std_acosh);
  addFunction nsStdMath "atanh" (exactly 1) (math1 std_atanh)
]%string.

(** All registrations made under a namespace and a name; the order of the
    calls is kept, so the result does not depend on whether the table of the
    content registry keeps the first or the last of them. *)
Definition registered (ns : list string) (name : string) : list Function :=
  filter (fun f => bool_decide (fn_namespace f = ns /\ fn_name f = name))
    registerPatternLanguageFunctions.

(** ** namespace std *)

Module Std.
Section Std.
Context `{FileApi}.

(** [sizeof_pack(...)]: [return u128(params.size())]; the widening of a
    [size_t] to 128 bits keeps its value. *)
Definition sizeof_pack (ctx : Evaluator) (params : list Literal) : M (option Literal) :=
  ret (Some (UnsignedInteger (Z.of_nat (length params)))).

Context `{LibC}.

(** [ctx->getConsole().log(level, message)] *)
Definition log (level : Level) (message : string) : M unit :=
  fun st =>
    ({| console := console st ++ [(level, message)];
        memoryReads := memoryReads st;
        fileCounter := fileCounter st;
        openFiles := openFiles st;
        fileSystem := fileSystem st |},
     Ok tt).

(** [env(name)] *)
Definition env (ctx : Evaluator) (params : list Literal) : M (option Literal) :=
  let* p0 := param params 0 in
  let* name := lift (literalToString p0 false) in
  match getEnvVariable ctx name with
  | Some value => ret (Some value)
  | None =>
      run! log Warning ("environment variable '" +:+ name +:+ "' does not exist") in
      ret (Some (StringValue EmptyString))
  end.

(** [error(message)]: [abortEvaluation] does not return, the [return] after
    it is never reached. *)
Definition error (ctx : Evaluator) (params : list Literal) : M (option Literal) :=
  let* p0 := param params 0 in
  let* message := lift (literalToString p0 true) in
  abortEvaluation message.

(** [warning(message)] *)
Definition warning (ctx : Evaluator) (params : list Literal) : M (option Literal) :=
  let* p0 := param params 0 in
  let* message := lift (literalToString p0 true) in
  run! log Warning message in
  ret None.
End Std.
End Std.

(** ** namespace std::mem *)

(** Modelled from the spec: [hex::signExtend(numBits, value)]
    (hex/helpers/utils.hpp is not among the sources).  It sign-extends the
    [numBits] low-order bits of [value] to 128 bits. *)
Definition signExtend (numBits : Z) (value : Z) : Z := to_signed numBits value.

Module Mem.
Section Mem.
Context `{FileApi}.

(** Bytes of a buffer after the host has written [written] to its front. *)
Definition overwrite (written buffer : list byte) : list byte :=
  take (length buffer) (written ++ drop (length written) buffer).

(** The state after the reads [reads] have been issued to the host. *)
Definition record_reads (st : State) (reads : list (Z * nat)) : State :=
  {| console := console st;
     memoryReads := memoryReads st ++ reads;
     fileCounter := fileCounter st;
     openFiles := openFiles st;
     fileSystem := fileSystem st |}.

(** [ctx->readData(address, buffer, size)] for a buffer that is the first
    [size] bytes of [object]: the call is recorded, and on success the bytes
    the host hands back replace the front of the object. *)
Definition readDataInto (ctx : Evaluator) (address : Z) (object : list byte)
    (size : nat) : M (list byte) :=
  fun st =>
    (record_reads st [(address, size)],
     result_bind (readData ctx address size)
       (fun written => Ok (overwrite (take size written) object))).

(** The loop [for (u32 i = 3; i < params.size(); i++)] that collects the
    byte sequence; [i] is the index of the head of [params] in the argument
    vector. *)
Fixpoint collect_sequence (i : Z) (params : list Literal) : M (list byte) :=
  match params with
  | [] => ret []
  | p :: rest =>
      let* byte := lift (literalToUnsigned p) in
      if 255 <? byte then
        abortEvaluation ("byte #" +:+ pretty i +:+ " value out of range: "
                           +:+ pretty (u64 byte) +:+ " > 0xFF")
      else
        let* sequence := collect_sequence (i + 1) rest in
        ret (byte.of_Z (Z.land byte 255) :: sequence)
  end.

(** The scanning loop
    [for (u64 offset = offsetFrom; offset < endOffset - sequence.size(); offset++)],
    entered with [offset] and with [count] iterations left before [offset]
    reaches the bound.  [offset] stays below the bound, which is a [u64], so
    [offset++] does not wrap; [occurrences] is a [u32]. *)
Fixpoint scan (ctx : Evaluator) (sequence : list byte) (occurrenceIndex : Z)
    (count : nat) (offset : Z) (occurrences : Z) (bytes : list byte)
    : M (option Literal) :=
  match count with
  | O => ret (Some (SignedInteger (-1)))
  | S count' =>
      let* bytes' := readDataInto ctx offset bytes (length bytes) in
      if bool_decide (bytes' = sequence) then
        if occurrences <? occurrenceIndex then
          scan ctx sequence occurrenceIndex count' (offset + 1)
            (u32 (occurrences + 1)) bytes'
        else ret (Some (UnsignedInteger offset))
      else
        scan ctx sequence occurrenceIndex count' (offset + 1) occurrences bytes'
  end.

(** [find_sequence_in_range(occurrence_index, start_offset, end_offset, bytes...)] *)
Definition find_sequence_in_range (ctx : Evaluator) (params : list Literal)
    : M (option Literal) :=
  let* p0 := param params 0 in
  let* occurrenceIndex := lift (literalToUnsigned p0) in
  let* p1 := param params 1 in
  let* offsetFrom := lift (literalToUnsigned p1) in
  let* p2 := param params 2 in
  let* offsetTo := lift (literalToUnsigned p2) in
  let* sequence := collect_sequence 3 (drop 3 params) in
  let bytes := repeat Byte.x00 (length sequence) in
  let bufferSize := u64 (getDataSize ctx) in
  let endOffset :=
    if offsetTo <=? offsetFrom then bufferSize
    else Z.min bufferSize (u64 offsetTo) in
  let bound := u64 (endOffset - Z.of_nat (length sequence)) in
  let first := u64 offsetFrom in
  scan ctx sequence occurrenceIndex (Z.to_nat (bound - first)) first 0 bytes.

(** [read_signed(address, size)].  [uninitialized] is the indeterminate
    content of the local [i128 value] before [readData] fills its first
    [size] bytes; the object is laid out least significant byte first. *)
Definition read_signed (uninitialized : Z) (ctx : Evaluator) (params : list Literal)
    : M (option Literal) :=
  let* p0 := param params 0 in
  let* address := lift (literalToUnsigned p0) in
  let* p1 := param params 1 in
  let* size := lift (literalToUnsigned p1) in
  if 16 <? size then abortEvaluation "read size out of range"
  else
    let* value := readDataInto ctx address (le_split 16 uninitialized) (Z.to_nat size) in
    ret (Some (SignedInteger (signExtend (size * 8) (i128 (le_combine value))))).

(** [base_address()] *)
Definition base_address (ctx : Evaluator) (params : list Literal) : M (option Literal) :=
  ret (Some (UnsignedInteger (u64 (getDataBaseAddress ctx)))).

(** [size()] *)
Definition size (ctx : Evaluator) (params : list Literal) : M (option Literal) :=
  ret (Some (UnsignedInteger (u64 (getDataSize ctx)))).

(** [read_unsigned(address, size)]: the local [u128 result = 0] is sixteen
    zero bytes, of which [readData] fills the first [size]. *)
Definition read_unsigned (ctx : Evaluator) (params : list Literal) : M (option Literal) :=
  let* p0 := param params 0 in
  let* address := lift (literalToUnsigned p0) in
  let* p1 := param params 1 in
  let* size := lift (literalToUnsigned p1) in
  if 16 <? size then abortEvaluation "read size out of range"
  else
    let* result := readDataInto ctx address (le_split 16 0) (Z.to_nat size) in
    ret (Some (UnsignedInteger (le_combine result))).
End Mem.
End Mem.

(** ** The C library functions used by std::string *)

Definition char_code (c : ascii) : Z := Z.of_N (N_of_ascii c).

(** [isspace] in the C locale: space, and the controls from tab to carriage
    return. *)
Definition isspace (c : ascii) : bool :=
  (char_code c =? 32) || ((9 <=? char_code c) && (char_code c <=? 13)).

Fixpoint skip_space (s : string) : string :=
  match s with
  | String c rest => if isspace c then skip_space rest else s
  | EmptyString => s
  end.

(** Value of a character as a digit: [0-9], then letters of either case
    from 10 to 35. *)
Definition digit_value (c : ascii) : option Z :=
  let n := char_code c in
  if (48 <=? n) && (n <=? 57) then Some (n - 48)
  else if (97 <=? n) && (n <=? 122) then Some (n - 97 + 10)
  else if (65 <=? n) && (n <=? 90) then Some (n - 65 + 10)
  else None.

Definition digit_in (base : Z) (c : ascii) : option Z :=
  match digit_value c with
  | Some d => if d <? base then Some d else None
  | None => None
  end.

(** The longest run of digits of [base] at the front of [s], read as a
    number on top of [acc]; the end of the string is the terminating NUL of
    [c_str()]. *)
Fixpoint read_digits (base : Z) (s : string) (acc : Z) : Z :=
  match s with
  | String c rest =>
      match digit_in base c with
      | Some d => read_digits base rest (acc * base + d)
      | None => acc
      end
  | EmptyString => acc
  end.

Definition take_sign (s : string) : bool * string :=
  match s with
  | String "-" rest => (true, rest)
  | String "+" rest => (false, rest)
  | _ => (false, s)
  end.

(** The base in effect and the start of the digits: base 16 (given, or
    detected when the base is 0) skips a [0x] that a hexadecimal digit
    follows; base 0 reads a leading [0] as octal and anything else as
    decimal. *)
Definition take_prefix (base : Z) (s : string) : Z * string :=
  match s with
  | String "0" (String x (String d rest)) =>
      if ((base =? 0) || (base =? 16))
         && ((char_code x =? 120) || (char_code x =? 88))
         && (match digit_in 16 d with Some _ => true | None => false end)
      then (16, String d rest)
      else if base =? 0 then (8, s) else (base, s)
  | String "0" _ => if base =? 0 then (8, s) else (base, s)
  | _ => if base =? 0 then (10, s) else (base, s)
  end.

(** [std::strtoll(nptr, nullptr, base)]: white space, an optional sign, an
    optional prefix, then digits; no digits give 0, a value out of the range
    of [long long] is clamped to [LLONG_MIN] or [LLONG_MAX], and a base that
    is neither 0 nor between 2 and 36 gives 0. *)
Definition strtoll (nptr : string) (base : Z) : Z :=
  if (base <? 0) || (base =? 1) || (36 <? base) then 0
  else
    let '(negative, s) := take_sign (skip_space nptr) in
    let '(base', digits) := take_prefix base s in
    let magnitude := read_digits base' digits 0 in
    if negative then Z.max LLONG_MIN (- magnitude)
    else Z.min LLONG_MAX magnitude.

(** Whether [s] starts with something [strtoll] can convert in [base]:
    after white space and an optional sign, a digit of the base (a decimal
    digit when the base is 0; the [0] of a prefix is one). *)
Definition has_int_subject (base : Z) (s : string) : bool :=
  match snd (take_sign (skip_space s)) with
  | String c _ =>
      match digit_in (if base =? 0 then 10 else base) c with
      | Some _ => true
      | None => false
      end
  | EmptyString => false
  end.

Definition is_decimal_digit (c : ascii) : bool :=
  (48 <=? char_code c) && (char_code c <=? 57).

Definition lower (c : ascii) : Z :=
  if (65 <=? char_code c) && (char_code c <=? 90) then char_code c + 32
  else char_code c.

(** Whether [s] starts with a floating-point subject sequence: after white
    space and an optional sign, a digit, a point followed by a digit, or
    [inf] or [nan] in either case. *)
Definition has_float_subject (s : string) : bool :=
  match snd (take_sign (skip_space s)) with
  | String c rest =>
      if is_decimal_digit c then true
      else if char_code c =? 46 then
        match rest with
        | String d _ => is_decimal_digit d
        | EmptyString => false
        end
      else
        match rest with
        | String c1 (String c2 _) =>
            ((lower c =? 105) && (lower c1 =? 110) && (lower c2 =? 102))
            || ((lower c =? 110) && (lower c1 =? 97) && (lower c2 =? 110))
        | _ => false
        end
  | EmptyString => false
  end.

(** [std::strtod(nptr, nullptr)]: when no conversion can be performed, zero
    is returned. *)
Definition strtod `{LibC} (nptr : string) : spec_float :=
  if has_float_subject nptr then strtod_convert nptr else S754_zero false.

(** ** namespace std::string *)

Module Str.
Section Str.
Context `{FileApi} `{LibC}.

(** [string[pos]] of [std::string]: the character at [pos], the terminating
    NUL at [pos == size()], nothing defined beyond. *)
Definition string_index (s : string) (pos : Z) : Result ascii :=
  if (0 <=? pos) && (pos <? Z.of_nat (String.length s)) then
    match String.get (Z.to_nat pos) s with
    | Some c => Ok c
    | None => Undefined
    end
  else if pos =? Z.of_nat (String.length s) then Ok Ascii.zero
  else Undefined.

(** [at(string, index)].  [std::abs] of the most negative [i128] wraps to
    itself, like the sign-mask computation of the other branch of the
    [#if]; the index handed to [operator[]] is converted to [size_t]. *)
Definition at_ (ctx : Evaluator) (params : list Literal) : M (option Literal) :=
  let* p0 := param params 0 in
  let* string := lift (literalToString p0 false) in
  let* p1 := param params 1 in
  let* index := lift (literalToSigned p1) in
  let absIndex := i128 (Z.abs index) in
  if Z.of_nat (String.length string) <? absIndex then
    abortEvaluation "character index out of range"
  else if 0 <=? index then
    let* c := lift (string_index string (u64 index)) in
    ret (Some (Character c))
  else
    let* c := lift (string_index string
                      (u64 (i128 (Z.of_nat (String.length string) - i128 (- index))))) in
    ret (Some (Character c)).

(** [parse_int(string, base)]; the base is narrowed to the [int] that
    [strtoll] takes. *)
Definition parse_int (ctx : Evaluator) (params : list Literal) : M (option Literal) :=
  let* p0 := param params 0 in
  let* string := lift (literalToString p0 false) in
  let* p1 := param params 1 in
  let* base := lift (literalToUnsigned p1) in
  ret (Some (SignedInteger (strtoll string (i32 base)))).

(** [parse_float(string)] *)
Definition parse_float (ctx : Evaluator) (params : list Literal) : M (option Literal) :=
  let* p0 := param params 0 in
  let* string := lift (literalToString p0 false) in
  ret (Some (FloatingPoint (strtod string))).

(** [substr(string, pos, count)].  [std::string::substr] takes [size_t]
    arguments and returns the characters from [pos] on, as many as [count]
    says and the string has; the guard before it keeps [pos] within the
    string. *)
Definition substr (ctx : Evaluator) (params : list Literal) : M (option Literal) :=
  let* p0 := param params 0 in
  let* string := lift (literalToString p0 false) in
  let* p1 := param params 1 in
  let* pos := lift (literalToUnsigned p1) in
  let* p2 := param params 2 in
  let* size := lift (literalToUnsigned p2) in
  if Z.of_nat (String.length string) <? pos then
    abortEvaluation "character index out of range"
  else
    ret (Some (StringValue
                 (String.substring (Z.to_nat (u64 pos))
                    (Z.to_nat (Z.min (u64 size)
                                 (Z.of_nat (String.length string) - u64 pos)))
                    string))).

(** [length(string)] *)
Definition length (ctx : Evaluator) (params : list Literal) : M (option Literal) :=
  let* p0 := param params 0 in
  let* string := lift (literalToString p0 false) in
  ret (Some (UnsignedInteger (Z.of_nat (String.length string)))).
End Str.
End Str.

(** ** namespace std::file *)

Module FileNs.
Section FileNs.
Context `{FileApi} `{LibC}.

(** The state with new values of the two statics and of the file system. *)
Definition with_files (st : State) (counter : Z) (files : gmap Z File)
    (fs : FileSystem) : State :=
  {| console := console st;
     memoryReads := memoryReads st;
     fileCounter := counter;
     openFiles := files;
     fileSystem := fs |}.

Definition invalid_file : string := "failed to access invalid file".

(** The [switch (modeEnum)] of [open]. *)
Definition select_mode (modeEnum : Z) : M Mode :=
  if modeEnum =? 1 then ret Read
  else if modeEnum =? 2 then ret Write
  else if modeEnum =? 3 then ret Create
  else abortEvaluation "invalid file open mode".

(** [open(path, mode)].  [fileCounter] is a [u32]; [emplace] does not insert
    when the key is already mapped, and the file object that was not stored
    is destroyed. *)
Definition open (ctx : Evaluator) (params : list Literal) : M (option Literal) :=
  let* p0 := param params 0 in
  let* path := lift (literalToString p0 false) in
  let* p1 := param params 1 in
  let* modeEnum := lift (literalToUnsigned p1) in
  let* mode := select_mode modeEnum in
  fun st =>
    let '(file, fs) := File_new path mode (fileSystem st) in
    if negb (File_isValid file) then
      (with_files st (fileCounter st) (openFiles st) (File_delete file fs),
       Abort ("failed to open file " +:+ path))
    else
      let counter := u32 (fileCounter st + 1) in
      match openFiles st !! counter with
      | None =>
          (with_files st counter (<[counter := file]> (openFiles st)) fs,
           Ok (Some (UnsignedInteger counter)))
      | Some _ =>
          (with_files st counter (openFiles st) (File_delete file fs),
           Ok (Some (UnsignedInteger counter)))
      end.

(** [close(file)]; the key type of [openFiles] is [u32], to which the
    handle is converted. *)
Definition close (ctx : Evaluator) (params : list Literal) : M (option Literal) :=
  let* p0 := param params 0 in
  let* file := lift (literalToUnsigned p0) in
  fun st =>
    match openFiles st !! u32 file with
    | None => (st, Abort invalid_file)
    | Some f =>
        (with_files st (fileCounter st) (delete (u32 file) (openFiles st))
           (File_delete f (fileSystem st)),
         Ok None)
    end.

(** The pattern shared by the remaining functions:
    [if (!openFiles.contains(file)) abortEvaluation(...);] followed by a
    call of a method on [openFiles[file]]. *)
Definition onOpenFile {A : Type} (file : Z)
    (method : File -> FileSystem -> A * File * FileSystem) : M A :=
  fun st =>
    match openFiles st !! u32 file with
    | None => (st, Abort invalid_file)
    | Some f =>
        let '(a, f', fs') := method f (fileSystem st) in
        (with_files st (fileCounter st) (<[u32 file := f']> (openFiles st)) fs',
         Ok a)
    end.

Definition returning_unit (r : File * FileSystem) : unit * File * FileSystem :=
  (tt, fst r, snd r).

(** [read(file, size)] *)
Definition read (ctx : Evaluator) (params : list Literal) : M (option Literal) :=
  let* p0 := param params 0 in
  let* file := lift (literalToUnsigned p0) in
  let* p1 := param params 1 in
  let* size := lift (literalToUnsigned p1) in
  let* s := onOpenFile file (fun f fs => File_readString f size fs) in
  ret (Some (StringValue s)).

(** [write(file, data)] *)
Definition write (ctx : Evaluator) (params : list Literal) : M (option Literal) :=
  let* p0 := param params 0 in
  let* file := lift (literalToUnsigned p0) in
  let* p1 := param params 1 in
  let* data := lift (literalToString p1 true) in
  run! onOpenFile file (fun f fs => returning_unit (File_write f data fs)) in
  ret None.

(** [seek(file, offset)] *)
Definition seek (ctx : Evaluator) (params : list Literal) : M (option Literal) :=
  let* p0 := param params 0 in
  let* file := lift (literalToUnsigned p0) in
  let* p1 := param params 1 in
  let* offset := lift (literalToUnsigned p1) in
  run! onOpenFile file (fun f fs => returning_unit (File_seek f offset fs)) in
  ret None.

(** [size(file)] *)
Definition size (ctx : Evaluator) (params : list Literal) : M (option Literal) :=
  let* p0 := param params 0 in
  let* file := lift (literalToUnsigned p0) in
  let* n := onOpenFile file (fun f fs => File_getSize f fs) in
  ret (Some (UnsignedInteger (u128 n))).

(** [resize(file, size)] *)
Definition resize (ctx : Evaluator) (params : list Literal) : M (option Literal) :=
  let* p0 := param params 0 in
  let* file := lift (literalToUnsigned p0) in
  let* p1 := param params 1 in
  let* size := lift (literalToUnsigned p1) in
  run! onOpenFile file (fun f fs => returning_unit (File_setSize f size fs)) in
  ret None.

(** [flush(file)] *)
Definition flush (ctx : Evaluator) (params : list Literal) : M (option Literal) :=
  let* p0 := param params 0 in
  let* file := lift (literalToUnsigned p0) in
  run! onOpenFile file (fun f fs => returning_unit (File_flush f fs)) in
  ret None.

(** [remove(file)] *)
Definition remove (ctx : Evaluator) (params : list Literal) : M (option Literal) :=
  let* p0 := param params 0 in
  let* file := lift (literalToUnsigned p0) in
  run! onOpenFile file (fun f fs => returning_unit (File_remove f fs)) in
  ret None.

(** The statics at program start: [fileCounter = 0] and an empty table. *)
Definition initial (fs : FileSystem) : State :=
  {| console := [];
     memoryReads := [];
     fileCounter := 0;
     openFiles := ∅;
     fileSystem := fs |}.
End FileNs.
End FileNs.

(** ** Sequences of calls of the file functions *)

(** A call of one of the nine functions of the file namespace, with the
    values of its arguments; a handle is passed as the UnsignedInteger
    literal [open] returns. *)
Inductive FileCall : Type :=
| call_open (path : string) (mode : Z)
| call_close (file : Z)
| call_read (file size : Z)
| call_write (file : Z) (data : Literal)
| call_seek (file offset : Z)
| call_size (file : Z)
| call_resize (file size : Z)
| call_flush (file : Z)
| call_remove (file : Z).

(** The handle a call is applied to. *)
Definition handle_of (c : FileCall) : option Z :=
  match c with
  | call_open _ _ => None
  | call_close file | call_read file _ | call_write file _ | call_seek file _
  | call_size file | call_resize file _ | call_flush file | call_remove file =>
      Some file
  end.

Section Calls.
Context `{FileApi} `{LibC}.

Definition perform (ctx : Evaluator) (c : FileCall) : M (option Literal) :=
  match c with
  | call_open path mode => FileNs.open ctx [StringValue path; UnsignedInteger mode]
  | call_close file => FileNs.close ctx [UnsignedInteger file]
  | call_read file size => FileNs.read ctx [UnsignedInteger file; UnsignedInteger size]
  | call_write file data => FileNs.write ctx [UnsignedInteger file; data]
  | call_seek file offset => FileNs.seek ctx [UnsignedInteger file; UnsignedInteger offset]
  | call_size file => FileNs.size ctx [UnsignedInteger file]
  | call_resize file size => FileNs.resize ctx [UnsignedInteger file; UnsignedInteger size]
  | call_flush file => FileNs.flush ctx [UnsignedInteger file]
  | call_remove file => FileNs.remove ctx [UnsignedInteger file]
  end.

(** One entry of the history of a run: the state a call was made in, the
    call, its outcome and the state it left. *)
Record Event : Type := {
  ev_before : State;
  ev_call : FileCall;
  ev_result : Result (option Literal);
  ev_after : State
}.

(** The calls are made one after the other; an abort ends the evaluation
    that made the call, and the statics live on for the next one. *)
Fixpoint run (ctx : Evaluator) (calls : list FileCall) (st : State)
    : list Event * State :=
  match calls with
  | [] => ([], st)
  | c :: rest =>
      let '(st', r) := perform ctx c st in
      let '(events, final) := run ctx rest st' in
      ({| ev_before := st; ev_call := c; ev_result := r; ev_after := st' |} :: events,
       final)
  end.

(** The id a call of [open] handed out, if it is one that returned. *)
Definition issued_by (e : Event) : option Literal :=
  match ev_call e, ev_result e with
  | call_open _ _, Ok (Some id) => Some id
  | _, _ => None
  end.

(** The ids handed out in a history, oldest first. *)
Definition issued (events : list Event) : list Literal :=
  omap issued_by events.

(** The handles of the table lie between 1 and the counter. *)
Definition handles_bounded (st : State) : Prop :=
  0 <= fileCounter st
  /\ forall k, is_Some (openFiles st !! k) -> 1 <= k <= fileCounter st.

(** What a call does to the counter, and what an id it issues is: a call
    that issues no id leaves the counter alone; an issued id is the counter
    plus one, was not mapped, and is the new value of the counter. *)
Definition counts_up (e : Event) : Prop :=
  (issued_by e = None -> fileCounter (ev_after e) = fileCounter (ev_before e))
  /\ forall id, issued_by e = Some id ->
       id = UnsignedInteger (fileCounter (ev_before e) + 1)
       /\ openFiles (ev_before e) !! (fileCounter (ev_before e) + 1) = None
       /\ fileCounter (ev_after e) = fileCounter (ev_before e) + 1.
End Calls.

(** ** A host for examples *)

(** An in-memory file system: the contents of the files by path.  A file
    object knows its path, its read and write position and whether it could
    be opened. *)
Record MemoryFile : Type := {
  mf_path : string;
  mf_position : nat;
  mf_valid : bool
}.

Definition memoryFile_contents (f : MemoryFile) (fs : gmap string string) : string :=
  default EmptyString (fs !! mf_path f).

Definition memoryFile_new (path : string) (mode : Mode) (fs : gmap string string)
    : MemoryFile * gmap string string :=
  match mode with
  | Create =>
      ({| mf_path := path; mf_position := 0; mf_valid := true |},
       <[path := EmptyString]> fs)
  | Read | Write =>
      ({| mf_path := path; mf_position := 0;
          mf_valid := bool_decide (is_Some (fs !! path)) |}, fs)
  end.

Definition memoryFile_readString (f : MemoryFile) (size : Z) (fs : gmap string string)
    : string * MemoryFile * gmap string string :=
  let s := String.substring (mf_position f) (Z.to_nat size) (memoryFile_contents f fs) in
  (s, {| mf_path := mf_path f;
         mf_position := mf_position f + String.length s;
         mf_valid := mf_valid f |}, fs).

Definition memoryFile_write (f : MemoryFile) (data : string) (fs : gmap string string)
    : MemoryFile * gmap string string :=
  let old := memoryFile_contents f fs in
  let new := String.substring 0 (mf_position f) old +:+ data
             +:+ String.substring (mf_position f + String.length data)
                   (String.length old) old in
  ({| mf_path := mf_path f;
      mf_position := mf_position f + String.length data;
      mf_valid := mf_valid f |},
   <[mf_path f := new]> fs).

Definition memoryFile_seek (f : MemoryFile) (offset : Z) (fs : gmap string string)
    : MemoryFile * gmap string string :=
  ({| mf_path := mf_path f; mf_position := Z.to_nat offset; mf_valid := mf_valid f |},
   fs).

Definition memoryFile_setSize (f : MemoryFile) (size : Z) (fs : gmap string string)
    : MemoryFile * gmap string string :=
  (f, <[mf_path f := String.substring 0 (Z.to_nat size) (memoryFile_contents f fs)]> fs).

Definition memoryFiles : FileApi := {|
  File := MemoryFile;
  FileSystem := gmap string string;
  File_new := memoryFile_new;
  File_delete := fun _ fs => fs;
  File_isValid := mf_valid;
  File_readString := memoryFile_readString;
  File_write := memoryFile_write;
  File_seek := memoryFile_seek;
  File_getSize := fun f fs =>
    (Z.of_nat (String.length (memoryFile_contents f fs)), f, fs);
  File_setSize := memoryFile_setSize;
  File_flush := fun f fs => (f, fs);
  File_remove := fun f fs => (f, delete (mf_path f) fs)
|}.

(** A C library whose floating-point side is trivial; the examples do not
    look at it. *)
Definition plainLibC : LibC := {|
  strtod_convert := fun _ => S754_zero false;
  format_double := fun _ => EmptyString
|}.

(** An evaluator over a buffer of bytes placed at address 0: a read inside
    the buffer gives its bytes, a read that leaves it is signalled. *)
Definition bufferEvaluator (data : list byte) : Evaluator := {|
  getDataBaseAddress := 0;
  getDataSize := Z.of_nat (length data);
  readData := fun address size =>
    if (0 <=? address) && (address + Z.of_nat size <=? Z.of_nat (length data))
    then Ok (take size (drop (Z.to_nat address) data))
    else Abort "read out of bounds";
  getEnvVariable := fun _ => None
|}.

(** A session on the in-memory host: two files are created, the first is
    closed, a file that does not exist fails to open, the first file is
    opened again, written, removed and closed. *)
Definition example_session : list FileCall := [
  call_open "a.bin" 3;
  call_open "b.bin" 3;
  call_close 1;
  call_open "missing.bin" 1;
  call_open "a.bin" 2;
  call_write 3 (StringValue "magic");
  call_size 3;
  call_remove 3;
  call_close 3
]%string.

(** A session that creates a file 2^32 times without closing any. *)
Definition wrapping_session : list FileCall :=
  repeat (call_open "f" 3) (Z.to_nat (2 ^ 32)).

(** ** The search as the specification words it *)

(** The argument vector of a call of [find_sequence_in_range] with the
    bytes of [sequence] as trailing arguments. *)
Definition search_params (occurrenceIndex offsetFrom offsetTo : Z)
    (sequence : list byte) : list Literal :=
  UnsignedInteger occurrenceIndex :: UnsignedInteger offsetFrom
    :: UnsignedInteger offsetTo
    :: map (fun b => UnsignedInteger (byte.unsigned b)) sequence.

(** "effective end offset = dataSize if offsetTo <= offsetFrom, else
    min(dataSize, offsetTo)" *)
Definition spec_endOffset (dataSize offsetFrom offsetTo : Z) : Z :=
  if offsetTo <=? offsetFrom then dataSize else Z.min dataSize offsetTo.

(** "candidate start offsets o from offsetFrom up to
    endOffset - sequenceLength (exclusive upper bound)", left to right *)
Definition spec_candidates (dataSize offsetFrom offsetTo : Z)
    (sequenceLength : nat) : list Z :=
  seqZ offsetFrom
    (spec_endOffset dataSize offsetFrom offsetTo - Z.of_nat sequenceLength - offsetFrom).

(** "at each o, read sequenceLength bytes from the host memory facade and
    compare byte-for-byte against the target sequence" *)
Definition spec_is_match (ctx : Evaluator) (sequence : list byte) (o : Z) : bool :=
  match readData ctx o (length sequence) with
  | Ok bs => bool_decide (bs = sequence)
  | _ => false
  end.

Definition spec_matches (ctx : Evaluator) (offsetFrom offsetTo : Z)
    (sequence : list byte) : list Z :=
  filter (fun o => spec_is_match ctx sequence o = true)
    (spec_candidates (getDataSize ctx) offsetFrom offsetTo (length sequence)).

(** "return the start offset of the match whose ordinal equals
    occurrenceIndex"; "if the scan completes without reaching
    occurrenceIndex matches, return -1 as a signed sentinel" *)
Definition spec_find_sequence_in_range (ctx : Evaluator)
    (occurrenceIndex offsetFrom offsetTo : Z) (sequence : list byte) : Literal :=
  match spec_matches ctx offsetFrom offsetTo sequence !! Z.to_nat occurrenceIndex with
  | Some o => UnsignedInteger o
  | None => SignedInteger (-1)
  end.

(** The offsets the scan visits: the candidates up to the offset it
    returns, all of them when it returns the sentinel. *)
Definition spec_visited (ctx : Evaluator)
    (occurrenceIndex offsetFrom offsetTo : Z) (sequence : list byte) : list Z :=
  match spec_matches ctx offsetFrom offsetTo sequence !! Z.to_nat occurrenceIndex with
  | Some o => seqZ offsetFrom (o - offsetFrom + 1)
  | None => spec_candidates (getDataSize ctx) offsetFrom offsetTo (length sequence)
  end.

(** A host that serves every read lying inside the data with exactly the
    bytes asked for. *)
Definition serves_reads (ctx : Evaluator) : Prop :=
  forall address size,
    0 <= address -> address + Z.of_nat size <= getDataSize ctx ->
    exists bs, readData ctx address size = Ok bs /\ length bs = size.

(** An evaluator over a buffer whose reads past the end hand back only the
    bytes there are and signal nothing. *)
Definition truncatingEvaluator (data : list byte) : Evaluator := {|
  getDataBaseAddress := 0;
  getDataSize := Z.of_nat (length data);
  readData := fun address size => Ok (take size (drop (Z.to_nat address) data));
  getEnvVariable := fun _ => None
|}.

(** ** Further notions used in the properties *)

(** A host whose successful reads hand back exactly the bytes asked for. *)
Definition exact_reads (ctx : Evaluator) : Prop :=
  forall address size bs, readData ctx address size = Ok bs -> length bs = size.

(** A computation that leaves the state as it found it, up to the reads it
    has issued to the host memory. *)
Definition reads_only `{FileApi} {A : Type} (c : M A) : Prop :=
  forall st, exists reads, fst (c st) = Mem.record_reads st reads.

(** The handles a history has closed: the keys of the calls of [close]
    that returned. *)
Definition closed_by `{FileApi} (e : Event) : option Z :=
  match ev_call e, ev_result e with
  | call_close file, Ok _ => Some (u32 file)
  | _, _ => None
  end.

(** The key of an id handed out by [open]. *)
Definition key_of (id : Literal) : option Z :=
  match id with
  | UnsignedInteger k => Some k
  | _ => None
  end.

(** Whether a namespace is one of those registered at the Dangerous tier. *)
Definition is_guarded_namespace (ns : list string) : bool :=
  bool_decide (ns = nsStdFile) || bool_decide (ns = nsStdHttp).

(** An evaluator over a buffer that knows one environment variable. *)
Definition envEvaluator (data : list byte) (name : string) (value : Literal)
    : Evaluator := {|
  getDataBaseAddress := 0;
  getDataSize := Z.of_nat (List.length data);
  readData := readData (bufferEvaluator data);
  getEnvVariable := fun n => if bool_decide (n = name) then Some value else None
|}.

(** A call with its handle replaced; [open] takes none. *)
Definition with_handle (file : Z) (c : FileCall) : FileCall :=
  match c with
  | call_open path mode => call_open path mode
  | call_close _ => call_close file
  | call_read _ size => call_read file size
  | call_write _ data => call_write file data
  | call_seek _ offset => call_seek file offset
  | call_size _ => call_size file
  | call_resize _ size => call_resize file size
  | call_flush _ => call_flush file
  | call_remove _ => call_remove file
  end.

(** ** Numerals, for the conversion of well-formed input *)

(** The sign in front of a numeral. *)
Inductive Sign : Type := no_sign | plus_sign | minus_sign.

Definition sign_string (sg : Sign) : string :=
  match sg with
  | no_sign => EmptyString
  | plus_sign => "+"
  | minus_sign => "-"
  end.

Definition sign_factor (sg : Sign) : Z :=
  match sg with
  | minus_sign => -1
  | _ => 1
  end.

(** The character that writes the digit [d]: [0] to [9], then the letters
    from [a] (or [A]) for 10 to [z] (or [Z]) for 35. *)
Definition digit_char (upper : bool) (d : Z) : ascii :=
  ascii_of_N (Z.to_N (if d <? 10 then 48 + d else if upper then 55 + d else 87 + d)).

(** A numeral: the digits, most significant first, written out. *)
Fixpoint render_digits (upper : bool) (ds : list Z) : string :=
  match ds with
  | [] => EmptyString
  | d :: rest => String (digit_char upper d) (render_digits upper rest)
  end.

(** The number a numeral denotes in [base]. *)
Definition number (base : Z) (ds : list Z) : Z :=
  fold_left (fun acc d => acc * base + d) ds 0.

Fixpoint all_space (ws : string) : bool :=
  match ws with
  | EmptyString => true
  | String c rest => isspace c && all_space rest
  end.

(** What may follow a numeral of [base] without being read as part of it:
    the end of the string, or a character that is no digit of the base and,
    in base 16, not the [x] of a prefix. *)
Definition stops_digits (base : Z) (rest : string) : bool :=
  match rest with
  | EmptyString => true
  | String c _ =>
      match digit_in base c with
      | Some _ => false
      | None => negb ((base =? 16) && ((char_code c =? 120) || (char_code c =? 88)))
      end
  end.

(** A C library whose [strtod] is exact on integers written in decimal
    (an integer [m] is the float [m * 2^0]); the examples use no others. *)
Definition integerLibC : LibC := {|
  strtod_convert := fun s =>
    match strtoll s 10 with
    | Z0 => S754_zero false
    | Zpos m => S754_finite false m 0
    | Zneg m => S754_finite true m 0
    end;
  format_double := fun _ => EmptyString
|}.

(** A session that creates a file 2^32 - 1 times without closing any. *)
Definition filling_session : list FileCall :=
  repeat (call_open "f" 3) (Z.to_nat (2 ^ 32 - 1)).

(** * Properties *)

Section StdProperties.
Context `{FileApi}.

(** C10: for every argument list, [sizeof_pack] returns the number of
    arguments it was given as an UnsignedInteger literal; it never aborts
    and leaves the state as it found it. *)
Theorem sizeof_pack_counts (ctx : Evaluator) (params : list Literal) (st : State) :
  Std.sizeof_pack ctx params st
  = (st, Ok (Some (UnsignedInteger (Z.of_nat (length params))))).
Proof. reflexivity. Qed.

End StdProperties.

(** ** The registry *)

(** C3: no registration is made under the name [atan2].  The lambda that
    calls [std::atan2] on [params[0]] and [params[1]] is registered in the
    math namespace under the name [atan], with arity [exactly 1], after the
    registration of [std::atan] under the same name. *)
Theorem atan2_is_registered_as_atan :
  registered nsStdMath "atan2" = []
  /\ Forall (fun f => fn_name f <> "atan2"%string) registerPatternLanguageFunctions
  /\ registered nsStdMath "atan"
     = [ addFunction nsStdMath "atan" (exactly 1) (math1 std_atan);
         addFunction nsStdMath "atan" (exactly 1) (math2 std_atan2) ].
Proof.
  split; [reflexivity | split; [| reflexivity]].
  unfold registerPatternLanguageFunctions.
  repeat (apply List.Forall_cons; [discriminate |]).
  apply List.Forall_nil.
Qed.

(** ** std::string *)

Lemma i128_small (z : Z) : - 2 ^ 127 <= z < 2 ^ 127 -> i128 z = z.
Proof.
  intros Hz. unfold i128, to_signed.
  change (128 - 1) with 127.
  rewrite Z.mod_small; lia.
Qed.

Lemma u64_small (z : Z) : 0 <= z < 2 ^ 64 -> u64 z = z.
Proof. intros Hz. unfold u64. apply Z.mod_small; lia. Qed.

Lemma string_get_None (s : string) (n : nat) :
  String.get n s = None -> (String.length s <= n)%nat.
Proof.
  revert n. induction s as [| c s IH]; intros n Hget; simpl in *; [lia |].
  destruct n as [| n]; [discriminate |].
  apply IH in Hget. lia.
Qed.

Lemma string_index_never_aborts (s : string) (pos : Z) (msg : string) :
  Str.string_index s pos <> Abort msg.
Proof.
  unfold Str.string_index.
  destruct ((0 <=? pos) && (pos <? Z.of_nat (String.length s))).
  - destruct (String.get (Z.to_nat pos) s); discriminate.
  - destruct (pos =? Z.of_nat (String.length s)); discriminate.
Qed.

Section StringProperties.
Context `{FileApi} `{LibC}.

(** C2: [at("hello", 5)] does not abort: the guard compares the magnitude
    of the index with the length using [>], so the index equal to the length
    passes it and the call returns the terminating NUL of the string. *)
Theorem at_index_equal_to_length_returns_nul (ctx : Evaluator) (st : State) :
  Str.at_ ctx [StringValue "hello"; SignedInteger 5] st
  = (st, Ok (Some (Character Ascii.zero))).
Proof. reflexivity. Qed.

(** The same for every string: the index equal to the length is let
    through and selects the terminating NUL. *)
Lemma at_length_returns_nul (ctx : Evaluator) (s : string) (st : State) :
  Z.of_nat (String.length s) < 2 ^ 64 ->
  Str.at_ ctx [StringValue s; SignedInteger (Z.of_nat (String.length s))] st
  = (st, Ok (Some (Character Ascii.zero))).
Proof.
  intros Hlen.
  unfold Str.at_, bind, param, lift, ret, abortEvaluation; simpl.
  rewrite (i128_small (Z.of_nat (String.length s))) by lia.
  rewrite Z.abs_eq by lia.
  rewrite (i128_small (Z.of_nat (String.length s))) by lia.
  rewrite Z.ltb_irrefl.
  destruct (Z.leb_spec 0 (Z.of_nat (String.length s))); [| lia].
  rewrite u64_small by lia.
  unfold Str.string_index.
  rewrite Z.ltb_irrefl, andb_false_r, Z.eqb_refl. reflexivity.
Qed.

Lemma at_minus_one (ctx : Evaluator) (st : State) :
  Str.at_ ctx [StringValue "hello"; SignedInteger (-1)] st
  = (st, Ok (Some (Character "o"%char))).
Proof. reflexivity. Qed.

Lemma at_minus_length (ctx : Evaluator) (st : State) :
  Str.at_ ctx [StringValue "hello"; SignedInteger (-5)] st
  = (st, Ok (Some (Character "h"%char))).
Proof. reflexivity. Qed.

Lemma at_magnitude_six (ctx : Evaluator) (st : State) :
  Str.at_ ctx [StringValue "hello"; SignedInteger 6] st
  = (st, Abort "character index out of range")
  /\ Str.at_ ctx [StringValue "hello"; SignedInteger (-6)] st
     = (st, Abort "character index out of range").
Proof. split; reflexivity. Qed.

(** The guard of [at] fires exactly when the magnitude of the index exceeds
    the length. *)
Lemma at_aborts_iff (ctx : Evaluator) (s : string) (i : Z) (st : State) :
  - 2 ^ 127 < i < 2 ^ 127 ->
  snd (Str.at_ ctx [StringValue s; SignedInteger i] st)
    = Abort "character index out of range"
  <-> Z.of_nat (String.length s) < Z.abs i.
Proof.
  intros Hi.
  unfold Str.at_, bind, param, lift, ret, abortEvaluation; simpl.
  rewrite (i128_small i) by lia.
  rewrite (i128_small (Z.abs i)) by lia.
  destruct (Z.ltb_spec (Z.of_nat (String.length s)) (Z.abs i)) as [Hlt | Hge].
  - simpl. tauto.
  - split; [| lia].
    intros Habort. exfalso.
    destruct (0 <=? i);
      match type of Habort with
      | context [Str.string_index ?a ?b] =>
          destruct (Str.string_index a b) eqn:Hindex
      end; simpl in Habort; try congruence;
      eapply string_index_never_aborts; eassumption.
Qed.

(** Within the range the guard lets through, a non-negative index below the
    length selects from the front and a negative one from the back. *)
Lemma at_in_range (ctx : Evaluator) (s : string) (i : Z) (st : State) :
  Z.of_nat (String.length s) < 2 ^ 64 ->
  - Z.of_nat (String.length s) <= i < Z.of_nat (String.length s) ->
  exists c,
    String.get (Z.to_nat (if 0 <=? i then i else Z.of_nat (String.length s) + i)) s = Some c
    /\ Str.at_ ctx [StringValue s; SignedInteger i] st = (st, Ok (Some (Character c))).
Proof.
  intros Hlen Hi.
  set (pos := if 0 <=? i then i else Z.of_nat (String.length s) + i).
  assert (Hpos : 0 <= pos < Z.of_nat (String.length s)).
  { unfold pos. destruct (Z.leb_spec 0 i); lia. }
  destruct (String.get (Z.to_nat pos) s) as [c |] eqn:Hget.
  2: { exfalso. apply string_get_None in Hget. lia. }
  exists c. split; [reflexivity |].
  unfold Str.at_, bind, param, lift, ret, abortEvaluation; simpl.
  rewrite (i128_small i) by lia.
  rewrite (i128_small (Z.abs i)) by lia.
  destruct (Z.ltb_spec (Z.of_nat (String.length s)) (Z.abs i)) as [Hlt | Hge]; [lia |].
  assert (Hidx : Str.string_index s pos = Ok c).
  { unfold Str.string_index.
    destruct (Z.leb_spec 0 pos); [| lia].
    destruct (Z.ltb_spec pos (Z.of_nat (String.length s))); [| lia].
    simpl. rewrite Hget. reflexivity. }
  unfold pos in *.
  destruct (Z.leb_spec 0 i) as [Hnn | Hneg].
  - rewrite u64_small by lia. rewrite Hidx. reflexivity.
  - rewrite (i128_small (- i)) by lia.
    replace (Z.of_nat (String.length s) - - i) with (Z.of_nat (String.length s) + i) by lia.
    rewrite i128_small by lia.
    rewrite u64_small by lia.
    rewrite Hidx. reflexivity.
Qed.

End StringProperties.

(** ** std::file *)

Lemma u32_u128 (z : Z) : u32 (u128 z) = u32 z.
Proof.
  unfold u32, u128.
  apply Z.mod_mod_divide.
  exists (2 ^ 96). reflexivity.
Qed.

Lemma u32_range (z : Z) : 0 <= u32 z < 2 ^ 32.
Proof. unfold u32. apply Z.mod_pos_bound. lia. Qed.

Section FileProperties.
Context `{FileApi} `{LibC}.

Lemma literalToString_cast (l : Literal) :
  exists s, literalToString l true = Ok s.
Proof. destruct l; simpl; eauto. Qed.

(** Every function but [open] aborts on a handle that is not mapped, and
    changes nothing. *)
Lemma perform_unmapped (ctx : Evaluator) (c : FileCall) (file : Z) (st : State) :
  handle_of c = Some file ->
  openFiles st !! u32 file = None ->
  perform ctx c st = (st, Abort FileNs.invalid_file).
Proof.
  intros Hc Hnone.
  destruct c; simpl in Hc; try discriminate;
    injection Hc as ->; simpl;
    unfold FileNs.close, FileNs.read, FileNs.write, FileNs.seek, FileNs.size,
      FileNs.resize, FileNs.flush, FileNs.remove, FileNs.onOpenFile,
      bind, param, lift, ret; simpl;
    try (destruct (literalToString_cast data) as [s ->]);
    rewrite ?u32_u128, ?Hnone; reflexivity.
Qed.

(** C7: [remove] aborts with the invalid-handle message on an unmapped
    handle; on a mapped one it calls [remove] on the file object and keeps
    the entry: the handle stays mapped (to the file object as [remove] left
    it), the other entries and the counter are unchanged. *)
Theorem remove_keeps_entry (ctx : Evaluator) (file : Z) (st : State) :
  (forall f, openFiles st !! u32 file = Some f ->
     exists st',
       FileNs.remove ctx [UnsignedInteger file] st = (st', Ok None)
       /\ openFiles st'
          = <[u32 file := fst (File_remove f (fileSystem st))]> (openFiles st)
       /\ fileSystem st' = snd (File_remove f (fileSystem st))
       /\ is_Some (openFiles st' !! u32 file)
       /\ dom (openFiles st') = dom (openFiles st)
       /\ (forall k, k <> u32 file -> openFiles st' !! k = openFiles st !! k)
       /\ fileCounter st' = fileCounter st)
  /\ (openFiles st !! u32 file = None ->
      FileNs.remove ctx [UnsignedInteger file] st
      = (st, Abort "failed to access invalid file")).
Proof.
  split.
  - intros f Hlookup. eexists. split.
    + unfold FileNs.remove, FileNs.onOpenFile, FileNs.returning_unit,
        bind, param, lift, ret; simpl.
      rewrite u32_u128, Hlookup. reflexivity.
    + simpl. split; [reflexivity |].
      split; [reflexivity |].
      split; [rewrite lookup_insert_eq; eauto |].
      split; [apply dom_insert_lookup_L; eauto |].
      split; [| reflexivity].
      intros k Hk. apply lookup_insert_ne. congruence.
  - intros Hlookup.
    apply (perform_unmapped ctx (call_remove file) file st eq_refl Hlookup).
Qed.

End FileProperties.

Lemma remove_keeps_entry_witness :
  exists st',
    @FileNs.remove memoryFiles (bufferEvaluator []) [UnsignedInteger 1]
      (snd (@run memoryFiles plainLibC (bufferEvaluator []) [call_open "a.bin" 3]
              (FileNs.initial ∅)))
    = (st', Ok None)
    /\ openFiles st' !! 1 = Some {| mf_path := "a.bin"; mf_position := 0; mf_valid := true |}
    /\ fileSystem st' = ∅
    /\ @FileNs.remove memoryFiles (bufferEvaluator []) [UnsignedInteger 2]
         (snd (@run memoryFiles plainLibC (bufferEvaluator []) [call_open "a.bin" 3]
                 (FileNs.initial ∅)))
       = (snd (@run memoryFiles plainLibC (bufferEvaluator []) [call_open "a.bin" 3]
                 (FileNs.initial ∅)),
          Abort "failed to access invalid file").
Proof.
  destruct (proj1 (@remove_keeps_entry memoryFiles plainLibC (bufferEvaluator [])
                     1 (snd (@run memoryFiles plainLibC (bufferEvaluator [])
                               [call_open "a.bin" 3] (FileNs.initial ∅))))
              {| mf_path := "a.bin"; mf_position := 0; mf_valid := true |} eq_refl)
    as (st' & Hremove & Hfiles & Hfs & _).
  exists st'.
  split; [exact Hremove |].
  split; [rewrite Hfiles; reflexivity |].
  split; [rewrite Hfs; reflexivity |].
  apply (proj2 (@remove_keeps_entry memoryFiles plainLibC (bufferEvaluator [])
                  2 (snd (@run memoryFiles plainLibC (bufferEvaluator [])
                            [call_open "a.bin" 3] (FileNs.initial ∅))))).
  reflexivity.
Defined.

(** ** The handle counter *)

Section CounterProperties.
Context `{FileApi} `{LibC}.

(** What [open] does to the statics: nothing when it aborts; otherwise it
    advances the counter modulo 2^32, returns its new value and maps it to
    the new file object unless it is mapped already. *)
Lemma open_cases (ctx : Evaluator) (path : string) (mode : Z) (st : State) :
  (fileCounter (fst (perform ctx (call_open path mode) st)) = fileCounter st
   /\ openFiles (fst (perform ctx (call_open path mode) st)) = openFiles st
   /\ forall v, snd (perform ctx (call_open path mode) st) <> Ok v)
  \/ (fileCounter (fst (perform ctx (call_open path mode) st)) = u32 (fileCounter st + 1)
      /\ snd (perform ctx (call_open path mode) st)
         = Ok (Some (UnsignedInteger (u32 (fileCounter st + 1))))
      /\ exists file,
           openFiles (fst (perform ctx (call_open path mode) st))
           = match openFiles st !! u32 (fileCounter st + 1) with
             | None => <[u32 (fileCounter st + 1) := file]> (openFiles st)
             | Some _ => openFiles st
             end).
Proof.
  simpl. unfold FileNs.open, FileNs.select_mode, bind, param, lift, ret,
    abortEvaluation; simpl.
  assert (Hopened : forall m : Mode,
    let r := (let '(file, fs) := File_new path m (fileSystem st) in
              if negb (File_isValid file)
              then (FileNs.with_files st (fileCounter st) (openFiles st)
                      (File_delete file fs),
                    Abort ("failed to open file " +:+ path))
              else match openFiles st !! u32 (fileCounter st + 1) with
                   | Some _ =>
                       (FileNs.with_files st (u32 (fileCounter st + 1))
                          (openFiles st) (File_delete file fs),
                        Ok (Some (UnsignedInteger (u32 (fileCounter st + 1)))))
                   | None =>
                       (FileNs.with_files st (u32 (fileCounter st + 1))
                          (<[u32 (fileCounter st + 1) := file]> (openFiles st)) fs,
                        Ok (Some (UnsignedInteger (u32 (fileCounter st + 1)))))
                   end) in
    (fileCounter (fst r) = fileCounter st /\ openFiles (fst r) = openFiles st
     /\ forall v, snd r <> Ok v)
    \/ (fileCounter (fst r) = u32 (fileCounter st + 1)
        /\ snd r = Ok (Some (UnsignedInteger (u32 (fileCounter st + 1))))
        /\ exists file,
             openFiles (fst r)
             = match openFiles st !! u32 (fileCounter st + 1) with
               | None => <[u32 (fileCounter st + 1) := file]> (openFiles st)
               | Some _ => openFiles st
               end)).
  { intros m. simpl.
    destruct (File_new path m (fileSystem st)) as [file fs].
    destruct (File_isValid file); simpl.
    - right. destruct (openFiles st !! u32 (fileCounter st + 1)); simpl; eauto.
    - left. repeat split; congruence. }
  destruct (u128 mode =? 1); [apply Hopened |].
  destruct (u128 mode =? 2); [apply Hopened |].
  destruct (u128 mode =? 3); [apply Hopened |].
  left. simpl. repeat split; congruence.
Qed.

Lemma onOpenFile_mapped {A : Type} (file : Z)
    (method : File -> FileSystem -> A * File * FileSystem) (st : State) (f : File) :
  openFiles st !! u32 file = Some f ->
  FileNs.onOpenFile file method st
  = (FileNs.with_files st (fileCounter st)
       (<[u32 file := snd (fst (method f (fileSystem st)))]> (openFiles st))
       (snd (method f (fileSystem st))),
     Ok (fst (fst (method f (fileSystem st))))).
Proof.
  intros Hlookup. unfold FileNs.onOpenFile. rewrite Hlookup.
  destruct (method f (fileSystem st)) as [[a f'] fs']. reflexivity.
Qed.

(** The other functions leave the counter alone and map no new handle. *)
Lemma perform_on_handle (ctx : Evaluator) (c : FileCall) (file : Z) (st : State) :
  handle_of c = Some file ->
  fileCounter (fst (perform ctx c st)) = fileCounter st
  /\ forall k, is_Some (openFiles (fst (perform ctx c st)) !! k) ->
       is_Some (openFiles st !! k).
Proof.
  intros Hc.
  destruct (openFiles st !! u32 file) as [f |] eqn:Hlookup.
  2: { rewrite (perform_unmapped ctx c file st Hc Hlookup). simpl. auto. }
  destruct c; simpl in Hc; try discriminate; injection Hc as ->; simpl;
    unfold FileNs.close, FileNs.read, FileNs.write, FileNs.seek, FileNs.size,
      FileNs.resize, FileNs.flush, FileNs.remove, bind, param, lift, ret; simpl;
    try (destruct (literalToString_cast data) as [s ->]);
    rewrite ?u32_u128, ?Hlookup, ?(onOpenFile_mapped _ _ _ f) by (rewrite ?u32_u128; exact Hlookup);
    simpl; (split; [reflexivity |]); intros k Hk.
  all: destruct (decide (k = u32 file)) as [-> | Hne]; [rewrite Hlookup; eauto |].
  all: rewrite ?u32_u128 in Hk.
  all: first [ rewrite lookup_insert_ne in Hk by congruence
             | rewrite lookup_delete_ne in Hk by congruence ]; exact Hk.
Qed.

Lemma issued_by_handle (e : Event) (file : Z) :
  handle_of (ev_call e) = Some file -> issued_by e = None.
Proof. unfold issued_by. destruct (ev_call e); simpl; congruence. Qed.

(** One call keeps the handles bounded, counts up and maps no handle at or
    below the counter that was not mapped, provided the counter has a value
    left if the call issues an id. *)
Lemma perform_step (ctx : Evaluator) (c : FileCall) (st : State) :
  handles_bounded st ->
  (forall v, snd (perform ctx c st) = Ok (Some v) -> handle_of c = None ->
     fileCounter st + 1 < 2 ^ 32) ->
  handles_bounded (fst (perform ctx c st))
  /\ counts_up {| ev_before := st; ev_call := c;
                  ev_result := snd (perform ctx c st);
                  ev_after := fst (perform ctx c st) |}
  /\ forall k, openFiles st !! k = None -> k <= fileCounter st ->
       openFiles (fst (perform ctx c st)) !! k = None.
Proof.
  intros [Hnn Hkeys] Hroom.
  destruct (handle_of c) as [file |] eqn:Hc.
  - destruct (perform_on_handle ctx c file st Hc) as [Hcounter Hdom].
    split; [| split].
    + split; rewrite Hcounter; [exact Hnn |]. intros k Hk. apply Hkeys, Hdom, Hk.
    + split; simpl; [intros _; exact Hcounter |].
      intros id Hid. rewrite (issued_by_handle _ file) in Hid by exact Hc.
      discriminate.
    + intros k Hk _.
      destruct (openFiles (fst (perform ctx c st)) !! k) eqn:Hafter; [| reflexivity].
      assert (Hbefore : is_Some (openFiles st !! k)) by (apply Hdom; eauto).
      rewrite Hk in Hbefore. destruct Hbefore as [? ?]. discriminate.
  - destruct c; simpl in Hc; try discriminate.
    destruct (open_cases ctx path mode st) as [(Hcounter & Hfiles & Hfailed)
                                              | (Hcounter & Hresult & file & Hfiles)].
    + split; [| split].
      * split; rewrite Hcounter; [exact Hnn |]. rewrite Hfiles. exact Hkeys.
      * split; simpl; [intros _; exact Hcounter |].
        intros id Hid. unfold issued_by in Hid. simpl in Hid.
        destruct (FileNs.open ctx _ st) as [st' [[v |] | |]] eqn:Hopen;
          simpl in *; try discriminate.
        exfalso. apply (Hfailed (Some v)). rewrite Hopen. reflexivity.
      * intros k Hk _. rewrite Hfiles. exact Hk.
    + specialize (Hroom _ Hresult eq_refl).
      assert (Hnext : u32 (fileCounter st + 1) = fileCounter st + 1).
      { unfold u32. apply Z.mod_small. lia. }
      assert (Hfresh : openFiles st !! (fileCounter st + 1) = None).
      { destruct (openFiles st !! (fileCounter st + 1)) eqn:Hl; [| reflexivity].
        assert (1 <= fileCounter st + 1 <= fileCounter st) by (apply Hkeys; eauto).
        lia. }
      rewrite Hnext in *. rewrite Hfresh in Hfiles.
      split; [| split].
      * split; rewrite Hcounter; [lia |]. rewrite Hfiles.
        intros k Hk. destruct (decide (k = fileCounter st + 1)) as [-> | Hne]; [lia |].
        rewrite lookup_insert_ne in Hk by congruence.
        apply Hkeys in Hk. lia.
      * split; simpl.
        { intros Hnone. unfold issued_by in Hnone. simpl in Hnone, Hresult.
          rewrite Hresult in Hnone. discriminate. }
        intros id Hid. unfold issued_by in Hid. simpl in Hid, Hresult, Hcounter.
        rewrite Hresult in Hid. injection Hid as <-.
        repeat split; [exact Hfresh | exact Hcounter].
      * intros k Hk Hle. rewrite Hfiles.
        rewrite lookup_insert_ne by lia. exact Hk.
Qed.

Lemma run_cons (ctx : Evaluator) (c : FileCall) (calls : list FileCall) (st : State) :
  run ctx (c :: calls) st
  = ({| ev_before := st; ev_call := c;
        ev_result := snd (perform ctx c st);
        ev_after := fst (perform ctx c st) |}
       :: fst (run ctx calls (fst (perform ctx c st))),
     snd (run ctx calls (fst (perform ctx c st)))).
Proof.
  simpl. destruct (perform ctx c st) as [st' r]. simpl.
  destruct (run ctx calls st') as [events final]. reflexivity.
Qed.

Lemma run_length (ctx : Evaluator) (calls : list FileCall) (st : State) :
  length (fst (run ctx calls st)) = length calls.
Proof.
  revert st. induction calls as [| c calls IH]; intros st; [reflexivity |].
  rewrite run_cons. simpl. rewrite IH. reflexivity.
Qed.

Lemma issued_cons (e : Event) (events : list Event) :
  issued (e :: events)
  = match issued_by e with
    | Some id => id :: issued events
    | None => issued events
    end.
Proof. reflexivity. Qed.

Lemma issued_length (events : list Event) :
  (length (issued events) <= length events)%nat.
Proof.
  induction events as [| e events IH]; [simpl; lia |].
  rewrite issued_cons. destruct (issued_by e); simpl; lia.
Qed.

(** A run that issues fewer ids than the counter has values left hands out
    consecutive ids, starting after the value the counter had. *)
Lemma run_counts_up (ctx : Evaluator) (calls : list FileCall) (st : State) :
  handles_bounded st ->
  fileCounter st + Z.of_nat (length (issued (fst (run ctx calls st)))) < 2 ^ 32 ->
  issued (fst (run ctx calls st))
    = UnsignedInteger <$> seqZ (fileCounter st + 1)
                            (Z.of_nat (length (issued (fst (run ctx calls st)))))
  /\ fileCounter (snd (run ctx calls st))
     = fileCounter st + Z.of_nat (length (issued (fst (run ctx calls st))))
  /\ handles_bounded (snd (run ctx calls st))
  /\ Forall counts_up (fst (run ctx calls st)).
Proof.
  revert st. induction calls as [| c calls IH]; intros st Hbounded Hfew.
  - simpl. rewrite Z.add_0_r.
    split; [reflexivity | split; [reflexivity | split; [exact Hbounded | constructor]]].
  - rewrite run_cons in *. cbn [fst snd] in *.
    rewrite issued_cons in *.
    set (st' := fst (perform ctx c st)) in *.
    set (e := {| ev_before := st; ev_call := c;
                 ev_result := snd (perform ctx c st); ev_after := st' |}) in *.
    set (events := fst (run ctx calls st')) in *.
    assert (Hstep : handles_bounded st' /\ counts_up e).
    { destruct (perform_step ctx c st Hbounded) as (Hb & Hc & _); [| split; assumption].
      intros v Hv Hc.
      assert (Hid : issued_by e = Some v).
      { unfold issued_by, e. cbn [ev_call ev_result]. rewrite Hv.
        destruct c; simpl in Hc; congruence. }
      rewrite Hid in Hfew. simpl in Hfew. lia. }
    destruct Hstep as [Hbounded' Hup].
    specialize (IH st' Hbounded'). fold events in IH.
    destruct (issued_by e) as [id |] eqn:Hid.
    + destruct Hup as [Hquiet Hissue].
      destruct (Hissue id Hid) as (Heq & Hfresh & Hcounter). subst id.
      cbn [ev_before ev_after e] in Hcounter, Hfresh. simpl length in Hfew.
      destruct IH as (Hids & Hfinal & Hbfinal & Hall); [lia |].
      simpl length.
      replace (Z.of_nat (S (length (issued events))))
        with (Z.succ (Z.of_nat (length (issued events)))) by lia.
      rewrite seqZ_cons by lia. rewrite fmap_cons, Z.pred_succ.
      split; [rewrite Hids at 1; rewrite Hcounter; reflexivity |].
      split; [lia |].
      split; [exact Hbfinal |].
      constructor; [| exact Hall]. split; [exact Hquiet | exact Hissue].
    + assert (Hsame : fileCounter st' = fileCounter st) by (apply Hup; exact Hid).
      rewrite Hsame in IH.
      destruct IH as (Hids & Hfinal & Hbfinal & Hall); [lia |].
      split; [exact Hids |].
      split; [exact Hfinal |].
      split; [exact Hbfinal |].
      constructor; [exact Hup | exact Hall].
Qed.

(** A handle at or below the counter that is not mapped stays unmapped
    while the counter has values left. *)
Lemma run_keeps_unmapped (ctx : Evaluator) (calls : list FileCall) (k : Z) (st : State) :
  handles_bounded st ->
  fileCounter st + Z.of_nat (length (issued (fst (run ctx calls st)))) < 2 ^ 32 ->
  openFiles st !! k = None ->
  k <= fileCounter st ->
  openFiles (snd (run ctx calls st)) !! k = None.
Proof.
  revert st. induction calls as [| c calls IH]; intros st Hbounded Hfew Hk Hle;
    [exact Hk |].
  rewrite run_cons in *. cbn [fst snd] in *.
  rewrite issued_cons in Hfew.
  set (st' := fst (perform ctx c st)) in *.
  set (e := {| ev_before := st; ev_call := c;
               ev_result := snd (perform ctx c st); ev_after := st' |}) in *.
  destruct (perform_step ctx c st Hbounded) as (Hbounded' & [Hquiet Hissue] & Hkeep).
  { intros v Hv Hc.
    assert (Hid : issued_by e = Some v).
    { unfold issued_by, e. cbn [ev_call ev_result]. rewrite Hv.
      destruct c; simpl in Hc; congruence. }
    rewrite Hid in Hfew. simpl in Hfew. lia. }
  fold st' e in Hbounded', Hquiet, Hissue, Hkeep.
  apply IH; [exact Hbounded' | | apply Hkeep; assumption |].
  - destruct (issued_by e) as [id |] eqn:Hid.
    + destruct (Hissue id eq_refl) as (_ & _ & Hcounter).
      cbn [ev_before ev_after e] in Hcounter. simpl length in Hfew. lia.
    + specialize (Hquiet eq_refl). cbn [ev_before ev_after e] in Hquiet. lia.
  - destruct (issued_by e) as [id |] eqn:Hid.
    + destruct (Hissue id eq_refl) as (_ & _ & Hcounter).
      cbn [ev_before ev_after e] in Hcounter. lia.
    + specialize (Hquiet eq_refl). cbn [ev_before ev_after e] in Hquiet. lia.
Qed.

(** C5, amended: [close] on a mapped handle removes its mapping and nothing
    else.  Every file function applied to the handle then aborts with the
    invalid-handle message and changes nothing, right after the [close]
    and, when the handles of the table lay between 1 and the counter, after
    any further calls for as long as the counter has not run through all
    its values.  [close] on an unmapped handle aborts with that message and
    leaves the state unchanged. *)
Theorem close_invalidates_handle (ctx : Evaluator) (file : Z) (st : State) :
  (forall f, openFiles st !! u32 file = Some f ->
     exists st',
       FileNs.close ctx [UnsignedInteger file] st = (st', Ok None)
       /\ openFiles st' = delete (u32 file) (openFiles st)
       /\ fileCounter st' = fileCounter st
       /\ (forall c, handle_of c = Some file ->
             perform ctx c st' = (st', Abort "failed to access invalid file"))
       /\ (forall later,
             handles_bounded st ->
             fileCounter st + Z.of_nat (length (issued (fst (run ctx later st')))) < 2 ^ 32 ->
             forall c, handle_of c = Some file ->
               perform ctx c (snd (run ctx later st'))
               = (snd (run ctx later st'), Abort "failed to access invalid file")))
  /\ (openFiles st !! u32 file = None ->
      FileNs.close ctx [UnsignedInteger file] st
      = (st, Abort "failed to access invalid file")).
Proof.
  split.
  - intros f Hlookup. eexists. split.
    + unfold FileNs.close, bind, param, lift; simpl.
      rewrite u32_u128, Hlookup. reflexivity.
    + set (st' := FileNs.with_files st (fileCounter st)
                    (delete (u32 file) (openFiles st))
                    (File_delete f (fileSystem st))).
      split; [reflexivity |].
      split; [reflexivity |].
      split.
      * intros c Hc. apply (perform_unmapped ctx c file st' Hc).
        simpl. apply lookup_delete_eq.
      * intros later [Hnn Hkeys] Hfew c Hc.
        apply (perform_unmapped ctx c file _ Hc).
        apply run_keeps_unmapped.
        -- split; simpl; [exact Hnn |].
           intros k Hk. apply Hkeys.
           destruct (decide (k = u32 file)) as [-> | Hne].
           ++ rewrite lookup_delete_eq in Hk. destruct Hk as [? ?]. discriminate.
           ++ rewrite lookup_delete_ne in Hk by congruence. exact Hk.
        -- exact Hfew.
        -- simpl. apply lookup_delete_eq.
        -- simpl. apply Hkeys. eauto.
  - intros Hlookup.
    apply (perform_unmapped ctx (call_close file) file st eq_refl Hlookup).
Qed.

(** [open] in Create mode returns when the file object is valid. *)
Lemma open_create_valid (ctx : Evaluator) (path : string) (st : State) :
  File_isValid (fst (File_new path Create (fileSystem st))) = true ->
  snd (perform ctx (call_open path 3) st)
  = Ok (Some (UnsignedInteger (u32 (fileCounter st + 1)))).
Proof.
  intros Hvalid. simpl.
  unfold FileNs.open, bind, param, lift, ret; simpl.
  destruct (File_new path Create (fileSystem st)) as [file fs].
  simpl in Hvalid. rewrite Hvalid. simpl.
  destruct (openFiles st !! u32 (fileCounter st + 1)); reflexivity.
Qed.

Lemma run_app (ctx : Evaluator) (calls1 calls2 : list FileCall) (st : State) :
  run ctx (calls1 ++ calls2) st
  = (fst (run ctx calls1 st) ++ fst (run ctx calls2 (snd (run ctx calls1 st))),
     snd (run ctx calls2 (snd (run ctx calls1 st)))).
Proof.
  revert st. induction calls1 as [| c calls1 IH]; intros st.
  - simpl. destruct (run ctx calls2 st). reflexivity.
  - rewrite <- app_comm_cons, !run_cons. cbn [fst snd]. rewrite IH. reflexivity.
Qed.

Lemma issued_app (events1 events2 : list Event) :
  issued (events1 ++ events2) = issued events1 ++ issued events2.
Proof. unfold issued. apply omap_app. Qed.

Lemma handles_bounded_initial (fs : FileSystem) : handles_bounded (FileNs.initial fs).
Proof.
  split; simpl; [lia |].
  intros k [f Hk]. rewrite lookup_empty in Hk. discriminate.
Qed.

(** C6, amended: in a run of file calls from program start that issues fewer
    than 2^32 ids, the ids issued are the UnsignedInteger literals 1, 2, 3,
    ... in this order, so the first is 1, none is 0 and none is issued
    twice; the counter ends as the number of ids issued; every mapped handle
    lies between 1 and the counter; and every call leaves the counter where
    it was or, when it issues an id, moves it up by one to the id issued,
    which was not mapped before. *)
Theorem ids_issued_in_order (ctx : Evaluator) (calls : list FileCall) (fs : FileSystem)
    (Hfew : Z.of_nat (length (issued (fst (run ctx calls (FileNs.initial fs))))) < 2 ^ 32) :
  issued (fst (run ctx calls (FileNs.initial fs)))
    = UnsignedInteger
        <$> seqZ 1 (Z.of_nat (length (issued (fst (run ctx calls (FileNs.initial fs))))))
  /\ fileCounter (snd (run ctx calls (FileNs.initial fs)))
     = Z.of_nat (length (issued (fst (run ctx calls (FileNs.initial fs)))))
  /\ (forall k, is_Some (openFiles (snd (run ctx calls (FileNs.initial fs))) !! k) ->
        1 <= k <= fileCounter (snd (run ctx calls (FileNs.initial fs))))
  /\ Forall counts_up (fst (run ctx calls (FileNs.initial fs))).
Proof.
  destruct (run_counts_up ctx calls (FileNs.initial fs) (handles_bounded_initial fs))
    as (Hids & Hfinal & [_ Hkeys] & Hall).
  { simpl. lia. }
  simpl in Hids, Hfinal.
  split; [exact Hids |].
  split; [exact Hfinal |].
  split; [exact Hkeys | exact Hall].
Qed.

End CounterProperties.

Lemma close_invalidates_handle_witness :
  exists st',
    @FileNs.close memoryFiles (bufferEvaluator []) [UnsignedInteger 1]
      (snd (@run memoryFiles plainLibC (bufferEvaluator []) [call_open "a.bin" 3]
              (FileNs.initial ∅)))
    = (st', Ok None)
    /\ @perform memoryFiles plainLibC (bufferEvaluator []) (call_read 1 4) st'
       = (st', Abort "failed to access invalid file")
    /\ @perform memoryFiles plainLibC (bufferEvaluator []) (call_read 1 4)
         (snd (@run memoryFiles plainLibC (bufferEvaluator [])
                 [call_open "b.bin" 3; call_write 2 (StringValue "magic")] st'))
       = (snd (@run memoryFiles plainLibC (bufferEvaluator [])
                 [call_open "b.bin" 3; call_write 2 (StringValue "magic")] st'),
          Abort "failed to access invalid file")
    /\ @FileNs.close memoryFiles (bufferEvaluator []) [UnsignedInteger 1] st'
       = (st', Abort "failed to access invalid file").
Proof.
  destruct (proj1 (@close_invalidates_handle memoryFiles plainLibC (bufferEvaluator [])
                     1 (snd (@run memoryFiles plainLibC (bufferEvaluator [])
                               [call_open "a.bin" 3] (FileNs.initial ∅))))
              {| mf_path := "a.bin"; mf_position := 0; mf_valid := true |} eq_refl)
    as (st' & Hclose & Hfiles & _ & Hnow & Hlater).
  exists st'.
  split; [exact Hclose |].
  split; [apply Hnow; reflexivity |].
  split.
  - apply Hlater; [| | reflexivity].
    + split; [vm_compute; discriminate |].
      intros k [f Hk]. vm_compute in Hk.
      destruct k as [| [p | p |] |]; try discriminate. vm_compute. split; discriminate.
    + assert (Hlen : (length (issued (fst (@run memoryFiles plainLibC (bufferEvaluator [])
                   [call_open "b.bin" 3; call_write 2 (StringValue "magic")] st'))) <= 2)%nat).
      { etransitivity; [apply issued_length |]. rewrite run_length. reflexivity. }
      change (fileCounter (snd (@run memoryFiles plainLibC (bufferEvaluator [])
                [call_open "a.bin" 3] (FileNs.initial ∅)))) with 1.
      lia.
  - apply (proj2 (@close_invalidates_handle memoryFiles plainLibC (bufferEvaluator [])
                    1 st')).
    rewrite Hfiles. apply lookup_delete_eq.
Defined.


Lemma ids_issued_in_order_witness :
  issued (fst (@run memoryFiles plainLibC (bufferEvaluator []) example_session
                 (FileNs.initial ∅)))
  = [UnsignedInteger 1; UnsignedInteger 2; UnsignedInteger 3]
  /\ fileCounter (snd (@run memoryFiles plainLibC (bufferEvaluator []) example_session
                         (FileNs.initial ∅))) = 3.
Proof.
  assert (Hfew : Z.of_nat (length (issued (fst (@run memoryFiles plainLibC
            (bufferEvaluator []) example_session (FileNs.initial ∅))))) < 2 ^ 32)
    by (vm_compute; reflexivity).
  destruct (@ids_issued_in_order memoryFiles plainLibC (bufferEvaluator [])
              example_session ∅ Hfew) as (Hids & Hcounter & _).
  split; [exact Hids | exact Hcounter].
Defined.

(** On the in-memory host, creating a file always succeeds. *)
Lemma memory_create_succeeds (ctx : Evaluator) (path : string)
    (st : @State memoryFiles) :
  exists id, snd (@perform memoryFiles plainLibC ctx (call_open path 3) st) = Ok (Some id).
Proof.
  eexists. apply (@open_create_valid memoryFiles plainLibC). reflexivity.
Qed.

Lemma memory_creates_issue (ctx : Evaluator) (path : string) (n : nat)
    (st : @State memoryFiles) :
  length (issued (fst (@run memoryFiles plainLibC ctx (repeat (call_open path 3) n) st)))
  = n.
Proof.
  revert st. induction n as [| n IH]; intros st; [reflexivity |].
  cbn [repeat]. rewrite run_cons. cbn [fst].
  rewrite issued_cons.
  destruct (memory_create_succeeds ctx path st) as [id Hid].
  unfold issued_by. cbn [ev_call ev_result]. rewrite Hid.
  simpl length. rewrite IH. reflexivity.
Qed.

(** C6 as stated fails: the counter is a [u32], and the 2^32-th file opened
    since program start is given the id 0. *)
Lemma id_zero_is_issued_after_wrap :
  In (UnsignedInteger 0)
    (issued (fst (@run memoryFiles plainLibC (bufferEvaluator []) wrapping_session
                    (FileNs.initial ∅)))).
Proof.
  unfold wrapping_session.
  set (ctx := bufferEvaluator []).
  set (n := Z.to_nat (2 ^ 32 - 1)).
  assert (Hn : Z.of_nat n = 2 ^ 32 - 1) by (unfold n; lia).
  replace (Z.to_nat (2 ^ 32)) with (n + 1)%nat by (unfold n; lia).
  rewrite repeat_app.
  change (repeat (call_open "f" 3) 1) with [call_open "f" 3].
  rewrite run_app. cbn [fst]. rewrite issued_app.
  apply in_or_app. right.
  pose proof (@run_counts_up memoryFiles plainLibC ctx (repeat (call_open "f" 3) n)
                (FileNs.initial ∅) (handles_bounded_initial ∅)) as Hrun.
  rewrite memory_creates_issue in Hrun.
  destruct Hrun as (_ & Hcounter & _); [simpl; lia |].
  set (st := snd (@run memoryFiles plainLibC ctx (repeat (call_open "f" 3) n)
                    (FileNs.initial ∅))) in *.
  simpl in Hcounter. rewrite Hn in Hcounter.
  rewrite run_cons. cbn [fst]. rewrite issued_cons.
  unfold issued_by. cbn [ev_call ev_result].
  rewrite (@open_create_valid memoryFiles plainLibC ctx "f" st eq_refl).
  rewrite Hcounter. left. reflexivity.
Qed.

(** ** std::mem: reading a signed integer *)

Lemma pow2_split (w : Z) : 0 < w -> 2 ^ w = 2 * 2 ^ (w - 1).
Proof.
  intros Hw. replace w with (Z.succ (w - 1)) at 1 by lia.
  rewrite Z.pow_succ_r by lia. reflexivity.
Qed.

Lemma to_signed_range (w z : Z) :
  0 < w -> - 2 ^ (w - 1) <= to_signed w z < 2 ^ (w - 1).
Proof.
  intros Hw. unfold to_signed.
  pose proof (pow2_split w Hw) as Hsplit.
  assert (0 < 2 ^ (w - 1)) by (apply Z.pow_pos_nonneg; lia).
  pose proof (Z.mod_pos_bound (z + 2 ^ (w - 1)) (2 ^ w)) as Hmod.
  lia.
Qed.

Lemma to_signed_congruent (w z : Z) :
  0 < w -> to_signed w z mod 2 ^ w = z mod 2 ^ w.
Proof.
  intros Hw. unfold to_signed.
  rewrite Zminus_mod_idemp_l.
  f_equal. lia.
Qed.

Lemma to_signed_mod (w z : Z) :
  0 < w -> to_signed w (z mod 2 ^ w) = to_signed w z.
Proof.
  intros Hw. unfold to_signed.
  rewrite Zplus_mod_idemp_l. reflexivity.
Qed.

Lemma to_signed_small (w z : Z) :
  0 < w -> - 2 ^ (w - 1) <= z < 2 ^ (w - 1) -> to_signed w z = z.
Proof.
  intros Hw Hz. unfold to_signed.
  pose proof (pow2_split w Hw) as Hsplit.
  rewrite Z.mod_small; lia.
Qed.

Lemma i128_low_bits (w z : Z) :
  0 < w <= 128 -> i128 z mod 2 ^ w = z mod 2 ^ w.
Proof.
  intros Hw. unfold i128.
  rewrite <- (Z.mod_mod_divide (to_signed 128 z) (2 ^ 128) (2 ^ w)).
  - rewrite to_signed_congruent by lia.
    apply Z.mod_mod_divide.
    exists (2 ^ (128 - w)). rewrite <- Z.pow_add_r by lia. f_equal. lia.
  - exists (2 ^ (128 - w)). rewrite <- Z.pow_add_r by lia. f_equal. lia.
Qed.

Lemma bit_above_range (x j : Z) :
  0 <= j -> - 2 ^ j <= x < 2 ^ j -> Z.testbit x j = (x <? 0).
Proof.
  intros Hj Hx.
  rewrite Z.testbit_odd, Z.shiftr_div_pow2 by lia.
  destruct (Z.ltb_spec x 0) as [Hneg | Hpos].
  - replace (x / 2 ^ j) with (-1); [reflexivity |].
    apply (Z.div_unique x (2 ^ j) (-1) (x + 2 ^ j)); lia.
  - rewrite Z.div_small by lia. reflexivity.
Qed.

(** The sign extension of [w] bits copies bit [w - 1] to every higher bit
    and keeps the bits below. *)
Lemma to_signed_bits (w z i : Z) :
  0 < w -> 0 <= i ->
  Z.testbit (to_signed w z) i = Z.testbit z (if i <? w then i else w - 1).
Proof.
  intros Hw Hi.
  pose proof (to_signed_range w z Hw) as Hrange.
  pose proof (to_signed_congruent w z Hw) as Hcongr.
  assert (Hlow : forall j, 0 <= j < w ->
            Z.testbit (to_signed w z) j = Z.testbit z j).
  { intros j Hj.
    rewrite <- (Z.mod_pow2_bits_low (to_signed w z) w j) by lia.
    rewrite Hcongr. apply Z.mod_pow2_bits_low. lia. }
  destruct (Z.ltb_spec i w) as [Hlt | Hge]; [apply Hlow; lia |].
  rewrite <- (Hlow (w - 1)) by lia.
  assert (Hmono : 2 ^ (w - 1) <= 2 ^ i) by (apply Z.pow_le_mono_r; lia).
  rewrite (bit_above_range (to_signed w z) i) by lia.
  rewrite (bit_above_range (to_signed w z) (w - 1)) by lia.
  reflexivity.
Qed.

Lemma u128_small (z : Z) : 0 <= z < 2 ^ 128 -> u128 z = z.
Proof. intros Hz. unfold u128. apply Z.mod_small; lia. Qed.

Section ReadSignedProperties.
Context `{FileApi}.

(** When the host hands back [size] bytes, [read_signed] returns the sign
    extension of the number they spell, least significant byte first,
    whatever the local held before. *)
Lemma read_signed_value (uninitialized : Z) (ctx : Evaluator) (address size : Z)
    (bs : list byte) (st : State) :
  1 <= size <= 16 ->
  readData ctx (u128 address) (Z.to_nat size) = Ok bs ->
  length bs = Z.to_nat size ->
  Mem.read_signed uninitialized ctx [UnsignedInteger address; UnsignedInteger size] st
  = (Mem.record_reads st [(u128 address, Z.to_nat size)],
     Ok (Some (SignedInteger (to_signed (size * 8) (le_combine bs))))).
Proof.
  intros Hsize Hread Hlen.
  unfold Mem.read_signed, Mem.readDataInto, bind, param, lift, ret; simpl.
  rewrite (u128_small size) by lia.
  destruct (Z.ltb_spec 16 size) as [Hbig | _]; [lia |].
  rewrite Hread. simpl.
  do 3 f_equal.
  unfold signExtend.
  rewrite <- (to_signed_mod (size * 8) (i128 _)) by lia.
  rewrite i128_low_bits by lia.
  rewrite <- (to_signed_mod (size * 8) (le_combine bs)) by lia.
  f_equal.
  assert (Htake : take (Z.to_nat size) bs = bs).
  { apply firstn_all2. lia. }
  rewrite Htake.
  unfold Mem.overwrite.
  rewrite length_le_split.
  assert (Hfull : take 16 (bs ++ drop (length bs) (le_split 16 uninitialized))
                  = bs ++ drop (length bs) (le_split 16 uninitialized)).
  { apply firstn_all2. rewrite length_app, length_drop, length_le_split. lia. }
  rewrite Hfull.
  replace (size * 8) with (8 * Z.of_nat (Z.to_nat size)) by lia.
  rewrite <- !le_combine_firstn.
  f_equal.
  rewrite <- Hlen.
  rewrite firstn_app, Nat.sub_diag, firstn_all. simpl. rewrite app_nil_r.
  reflexivity.
Qed.

(** C8: [read_signed] aborts with "read size out of range" when the size
    exceeds 16.  For a size from 1 to 16 and [size] bytes handed back by the
    host, the result is the sign extension to 128 bits of the [size * 8]
    low-order bits the bytes spell: it lies in the signed range of that
    width, agrees with the bytes below bit [size * 8] and repeats bit
    [size * 8 - 1] above.  Hence a value of that range stored in [size]
    bytes is read back unchanged. *)
Theorem read_signed_sign_extends (uninitialized : Z) (ctx : Evaluator)
    (address size : Z) (st : State) :
  (16 < u128 size ->
   Mem.read_signed uninitialized ctx [UnsignedInteger address; UnsignedInteger size] st
   = (st, Abort "read size out of range"))
  /\ (1 <= size <= 16 ->
      forall bs,
        readData ctx (u128 address) (Z.to_nat size) = Ok bs ->
        length bs = Z.to_nat size ->
        exists r,
          Mem.read_signed uninitialized ctx
            [UnsignedInteger address; UnsignedInteger size] st
          = (Mem.record_reads st [(u128 address, Z.to_nat size)],
             Ok (Some (SignedInteger r)))
          /\ - 2 ^ (size * 8 - 1) <= r < 2 ^ (size * 8 - 1)
          /\ r mod 2 ^ (size * 8) = le_combine bs
          /\ forall i, 0 <= i ->
               Z.testbit r i
               = Z.testbit (le_combine bs) (if i <? size * 8 then i else size * 8 - 1))
  /\ (1 <= size <= 16 ->
      forall v,
        - 2 ^ (size * 8 - 1) <= v < 2 ^ (size * 8 - 1) ->
        readData ctx (u128 address) (Z.to_nat size) = Ok (le_split (Z.to_nat size) v) ->
        Mem.read_signed uninitialized ctx
          [UnsignedInteger address; UnsignedInteger size] st
        = (Mem.record_reads st [(u128 address, Z.to_nat size)],
           Ok (Some (SignedInteger v)))).
Proof.
  split; [| split].
  - intros Hbig.
    unfold Mem.read_signed, bind, param, lift, ret, abortEvaluation; simpl.
    destruct (Z.ltb_spec 16 (u128 size)) as [_ | Hsmall]; [reflexivity | lia].
  - intros Hsize bs Hread Hlen.
    exists (to_signed (size * 8) (le_combine bs)).
    split; [apply read_signed_value; assumption |].
    split; [apply to_signed_range; lia |].
    split; [| intros i Hi; apply to_signed_bits; lia].
    rewrite to_signed_congruent by lia.
    apply Z.mod_small.
    pose proof (le_combine_bound bs) as Hbound.
    rewrite Hlen in Hbound.
    replace (size * 8) with (8 * Z.of_nat (Z.to_nat size)) by lia.
    exact Hbound.
  - intros Hsize v Hv Hread.
    rewrite (read_signed_value uninitialized ctx address size _ st Hsize Hread)
      by apply length_le_split.
    rewrite le_combine_split.
    replace (Z.of_nat (Z.to_nat size) * 8) with (size * 8) by lia.
    rewrite to_signed_mod by lia.
    rewrite to_signed_small by lia.
    reflexivity.
Qed.

End ReadSignedProperties.

Lemma read_signed_sign_extends_witness :
  @Mem.read_signed memoryFiles 123456789
    (bufferEvaluator [Byte.x00; Byte.xfe; Byte.xff; Byte.x7f])
    [UnsignedInteger 1; UnsignedInteger 2] (FileNs.initial ∅)
  = (Mem.record_reads (FileNs.initial ∅) [(1, 2%nat)], Ok (Some (SignedInteger (-2))))
  /\ @Mem.read_signed memoryFiles 123456789
       (bufferEvaluator [Byte.x00; Byte.xfe; Byte.xff; Byte.x7f])
       [UnsignedInteger 1; UnsignedInteger 17] (FileNs.initial ∅)
     = (FileNs.initial ∅, Abort "read size out of range").
Proof.
  split.
  - apply (proj2 (proj2 (@read_signed_sign_extends memoryFiles 123456789
             (bufferEvaluator [Byte.x00; Byte.xfe; Byte.xff; Byte.x7f])
             1 2 (FileNs.initial ∅))));
      [lia | vm_compute; split; [discriminate | reflexivity] | reflexivity].
  - apply (proj1 (@read_signed_sign_extends memoryFiles 123456789
             (bufferEvaluator [Byte.x00; Byte.xfe; Byte.xff; Byte.x7f])
             1 17 (FileNs.initial ∅))).
    vm_compute. reflexivity.
Defined.

(** ** std::string: parsing numbers *)

Lemma read_digits_nonneg (base : Z) (s : string) (acc : Z) :
  0 <= base -> 0 <= acc -> 0 <= read_digits base s acc.
Proof.
  intros Hbase. revert acc.
  induction s as [| c s IH]; intros acc Hacc; simpl; [exact Hacc |].
  unfold digit_in, digit_value.
  destruct ((48 <=? char_code c) && (char_code c <=? 57)) eqn:Hdec.
  { destruct (char_code c - 48 <? base); [| exact Hacc]. apply IH. nia. }
  destruct ((97 <=? char_code c) && (char_code c <=? 122)) eqn:Hlow.
  { destruct (char_code c - 97 + 10 <? base); [| exact Hacc]. apply IH. nia. }
  destruct ((65 <=? char_code c) && (char_code c <=? 90)) eqn:Hup; [| exact Hacc].
  destruct (char_code c - 65 + 10 <? base); [| exact Hacc]. apply IH. nia.
Qed.

(** [strtoll] stays within the range of [long long]. *)
Lemma strtoll_range (nptr : string) (base : Z) :
  LLONG_MIN <= strtoll nptr base <= LLONG_MAX.
Proof.
  unfold strtoll, LLONG_MIN, LLONG_MAX.
  destruct ((base <? 0) || (base =? 1) || (36 <? base)) eqn:Hbase; [lia |].
  destruct (take_sign (skip_space nptr)) as [negative s].
  destruct (take_prefix base s) as [base' digits] eqn:Hprefix.
  assert (Hbase' : 0 <= base').
  { unfold take_prefix in Hprefix.
    repeat match type of Hprefix with
           | context [match ?x with _ => _ end] => destruct x
           end; injection Hprefix as <- <-; lia. }
  pose proof (read_digits_nonneg base' digits 0 Hbase' ltac:(lia)) as Hnn.
  destruct negative; lia.
Qed.

Lemma take_prefix_other (base : Z) (c : ascii) (rest : string) :
  c <> "0"%char ->
  take_prefix base (String c rest) = (if base =? 0 then 10 else base, String c rest).
Proof.
  intros Hc. unfold take_prefix.
  destruct (base =? 0);
    destruct c as [[] [] [] [] [] [] [] []]; try reflexivity;
    contradiction Hc; reflexivity.
Qed.

(** Without a subject sequence [strtoll] gives 0. *)
Lemma strtoll_no_subject (nptr : string) (base : Z) :
  has_int_subject base nptr = false -> strtoll nptr base = 0.
Proof.
  unfold has_int_subject, strtoll. intros Hnone.
  destruct ((base <? 0) || (base =? 1) || (36 <? base)) eqn:Hbase; [reflexivity |].
  destruct (take_sign (skip_space nptr)) as [negative s]. simpl in Hnone.
  assert (Hzero : read_digits (fst (take_prefix base s)) (snd (take_prefix base s)) 0 = 0).
  { destruct s as [| c rest].
    - simpl. destruct (base =? 0); reflexivity.
    - destruct (digit_in (if base =? 0 then 10 else base) c) eqn:Hdigit;
        [discriminate |].
      assert (Hc : c <> "0"%char).
      { intros ->. unfold digit_in in Hdigit.
        change (digit_value "0") with (Some 0) in Hdigit.
        cbv beta iota in Hdigit.
        destruct (0 <? (if base =? 0 then 10 else base)) eqn:Hlt; [discriminate |].
        apply Z.ltb_ge in Hlt.
        destruct (Z.eqb_spec base 0); lia. }
      rewrite take_prefix_other by exact Hc.
      simpl. rewrite Hdigit. reflexivity. }
  destruct (take_prefix base s) as [base' digits]. simpl in Hzero.
  rewrite Hzero. destruct negative; reflexivity.
Qed.

Lemma append_cons (c : ascii) (s t : string) :
  (String c s +:+ t)%string = String c (s +:+ t)%string.
Proof. reflexivity. Qed.

Lemma char_code_digit_char (upper : bool) (d : Z) :
  0 <= d < 36 ->
  char_code (digit_char upper d)
  = (if d <? 10 then 48 + d else if upper then 55 + d else 87 + d).
Proof.
  intros Hd. unfold char_code, digit_char.
  rewrite N_ascii_embedding; [apply Z2N.id | ];
    destruct (d <? 10), upper; lia.
Qed.

Lemma digit_value_digit_char (upper : bool) (d : Z) :
  0 <= d < 36 -> digit_value (digit_char upper d) = Some d.
Proof.
  intros Hd. unfold digit_value. rewrite char_code_digit_char by exact Hd.
  destruct (Z.ltb_spec d 10), upper;
    repeat match goal with
           | |- context [?a <=? ?b] => destruct (Z.leb_spec a b); try lia
           end;
    cbn [andb]; f_equal; lia.
Qed.

Lemma digit_in_digit_char (base : Z) (upper : bool) (d : Z) :
  0 <= d < base -> base <= 36 -> digit_in base (digit_char upper d) = Some d.
Proof.
  intros Hd Hbase. unfold digit_in.
  rewrite digit_value_digit_char by lia.
  destruct (Z.ltb_spec d base); [reflexivity | lia].
Qed.

Lemma isspace_digit_char (upper : bool) (d : Z) :
  0 <= d < 36 -> isspace (digit_char upper d) = false.
Proof.
  intros Hd. unfold isspace. rewrite char_code_digit_char by exact Hd.
  destruct (Z.ltb_spec d 10), upper;
    repeat match goal with
           | |- context [?a <=? ?b] => destruct (Z.leb_spec a b); try lia
           | |- context [?a =? ?b] => destruct (Z.eqb_spec a b); try lia
           end;
    reflexivity.
Qed.

Lemma take_sign_other (c : ascii) (rest : string) :
  c <> "-"%char -> c <> "+"%char ->
  take_sign (String c rest) = (false, String c rest).
Proof.
  intros Hminus Hplus. unfold take_sign.
  destruct c as [[] [] [] [] [] [] [] []]; try reflexivity;
    first [contradiction Hminus; reflexivity | contradiction Hplus; reflexivity].
Qed.

Lemma skip_space_spaces (ws t : string) :
  all_space ws = true ->
  match t with String c _ => isspace c = false | EmptyString => True end ->
  skip_space (ws +:+ t) = t.
Proof.
  intros Hws Ht. induction ws as [| c ws IH].
  - change (EmptyString +:+ t)%string with t.
    destruct t as [| c t]; [reflexivity |]. cbn [skip_space]. rewrite Ht. reflexivity.
  - cbn [all_space] in Hws. apply andb_true_iff in Hws as [Hc Hws].
    rewrite append_cons. cbn [skip_space]. rewrite Hc. apply IH. exact Hws.
Qed.

(** With a base other than 0, nothing is taken for a prefix unless the base
    is 16 and an [x] follows a leading [0]. *)
Lemma take_prefix_plain (base : Z) (c : ascii) (t : string) :
  base <> 0 ->
  (base = 16 ->
   match t with
   | String x _ => (char_code x =? 120) || (char_code x =? 88) = false
   | EmptyString => True
   end) ->
  take_prefix base (String c t) = (base, String c t).
Proof.
  intros Hbase Hx.
  destruct (ascii_dec c "0") as [-> | Hc].
  2: { rewrite take_prefix_other by exact Hc.
       destruct (Z.eqb_spec base 0); [contradiction | reflexivity]. }
  unfold take_prefix.
  destruct (Z.eqb_spec base 0) as [? | _]; [contradiction |].
  destruct t as [| x [| d t]]; try reflexivity.
  destruct (Z.eqb_spec base 16) as [H16 | _]; [| reflexivity].
  rewrite (Hx H16). reflexivity.
Qed.

Lemma number_step (base : Z) (ds : list Z) (acc : Z) :
  0 <= base -> 0 <= acc -> Forall (fun d => 0 <= d < base) ds ->
  0 <= fold_left (fun a d => a * base + d) ds acc.
Proof.
  intros Hbase Hacc Hds. revert acc Hacc.
  induction Hds as [| d ds Hd _ IH]; intros acc Hacc; [exact Hacc |].
  cbn [fold_left]. apply IH. nia.
Qed.

(** Reading a numeral followed by something that stops it gives the number
    it denotes. *)
Lemma read_digits_render (base : Z) (upper : bool) (ds : list Z) (rest : string)
    (acc : Z) :
  base <= 36 ->
  Forall (fun d => 0 <= d < base) ds ->
  stops_digits base rest = true ->
  read_digits base (render_digits upper ds +:+ rest) acc
  = fold_left (fun a d => a * base + d) ds acc.
Proof.
  intros Hbase Hds Hrest. revert acc.
  induction Hds as [| d ds Hd _ IH]; intros acc.
  - change (render_digits upper [] +:+ rest)%string with rest. cbn [fold_left].
    destruct rest as [| c rest]; [reflexivity |].
    cbn [read_digits]. unfold stops_digits in Hrest.
    destruct (digit_in base c); [discriminate | reflexivity].
  - cbn [render_digits fold_left]. rewrite append_cons. cbn [read_digits].
    rewrite digit_in_digit_char by assumption. apply IH.
Qed.

(** [strtoll] on well-formed input: white space, an optional sign and a
    numeral of the base, up to the end of the string or to a character that
    stops the numeral. *)
Lemma strtoll_numeral (ws : string) (sg : Sign) (upper : bool) (ds : list Z)
    (rest : string) (base : Z) :
  2 <= base <= 36 ->
  all_space ws = true ->
  ds <> [] ->
  Forall (fun d => 0 <= d < base) ds ->
  stops_digits base rest = true ->
  strtoll (ws +:+ sign_string sg +:+ render_digits upper ds +:+ rest) base
  = Z.max LLONG_MIN (Z.min LLONG_MAX (sign_factor sg * number base ds)).
Proof.
  intros Hbase Hws Hne Hds Hrest.
  destruct ds as [| d ds]; [contradiction |].
  pose proof (List.Forall_inv Hds) as Hd. cbv beta in Hd.
  assert (Hdigit : digit_value (digit_char upper d) = Some d)
    by (apply digit_value_digit_char; lia).
  assert (Hsign : take_sign (sign_string sg +:+ render_digits upper (d :: ds) +:+ rest)
                  = (match sg with minus_sign => true | _ => false end,
                     (render_digits upper (d :: ds) +:+ rest)%string)).
  { destruct sg; [| reflexivity | reflexivity].
    change (sign_string no_sign +:+ render_digits upper (d :: ds) +:+ rest)%string
      with (render_digits upper (d :: ds) +:+ rest)%string.
    cbn [render_digits]. rewrite append_cons.
    apply take_sign_other; intros Heq; rewrite Heq in Hdigit; discriminate. }
  assert (Hskip : skip_space (ws +:+ sign_string sg
                              +:+ render_digits upper (d :: ds) +:+ rest)
                  = (sign_string sg +:+ render_digits upper (d :: ds) +:+ rest)%string).
  { apply skip_space_spaces; [exact Hws |].
    destruct sg; [| reflexivity | reflexivity].
    change (sign_string no_sign +:+ render_digits upper (d :: ds) +:+ rest)%string
      with (render_digits upper (d :: ds) +:+ rest)%string.
    cbn [render_digits]. rewrite append_cons.
    apply isspace_digit_char. lia. }
  assert (Hprefix : take_prefix base (render_digits upper (d :: ds) +:+ rest)
                    = (base, (render_digits upper (d :: ds) +:+ rest)%string)).
  { cbn [render_digits]. rewrite append_cons.
    apply take_prefix_plain; [lia |].
    intros H16. destruct ds as [| d' ds].
    - change (render_digits upper [] +:+ rest)%string with rest.
      destruct rest as [| c rest]; [exact I |].
      unfold stops_digits in Hrest.
      destruct (digit_in base c); [discriminate |].
      destruct (Z.eqb_spec base 16); [| contradiction].
      cbn [andb] in Hrest. apply negb_true_iff in Hrest. exact Hrest.
    - cbn [render_digits]. rewrite append_cons.
      pose proof (List.Forall_inv (List.Forall_inv_tail Hds)) as Hd'. cbv beta in Hd'.
      rewrite char_code_digit_char by lia.
      destruct (Z.ltb_spec d' 10), upper;
        repeat match goal with
               | |- context [?a =? ?b] => destruct (Z.eqb_spec a b); try lia
               end;
        reflexivity. }
  unfold strtoll.
  destruct (Z.ltb_spec base 0); [lia |].
  destruct (Z.eqb_spec base 1); [lia |].
  destruct (Z.ltb_spec 36 base); [lia |].
  cbn [orb]. rewrite Hskip, Hsign, Hprefix.
  rewrite read_digits_render by (assumption || lia).
  fold (number base (d :: ds)).
  assert (Hnn : 0 <= number base (d :: ds))
    by (apply number_step; [lia | lia | exact Hds]).
  unfold LLONG_MIN, LLONG_MAX in *.
  destruct sg; cbn [sign_factor]; lia.
Qed.

Section ParseProperties.
Context `{FileApi} `{LibC}.

(** C9: [parse_int] and [parse_float] applied to a string return for every
    content of the string, with the state unchanged: [parse_int] a
    SignedInteger in the range of [long long] and [parse_float] a
    FloatingPoint.  A string without a subject sequence gives 0,
    respectively 0.0.  Well-formed input is converted: white space, an
    optional sign and a numeral of a base from 2 to 36, up to the end of the
    string or to a character that stops the numeral, give the number the
    numeral denotes with its sign, clamped to the range of [long long]; a
    [0x] prefix is skipped in base 16, and base 0 reads the base off the
    prefix; [parse_int("ff", 16)] is 255 and [parse_int("not-a-number", 10)]
    is 0.  [parse_float] of a string with a subject sequence is what the C
    library's conversion makes of that string. *)
Theorem parse_soft_failure (ctx : Evaluator) (st : State) :
  (forall s base,
     exists v,
       Str.parse_int ctx [StringValue s; UnsignedInteger base] st
       = (st, Ok (Some (SignedInteger v)))
       /\ LLONG_MIN <= v <= LLONG_MAX)
  /\ (forall s base,
        has_int_subject (i32 (u128 base)) s = false ->
        Str.parse_int ctx [StringValue s; UnsignedInteger base] st
        = (st, Ok (Some (SignedInteger 0))))
  /\ Str.parse_int ctx [StringValue "ff"; UnsignedInteger 16] st
     = (st, Ok (Some (SignedInteger 255)))
  /\ Str.parse_int ctx [StringValue "not-a-number"; UnsignedInteger 10] st
     = (st, Ok (Some (SignedInteger 0)))
  /\ (forall s,
        exists d,
          Str.parse_float ctx [StringValue s] st = (st, Ok (Some (FloatingPoint d))))
  /\ (forall s,
        has_float_subject s = false ->
        Str.parse_float ctx [StringValue s] st
        = (st, Ok (Some (FloatingPoint (S754_zero false)))))
  /\ (forall ws sg upper ds rest base,
        2 <= base <= 36 ->
        all_space ws = true ->
        ds <> [] ->
        Forall (fun d => 0 <= d < base) ds ->
        stops_digits base rest = true ->
        Str.parse_int ctx
          [StringValue (ws +:+ sign_string sg +:+ render_digits upper ds +:+ rest);
           UnsignedInteger base] st
        = (st, Ok (Some (SignedInteger
                           (Z.max LLONG_MIN
                              (Z.min LLONG_MAX (sign_factor sg * number base ds)))))))
  /\ Str.parse_int ctx [StringValue "0x1F"; UnsignedInteger 16] st
     = (st, Ok (Some (SignedInteger 31)))
  /\ Str.parse_int ctx [StringValue "0x1F"; UnsignedInteger 0] st
     = (st, Ok (Some (SignedInteger 31)))
  /\ Str.parse_int ctx [StringValue "017"; UnsignedInteger 0] st
     = (st, Ok (Some (SignedInteger 15)))
  /\ Str.parse_int ctx [StringValue "42"; UnsignedInteger 0] st
     = (st, Ok (Some (SignedInteger 42)))
  /\ (forall s,
        has_float_subject s = true ->
        Str.parse_float ctx [StringValue s] st
        = (st, Ok (Some (FloatingPoint (strtod_convert s))))).
Proof.
  split; [| split; [| split; [| split; [| split; [| split; [| split]]]]]].
  - intros s base. eexists. split; [reflexivity | apply strtoll_range].
  - intros s base Hnone.
    unfold Str.parse_int, bind, param, lift, ret; simpl.
    rewrite strtoll_no_subject by exact Hnone. reflexivity.
  - reflexivity.
  - reflexivity.
  - intros s. eexists. reflexivity.
  - intros s Hnone.
    unfold Str.parse_float, bind, param, lift, ret, strtod; simpl.
    rewrite Hnone. reflexivity.
  - intros ws sg upper ds rest base Hbase Hws Hne Hds Hrest.
    unfold Str.parse_int, bind, param, lift, ret.
    cbn [nth_error literalToString literalToUnsigned].
    rewrite (u128_small base) by lia.
    unfold i32. rewrite (to_signed_small 32 base) by lia.
    rewrite strtoll_numeral by assumption. reflexivity.
  - repeat split; try reflexivity.
    intros s Hsubject.
    unfold Str.parse_float, bind, param, lift, ret, strtod; simpl.
    rewrite Hsubject. reflexivity.
Qed.

End ParseProperties.

Lemma parse_soft_failure_witness :
  @Str.parse_int memoryFiles integerLibC (bufferEvaluator [])
    [StringValue "  -zz top"; UnsignedInteger 36] (FileNs.initial ∅)
  = (FileNs.initial ∅, Ok (Some (SignedInteger (-1295))))
  /\ @Str.parse_int memoryFiles integerLibC (bufferEvaluator [])
       [StringValue "+9223372036854775808"; UnsignedInteger 10] (FileNs.initial ∅)
     = (FileNs.initial ∅, Ok (Some (SignedInteger LLONG_MAX)))
  /\ @Str.parse_int memoryFiles integerLibC (bufferEvaluator [])
       [StringValue "+ 12"; UnsignedInteger 10] (FileNs.initial ∅)
     = (FileNs.initial ∅, Ok (Some (SignedInteger 0)))
  /\ @Str.parse_float memoryFiles integerLibC (bufferEvaluator [])
       [StringValue "x1.5"] (FileNs.initial ∅)
     = (FileNs.initial ∅, Ok (Some (FloatingPoint (S754_zero false))))
  /\ @Str.parse_float memoryFiles integerLibC (bufferEvaluator [])
       [StringValue " -42"] (FileNs.initial ∅)
     = (FileNs.initial ∅, Ok (Some (FloatingPoint (S754_finite true 42 0)))).
Proof.
  pose proof (@parse_soft_failure memoryFiles integerLibC (bufferEvaluator [])
                (FileNs.initial ∅))
    as (_ & Hint & _ & _ & _ & Hfloat & Hnumeral & _ & _ & _ & _ & Hconvert).
  split.
  { apply (Hnumeral "  "%string minus_sign false [35; 35] " top"%string 36);
      [lia | reflexivity | discriminate | | reflexivity].
    repeat constructor; lia. }
  split.
  { apply (Hnumeral EmptyString plus_sign false
             [9; 2; 2; 3; 3; 7; 2; 0; 3; 6; 8; 5; 4; 7; 7; 5; 8; 0; 8] EmptyString 10);
      [lia | reflexivity | discriminate | | reflexivity].
    repeat constructor; lia. }
  split; [apply Hint; reflexivity |].
  split; [apply Hfloat; reflexivity |].
  apply (Hconvert " -42"%string). reflexivity.
Defined.

(** ** std::mem: searching a byte sequence *)

Section SearchProperties.
Context `{FileApi}.

Lemma record_reads_nil (st : State) : Mem.record_reads st [] = st.
Proof. destruct st. unfold Mem.record_reads. simpl. rewrite app_nil_r. reflexivity. Qed.

Lemma record_reads_app (st : State) (reads1 reads2 : list (Z * nat)) :
  Mem.record_reads (Mem.record_reads st reads1) reads2
  = Mem.record_reads st (reads1 ++ reads2).
Proof. unfold Mem.record_reads. simpl. rewrite app_assoc. reflexivity. Qed.

(** One round of the scanning loop. *)
Lemma scan_S (ctx : Evaluator) (sequence : list byte) (occurrenceIndex : Z)
    (count : nat) (offset occurrences : Z) (bytes : list byte) (st : State) :
  Mem.scan ctx sequence occurrenceIndex (S count) offset occurrences bytes st
  = match readData ctx offset (length bytes) with
    | Ok written =>
        let bytes' := Mem.overwrite (take (length bytes) written) bytes in
        if bool_decide (bytes' = sequence) then
          if occurrences <? occurrenceIndex then
            Mem.scan ctx sequence occurrenceIndex count (offset + 1)
              (u32 (occurrences + 1)) bytes'
              (Mem.record_reads st [(offset, length bytes)])
          else
            (Mem.record_reads st [(offset, length bytes)],
             Ok (Some (UnsignedInteger offset)))
        else
          Mem.scan ctx sequence occurrenceIndex count (offset + 1) occurrences bytes'
            (Mem.record_reads st [(offset, length bytes)])
    | Abort msg => (Mem.record_reads st [(offset, length bytes)], Abort msg)
    | Undefined => (Mem.record_reads st [(offset, length bytes)], Undefined)
    end.
Proof.
  cbn [Mem.scan]. unfold bind, Mem.readDataInto.
  destruct (readData ctx offset (length bytes)) as [written | msg |]; cbn [result_bind];
    [| reflexivity | reflexivity].
  destruct (bool_decide _); [| reflexivity].
  destruct (occurrences <? occurrenceIndex); reflexivity.
Qed.

Lemma overwrite_full (written buffer : list byte) :
  length written = length buffer ->
  Mem.overwrite (take (length buffer) written) buffer = written.
Proof.
  intros Hlen. unfold Mem.overwrite.
  rewrite <- Hlen, firstn_all.
  rewrite skipn_all2 by lia. rewrite app_nil_r. apply firstn_all.
Qed.

(** The loop returns what the filtered list of candidates prescribes. *)
Lemma scan_finds (ctx : Evaluator) (sequence : list byte) (occurrenceIndex : Z)
    (count : nat) (offset occurrences : Z) (bytes : list byte) (st : State) :
  length bytes = length sequence ->
  (forall o, offset <= o < offset + Z.of_nat count ->
     exists bs, readData ctx o (length sequence) = Ok bs
                /\ length bs = length sequence) ->
  0 <= occurrences <= occurrenceIndex ->
  occurrenceIndex < 2 ^ 32 ->
  Mem.scan ctx sequence occurrenceIndex count offset occurrences bytes st
  = match filter (fun o => spec_is_match ctx sequence o = true)
            (seqZ offset (Z.of_nat count))
          !! Z.to_nat (occurrenceIndex - occurrences) with
    | Some o =>
        (Mem.record_reads st
           ((fun a => (a, length sequence)) <$> seqZ offset (o - offset + 1)),
         Ok (Some (UnsignedInteger o)))
    | None =>
        (Mem.record_reads st
           ((fun a => (a, length sequence)) <$> seqZ offset (Z.of_nat count)),
         Ok (Some (SignedInteger (-1))))
    end.
Proof.
  revert offset occurrences bytes st.
  induction count as [| count IH]; intros offset occurrences bytes st Hlen Hhost Hocc Hidx.
  - cbn [Mem.scan]. change (Z.of_nat 0) with 0. rewrite seqZ_nil by lia.
    rewrite filter_nil, lookup_nil, fmap_nil, record_reads_nil. reflexivity.
  - rewrite scan_S.
    destruct (Hhost offset ltac:(lia)) as (bs & Hread & Hbs).
    rewrite Hlen, Hread. cbv zeta.
    replace (Mem.overwrite (take (length sequence) bs) bytes) with bs
      by (rewrite <- Hlen; symmetry; apply overwrite_full; congruence).
    replace (Z.of_nat (S count)) with (Z.succ (Z.of_nat count)) by lia.
    rewrite (seqZ_cons offset) by lia. rewrite Z.pred_succ.
    replace (Z.succ offset) with (offset + 1) by lia.
    assert (Hnext : forall occurrences' st',
              0 <= occurrences' <= occurrenceIndex ->
              Mem.scan ctx sequence occurrenceIndex count (offset + 1) occurrences' bs st'
              = match filter (fun o => spec_is_match ctx sequence o = true)
                        (seqZ (offset + 1) (Z.of_nat count))
                      !! Z.to_nat (occurrenceIndex - occurrences') with
                | Some o =>
                    (Mem.record_reads st'
                       ((fun a => (a, length sequence))
                          <$> seqZ (offset + 1) (o - (offset + 1) + 1)),
                     Ok (Some (UnsignedInteger o)))
                | None =>
                    (Mem.record_reads st'
                       ((fun a => (a, length sequence))
                          <$> seqZ (offset + 1) (Z.of_nat count)),
                     Ok (Some (SignedInteger (-1))))
                end).
    { intros occurrences' st' Hocc'. apply IH; try assumption.
      intros o Ho. apply Hhost. lia. }
    assert (Hlater : forall k o,
              filter (fun o => spec_is_match ctx sequence o = true)
                (seqZ (offset + 1) (Z.of_nat count)) !! k = Some o ->
              (offset, length sequence)
                :: ((fun a => (a, length sequence)) <$> seqZ (offset + 1) (o - (offset + 1) + 1))
              = (fun a => (a, length sequence)) <$> seqZ offset (o - offset + 1)).
    { intros k o Hk.
      apply list_elem_of_lookup_2, list_elem_of_filter in Hk as [_ Hin].
      apply elem_of_seqZ in Hin.
      replace (o - offset + 1) with (Z.succ (o - offset)) by lia.
      rewrite (seqZ_cons offset) by lia. rewrite Z.pred_succ, fmap_cons.
      do 3 f_equal; lia. }
    assert (Hmatch : spec_is_match ctx sequence offset = bool_decide (bs = sequence)).
    { unfold spec_is_match. rewrite Hread. reflexivity. }
    destruct (bool_decide (bs = sequence)) eqn:Hdecide.
    + rewrite filter_cons_True by exact Hmatch.
      destruct (Z.ltb_spec occurrences occurrenceIndex) as [Hlt | Hge].
      * replace (u32 (occurrences + 1)) with (occurrences + 1)
          by (unfold u32; rewrite Z.mod_small; lia).
        rewrite Hnext by lia.
        replace (Z.to_nat (occurrenceIndex - occurrences))
          with (S (Z.to_nat (occurrenceIndex - (occurrences + 1)))) by lia.
        cbn [lookup list_lookup].
        destruct (filter _ _ !! _) as [o |] eqn:Hlookup.
        -- rewrite record_reads_app. cbn [app].
           rewrite (Hlater _ _ Hlookup). reflexivity.
        -- rewrite record_reads_app. cbn [app]. rewrite fmap_cons. reflexivity.
      * replace (Z.to_nat (occurrenceIndex - occurrences)) with 0%nat by lia.
        cbn [lookup list_lookup].
        replace (offset - offset + 1) with 1 by lia.
        reflexivity.
    + rewrite filter_cons_False by (rewrite Hmatch; discriminate).
      rewrite Hnext by lia.
      destruct (filter _ _ !! _) as [o |] eqn:Hlookup.
      * rewrite record_reads_app. cbn [app].
        rewrite (Hlater _ _ Hlookup). reflexivity.
      * rewrite record_reads_app. cbn [app]. rewrite fmap_cons. reflexivity.
Qed.

(** With an occurrence index of 2^32 or more, the [u32] counter stays below
    it and the loop runs to its end. *)
Lemma scan_counter_below_index (ctx : Evaluator) (sequence : list byte)
    (occurrenceIndex : Z) (count : nat) (offset occurrences : Z) (bytes : list byte)
    (st : State) :
  length bytes = length sequence ->
  (forall o, offset <= o < offset + Z.of_nat count ->
     exists bs, readData ctx o (length sequence) = Ok bs
                /\ length bs = length sequence) ->
  0 <= occurrences < 2 ^ 32 ->
  2 ^ 32 <= occurrenceIndex ->
  Mem.scan ctx sequence occurrenceIndex count offset occurrences bytes st
  = (Mem.record_reads st
       ((fun a => (a, length sequence)) <$> seqZ offset (Z.of_nat count)),
     Ok (Some (SignedInteger (-1)))).
Proof.
  revert offset occurrences bytes st.
  induction count as [| count IH]; intros offset occurrences bytes st Hlen Hhost Hocc Hidx.
  - cbn [Mem.scan]. change (Z.of_nat 0) with 0. rewrite seqZ_nil by lia.
    rewrite fmap_nil, record_reads_nil. reflexivity.
  - rewrite scan_S.
    destruct (Hhost offset ltac:(lia)) as (bs & Hread & Hbs).
    rewrite Hlen, Hread. cbv zeta.
    replace (Mem.overwrite (take (length sequence) bs) bytes) with bs
      by (rewrite <- Hlen; symmetry; apply overwrite_full; congruence).
    replace (Z.of_nat (S count)) with (Z.succ (Z.of_nat count)) by lia.
    rewrite (seqZ_cons offset) by lia. rewrite Z.pred_succ, fmap_cons.
    replace (Z.succ offset) with (offset + 1) by lia.
    destruct (Z.ltb_spec occurrences occurrenceIndex) as [_ | Hge]; [| lia].
    assert (Hwrapped : 0 <= u32 (occurrences + 1) < 2 ^ 32) by apply u32_range.
    destruct (bool_decide (bs = sequence));
      rewrite IH by (try assumption; try lia; intros o Ho; apply Hhost; lia);
      rewrite record_reads_app; reflexivity.
Qed.

Lemma collect_sequence_bytes (i : Z) (sequence : list byte) (st : State) :
  Mem.collect_sequence i (map (fun b => UnsignedInteger (byte.unsigned b)) sequence) st
  = (st, Ok sequence).
Proof.
  revert i. induction sequence as [| b sequence IH]; intros i; [reflexivity |].
  cbn [map Mem.collect_sequence]. unfold bind, lift. cbn [literalToUnsigned].
  pose proof (byte.unsigned_range b) as Hb.
  rewrite u128_small by lia.
  destruct (Z.ltb_spec 255 (byte.unsigned b)) as [Hbig | _]; [lia |].
  rewrite IH. unfold ret.
  replace (Z.land (byte.unsigned b) 255) with (byte.unsigned b).
  - rewrite byte.of_Z_unsigned. reflexivity.
  - change 255 with (Z.ones 8). rewrite Z.land_ones by lia.
    symmetry. apply Z.mod_small. lia.
Qed.

(** The call, once its arguments are coerced, is the scanning loop. *)
Lemma find_unfold (ctx : Evaluator) (occurrenceIndex offsetFrom offsetTo : Z)
    (sequence : list byte) (st : State) :
  Mem.find_sequence_in_range ctx
    (search_params occurrenceIndex offsetFrom offsetTo sequence) st
  = Mem.scan ctx sequence (u128 occurrenceIndex)
      (Z.to_nat
         (u64 ((if u128 offsetTo <=? u128 offsetFrom then u64 (getDataSize ctx)
                else Z.min (u64 (getDataSize ctx)) (u64 (u128 offsetTo)))
               - Z.of_nat (length sequence))
          - u64 (u128 offsetFrom)))
      (u64 (u128 offsetFrom)) 0 (repeat Byte.x00 (length sequence)) st.
Proof.
  unfold Mem.find_sequence_in_range, search_params, bind, param, lift, ret.
  cbn [nth_error literalToUnsigned drop].
  cbv beta iota. rewrite drop_0.
  rewrite collect_sequence_bytes. reflexivity.
Qed.

Lemma seqZ_to_nat (m len : Z) : seqZ m (Z.of_nat (Z.to_nat len)) = seqZ m len.
Proof. unfold seqZ. rewrite Nat2Z.id. reflexivity. Qed.

Lemma spec_endOffset_le (dataSize offsetFrom offsetTo : Z) :
  spec_endOffset dataSize offsetFrom offsetTo <= dataSize.
Proof. unfold spec_endOffset. destruct (offsetTo <=? offsetFrom); lia. Qed.

(** An occurrence index that does not fit the 32-bit match counter is never
    reached: the call reads every candidate and returns -1. *)
Lemma large_index_returns_sentinel (ctx : Evaluator)
    (occurrenceIndex offsetFrom offsetTo : Z) (sequence : list byte) (st : State) :
  serves_reads ctx ->
  0 <= getDataSize ctx < 2 ^ 64 ->
  0 <= offsetFrom < 2 ^ 64 ->
  0 <= offsetTo < 2 ^ 64 ->
  2 ^ 32 <= occurrenceIndex < 2 ^ 128 ->
  Z.of_nat (length sequence) <= spec_endOffset (getDataSize ctx) offsetFrom offsetTo ->
  Mem.find_sequence_in_range ctx
    (search_params occurrenceIndex offsetFrom offsetTo sequence) st
  = (Mem.record_reads st
       ((fun o => (o, length sequence))
          <$> spec_candidates (getDataSize ctx) offsetFrom offsetTo (length sequence)),
     Ok (Some (SignedInteger (-1)))).
Proof.
  intros Hhost Hsize Hfrom Hto Hocc Hfits.
  rewrite find_unfold.
  rewrite (u128_small occurrenceIndex), (u128_small offsetFrom),
    (u128_small offsetTo) by lia.
  rewrite (u64_small (getDataSize ctx)), (u64_small offsetFrom),
    (u64_small offsetTo) by lia.
  fold (spec_endOffset (getDataSize ctx) offsetFrom offsetTo) in *.
  pose proof (spec_endOffset_le (getDataSize ctx) offsetFrom offsetTo) as Hle.
  unfold spec_candidates.
  set (endOffset := spec_endOffset (getDataSize ctx) offsetFrom offsetTo) in *.
  rewrite (u64_small (endOffset - _)) by lia.
  rewrite scan_counter_below_index.
  - rewrite seqZ_to_nat. reflexivity.
  - apply repeat_length.
  - intros o Ho. apply Hhost; lia.
  - lia.
  - lia.
Qed.

(** C4, amended: when the data size and the two offsets fit in 64 bits,
    the host serves the reads inside the data and the effective end offset
    (the data size when [offsetTo <= offsetFrom], the smaller of data size
    and [offsetTo] otherwise) is not below the length of the sequence, the
    call reads the candidates from [offsetFrom] up to end offset minus
    sequence length (exclusive) from left to right, each with the length of
    the sequence; for an occurrence index that fits in 32 bits it stops at
    the match whose 0-based ordinal is the occurrence index and returns its
    offset, and it returns -1 after the last candidate when there are fewer
    matches. *)
Theorem find_sequence_in_range_scans (ctx : Evaluator)
    (occurrenceIndex offsetFrom offsetTo : Z) (sequence : list byte) (st : State) :
  serves_reads ctx ->
  0 <= getDataSize ctx < 2 ^ 64 ->
  0 <= offsetFrom < 2 ^ 64 ->
  0 <= offsetTo < 2 ^ 64 ->
  0 <= occurrenceIndex < 2 ^ 128 ->
  occurrenceIndex < 2 ^ 32
  \/ (length (spec_matches ctx offsetFrom offsetTo sequence)
        <= Z.to_nat occurrenceIndex)%nat ->
  Z.of_nat (length sequence) <= spec_endOffset (getDataSize ctx) offsetFrom offsetTo ->
  Mem.find_sequence_in_range ctx
    (search_params occurrenceIndex offsetFrom offsetTo sequence) st
  = (Mem.record_reads st
       ((fun o => (o, length sequence))
          <$> spec_visited ctx occurrenceIndex offsetFrom offsetTo sequence),
     Ok (Some (spec_find_sequence_in_range ctx occurrenceIndex offsetFrom offsetTo
                 sequence))).
Proof.
  intros Hhost Hsize Hfrom Hto Hocc Hindex Hfits.
  destruct (Z_lt_dec occurrenceIndex (2 ^ 32)) as [Hsmall | Hlarge].
  - rewrite find_unfold.
    rewrite (u128_small occurrenceIndex), (u128_small offsetFrom),
      (u128_small offsetTo) by lia.
    rewrite (u64_small (getDataSize ctx)), (u64_small offsetFrom),
      (u64_small offsetTo) by lia.
    fold (spec_endOffset (getDataSize ctx) offsetFrom offsetTo) in *.
    pose proof (spec_endOffset_le (getDataSize ctx) offsetFrom offsetTo) as Hle.
    set (endOffset := spec_endOffset (getDataSize ctx) offsetFrom offsetTo) in *.
    rewrite (u64_small (endOffset - _)) by lia.
    rewrite scan_finds.
    + rewrite seqZ_to_nat, Z.sub_0_r.
      unfold spec_find_sequence_in_range, spec_visited, spec_matches, spec_candidates.
      fold endOffset.
      destruct (filter _ _ !! _); reflexivity.
    + apply repeat_length.
    + intros o Ho. apply Hhost; lia.
    + lia.
    + lia.
  - destruct Hindex as [Hsmall | Hfew]; [lia |].
    rewrite large_index_returns_sentinel by (try assumption; lia).
    unfold spec_find_sequence_in_range, spec_visited.
    rewrite (lookup_ge_None_2 _ _ Hfew). reflexivity.
Qed.

End SearchProperties.

Lemma bufferEvaluator_serves (data : list byte) : serves_reads (bufferEvaluator data).
Proof.
  intros address size Hnn Hin. simpl in *.
  destruct (Z.leb_spec 0 address); [| lia].
  destruct (Z.leb_spec (address + Z.of_nat size) (Z.of_nat (length data))); [| lia].
  eexists. split; [reflexivity |].
  rewrite length_take, length_drop. lia.
Qed.

Lemma find_sequence_in_range_scans_witness :
  @Mem.find_sequence_in_range memoryFiles
    (bufferEvaluator [Byte.x00; Byte.x00; Byte.x00; Byte.x00;
                      Byte.xaa; Byte.xbb; Byte.x00; Byte.x00])
    (search_params 0 0 0 [Byte.xaa; Byte.xbb]) (FileNs.initial ∅)
  = (Mem.record_reads (FileNs.initial ∅)
       [(0, 2%nat); (1, 2%nat); (2, 2%nat); (3, 2%nat); (4, 2%nat)],
     Ok (Some (UnsignedInteger 4)))
  /\ @Mem.find_sequence_in_range memoryFiles
       (bufferEvaluator [Byte.x00; Byte.x00; Byte.x00; Byte.x00;
                         Byte.xaa; Byte.xbb; Byte.x00; Byte.x00])
       (search_params 1 0 0 [Byte.xaa; Byte.xbb]) (FileNs.initial ∅)
     = (Mem.record_reads (FileNs.initial ∅)
          [(0, 2%nat); (1, 2%nat); (2, 2%nat); (3, 2%nat); (4, 2%nat); (5, 2%nat)],
        Ok (Some (SignedInteger (-1)))).
Proof.
  split.
  - apply (@find_sequence_in_range_scans memoryFiles
             (bufferEvaluator [Byte.x00; Byte.x00; Byte.x00; Byte.x00;
                               Byte.xaa; Byte.xbb; Byte.x00; Byte.x00])
             0 0 0 [Byte.xaa; Byte.xbb] (FileNs.initial ∅));
      [apply bufferEvaluator_serves | simpl; lia | lia | lia | lia | left; lia
      | vm_compute; discriminate].
  - apply (@find_sequence_in_range_scans memoryFiles
             (bufferEvaluator [Byte.x00; Byte.x00; Byte.x00; Byte.x00;
                               Byte.xaa; Byte.xbb; Byte.x00; Byte.x00])
             1 0 0 [Byte.xaa; Byte.xbb] (FileNs.initial ∅));
      [apply bufferEvaluator_serves | simpl; lia | lia | lia | lia | left; lia
      | vm_compute; discriminate].
Defined.

(** The bound of the scan is exclusive: a sequence that ends with the data
    starts at end offset minus sequence length and is not a candidate. *)
Lemma sequence_at_end_of_data_is_missed :
  @Mem.find_sequence_in_range memoryFiles
    (bufferEvaluator [Byte.x00; Byte.x00; Byte.x00; Byte.x00; Byte.xaa; Byte.xbb])
    (search_params 0 0 0 [Byte.xaa; Byte.xbb]) (FileNs.initial ∅)
  = (Mem.record_reads (FileNs.initial ∅)
       [(0, 2%nat); (1, 2%nat); (2, 2%nat); (3, 2%nat)],
     Ok (Some (SignedInteger (-1)))).
Proof. vm_compute. reflexivity. Qed.

(** C4 as stated fails: [offsetTo] is narrowed to 64 bits before it is
    compared with the data size.  With [offsetTo = 2^64 + 3] the scan ends
    at offset 3 and misses the sequence at offset 4, which lies below
    min(dataSize, offsetTo) - sequenceLength = 6. *)
Lemma find_sequence_offsetTo_narrowed :
  snd (@Mem.find_sequence_in_range memoryFiles
         (bufferEvaluator [Byte.x00; Byte.x00; Byte.x00; Byte.x00;
                           Byte.xaa; Byte.xbb; Byte.x00; Byte.x00])
         (search_params 0 0 (2 ^ 64 + 3) [Byte.xaa; Byte.xbb]) (FileNs.initial ∅))
  = Ok (Some (SignedInteger (-1)))
  /\ spec_find_sequence_in_range
       (bufferEvaluator [Byte.x00; Byte.x00; Byte.x00; Byte.x00;
                         Byte.xaa; Byte.xbb; Byte.x00; Byte.x00])
       0 0 (2 ^ 64 + 3) [Byte.xaa; Byte.xbb]
     = UnsignedInteger 4.
Proof. split; vm_compute; reflexivity. Qed.


(** ** std::mem: a range shorter than the sequence *)

Section ShortRange.
Context `{FileApi}.

(** When the effective end offset is below the length of the sequence, the
    bound [endOffset - sequence.size()] of the loop wraps around in [u64]
    and lies far above the start offset: the loop is entered and the host
    is asked for the bytes at the start offset. *)
Lemma short_range_enters_loop (ctx : Evaluator)
    (occurrenceIndex offsetFrom offsetTo : Z) (sequence : list byte) (st : State) :
  0 <= getDataSize ctx < 2 ^ 64 ->
  0 <= offsetFrom < 2 ^ 64 ->
  0 <= offsetTo < 2 ^ 64 ->
  spec_endOffset (getDataSize ctx) offsetFrom offsetTo < Z.of_nat (length sequence) ->
  Z.of_nat (length sequence) < 2 ^ 64 ->
  offsetFrom
    < 2 ^ 64 + spec_endOffset (getDataSize ctx) offsetFrom offsetTo
      - Z.of_nat (length sequence) ->
  exists count,
    Mem.find_sequence_in_range ctx
      (search_params occurrenceIndex offsetFrom offsetTo sequence) st
    = Mem.scan ctx sequence (u128 occurrenceIndex) (S count) offsetFrom 0
        (repeat Byte.x00 (length sequence)) st
    /\ Z.of_nat (S count)
       = 2 ^ 64 + spec_endOffset (getDataSize ctx) offsetFrom offsetTo
         - Z.of_nat (length sequence) - offsetFrom.
Proof.
  intros Hsize Hfrom Hto Hshort Hlen Hbelow.
  rewrite find_unfold.
  rewrite (u128_small offsetFrom), (u128_small offsetTo) by lia.
  rewrite (u64_small (getDataSize ctx)), (u64_small offsetFrom),
    (u64_small offsetTo) by lia.
  fold (spec_endOffset (getDataSize ctx) offsetFrom offsetTo) in *.
  set (endOffset := spec_endOffset (getDataSize ctx) offsetFrom offsetTo) in *.
  assert (Hend : 0 <= endOffset).
  { unfold endOffset, spec_endOffset. destruct (offsetTo <=? offsetFrom); lia. }
  assert (Hwrap : u64 (endOffset - Z.of_nat (length sequence))
                  = 2 ^ 64 + endOffset - Z.of_nat (length sequence)).
  { unfold u64.
    replace (endOffset - Z.of_nat (length sequence))
      with (2 ^ 64 + endOffset - Z.of_nat (length sequence) + (-1) * 2 ^ 64) by lia.
    rewrite Z.mod_add by lia. apply Z.mod_small. lia. }
  rewrite Hwrap.
  destruct (Z.to_nat (2 ^ 64 + endOffset - Z.of_nat (length sequence) - offsetFrom))
    as [| count] eqn:Hcount; [lia |].
  exists count. split; [reflexivity | lia].
Qed.

(** The loop only adds to the record of reads. *)
Lemma scan_reads_extend (ctx : Evaluator) (sequence : list byte) (occurrenceIndex : Z)
    (count : nat) (offset occurrences : Z) (bytes : list byte) (st : State) :
  exists reads,
    memoryReads (fst (Mem.scan ctx sequence occurrenceIndex count offset occurrences
                        bytes st))
    = memoryReads st ++ reads.
Proof.
  revert offset occurrences bytes st.
  induction count as [| count IH]; intros offset occurrences bytes st.
  - exists []. simpl. rewrite app_nil_r. reflexivity.
  - rewrite scan_S.
    destruct (readData ctx offset (length bytes)) as [written | msg |];
      [| eexists; reflexivity | eexists; reflexivity].
    cbv zeta.
    destruct (bool_decide _); [destruct (occurrences <? occurrenceIndex) |];
      try (eexists; reflexivity);
      match goal with
      | |- context [Mem.scan ctx sequence occurrenceIndex count ?o ?k ?b ?s] =>
          destruct (IH o k b s) as [reads ->]
      end;
      simpl; rewrite <- app_assoc; eexists; reflexivity.
Qed.

(** In a range shorter than the sequence a memory read is performed, whatever
    the host answers. *)
Lemma short_range_reads_memory (ctx : Evaluator)
    (occurrenceIndex offsetFrom offsetTo : Z) (sequence : list byte) (st : State) :
  0 <= getDataSize ctx < 2 ^ 64 ->
  0 <= offsetFrom < 2 ^ 64 ->
  0 <= offsetTo < 2 ^ 64 ->
  spec_endOffset (getDataSize ctx) offsetFrom offsetTo < Z.of_nat (length sequence) ->
  Z.of_nat (length sequence) < 2 ^ 64 ->
  offsetFrom
    < 2 ^ 64 + spec_endOffset (getDataSize ctx) offsetFrom offsetTo
      - Z.of_nat (length sequence) ->
  exists reads,
    memoryReads (fst (Mem.find_sequence_in_range ctx
                        (search_params occurrenceIndex offsetFrom offsetTo sequence) st))
    = memoryReads st ++ (offsetFrom, length sequence) :: reads.
Proof.
  intros Hsize Hfrom Hto Hshort Hlen Hbelow.
  destruct (short_range_enters_loop ctx occurrenceIndex offsetFrom offsetTo sequence st
              Hsize Hfrom Hto Hshort Hlen Hbelow) as (count & -> & _).
  rewrite scan_S, repeat_length.
  destruct (readData ctx offsetFrom (length sequence)) as [written | msg |];
    [| exists []; reflexivity | exists []; reflexivity].
  cbv zeta.
  destruct (bool_decide _); [destruct (0 <? u128 occurrenceIndex) |];
    try (exists []; reflexivity);
    match goal with
    | |- context [Mem.scan ctx sequence ?i count ?o ?k ?b ?s] =>
        destruct (scan_reads_extend ctx sequence i count o k b s) as [reads ->]
    end;
    exists reads; simpl; rewrite <- app_assoc; reflexivity.
Qed.

(** C1: over a 4-byte buffer with a 6-byte target sequence and both offsets
    0, the scan is not empty: the call asks the host for 6 bytes at offset
    0.  On a host that signals reads leaving the data the call aborts; on a
    host that hands back the bytes there are, a target of six zero bytes is
    found at offset 0.  Neither call returns -1. *)
Theorem find_sequence_short_buffer_reads (st : State) :
  Mem.find_sequence_in_range
    (bufferEvaluator [Byte.x01; Byte.x02; Byte.x03; Byte.x04])
    (search_params 0 0 0 [Byte.x01; Byte.x02; Byte.x03; Byte.x04; Byte.x05; Byte.x06])
    st
  = (Mem.record_reads st [(0, 6%nat)], Abort "read out of bounds")
  /\ Mem.find_sequence_in_range
       (truncatingEvaluator [Byte.x00; Byte.x00; Byte.x00; Byte.x00])
       (search_params 0 0 0
          [Byte.x00; Byte.x00; Byte.x00; Byte.x00; Byte.x00; Byte.x00])
       st
     = (Mem.record_reads st [(0, 6%nat)], Ok (Some (UnsignedInteger 0))).
Proof.
  split.
  - destruct (short_range_enters_loop
                (bufferEvaluator [Byte.x01; Byte.x02; Byte.x03; Byte.x04])
                0 0 0 [Byte.x01; Byte.x02; Byte.x03; Byte.x04; Byte.x05; Byte.x06] st)
      as (count & -> & _); [simpl; lia | lia | lia | vm_compute; reflexivity
                           | simpl; lia | vm_compute; reflexivity |].
    rewrite scan_S. reflexivity.
  - destruct (short_range_enters_loop
                (truncatingEvaluator [Byte.x00; Byte.x00; Byte.x00; Byte.x00])
                0 0 0 [Byte.x00; Byte.x00; Byte.x00; Byte.x00; Byte.x00; Byte.x00] st)
      as (count & -> & _); [simpl; lia | lia | lia | vm_compute; reflexivity
                           | simpl; lia | vm_compute; reflexivity |].
    rewrite scan_S. reflexivity.
Qed.

End ShortRange.

(** * Further properties *)

(** ** std::mem: what the functions do to the state *)

Section ReadsOnly.
Context `{FileApi}.

Lemma reads_only_ret {A : Type} (a : A) : reads_only (ret a).
Proof. intros st. exists []. symmetry. apply record_reads_nil. Qed.

Lemma reads_only_lift {A : Type} (r : Result A) : reads_only (lift r).
Proof. intros st. exists []. symmetry. apply record_reads_nil. Qed.

Lemma reads_only_abort {A : Type} (message : string) :
  reads_only (abortEvaluation (A := A) message).
Proof. intros st. exists []. symmetry. apply record_reads_nil. Qed.

Lemma reads_only_param (params : list Literal) (i : nat) : reads_only (param params i).
Proof.
  unfold param. destruct (nth_error params i);
    [apply reads_only_ret | apply reads_only_lift].
Qed.

Lemma reads_only_bind {A B : Type} (c : M A) (k : A -> M B) :
  reads_only c -> (forall a, reads_only (k a)) -> reads_only (bind c k).
Proof.
  intros Hc Hk st. unfold bind.
  destruct (Hc st) as [reads1 H1].
  destruct (c st) as [st1 [a | msg |]]; simpl in H1; subst st1;
    [| exists reads1; reflexivity | exists reads1; reflexivity].
  destruct (Hk a (Mem.record_reads st reads1)) as [reads2 H2].
  exists (reads1 ++ reads2). rewrite H2. apply record_reads_app.
Qed.

Lemma reads_only_readDataInto (ctx : Evaluator) (address : Z) (object : list byte)
    (size : nat) :
  reads_only (Mem.readDataInto ctx address object size).
Proof. intros st. eexists. reflexivity. Qed.

Lemma reads_only_collect_sequence (i : Z) (params : list Literal) :
  reads_only (Mem.collect_sequence i params).
Proof.
  revert i. induction params as [| p params IH]; intros i; cbn [Mem.collect_sequence];
    [apply reads_only_ret |].
  apply reads_only_bind; [apply reads_only_lift |]. intros byte.
  destruct (255 <? byte); [apply reads_only_abort |].
  apply reads_only_bind; [apply IH |]. intros sequence. apply reads_only_ret.
Qed.

Lemma reads_only_scan (ctx : Evaluator) (sequence : list byte) (occurrenceIndex : Z)
    (count : nat) (offset occurrences : Z) (bytes : list byte) :
  reads_only (Mem.scan ctx sequence occurrenceIndex count offset occurrences bytes).
Proof.
  revert offset occurrences bytes.
  induction count as [| count IH]; intros offset occurrences bytes; cbn [Mem.scan];
    [apply reads_only_ret |].
  apply reads_only_bind; [apply reads_only_readDataInto |]. intros bytes'.
  destruct (bool_decide _); [destruct (occurrences <? occurrenceIndex) |];
    first [apply IH | apply reads_only_ret].
Qed.

(** X1: the functions of the memory namespace are read-only: for every
    argument list and every host, [base_address], [size],
    [find_sequence_in_range], [read_unsigned] and [read_signed] leave the
    console, the file counter, the file table and the file system as they
    were, whether they return or abort; all they add is the record of the
    reads they issued. *)
Theorem memory_functions_only_read (ctx : Evaluator) (params : list Literal)
    (uninitialized : Z) :
  reads_only (Mem.base_address ctx params)
  /\ reads_only (Mem.size ctx params)
  /\ reads_only (Mem.find_sequence_in_range ctx params)
  /\ reads_only (Mem.read_unsigned ctx params)
  /\ reads_only (Mem.read_signed uninitialized ctx params).
Proof.
  split; [apply reads_only_ret |].
  split; [apply reads_only_ret |].
  split; [| split].
  - unfold Mem.find_sequence_in_range.
    repeat (apply reads_only_bind;
            [first [apply reads_only_param | apply reads_only_lift
                   | apply reads_only_collect_sequence] | intros ?]).
    apply reads_only_scan.
  - unfold Mem.read_unsigned.
    repeat (apply reads_only_bind;
            [first [apply reads_only_param | apply reads_only_lift] | intros ?]).
    destruct (16 <? _); [apply reads_only_abort |].
    apply reads_only_bind; [apply reads_only_readDataInto |]. intros ?.
    apply reads_only_ret.
  - unfold Mem.read_signed.
    repeat (apply reads_only_bind;
            [first [apply reads_only_param | apply reads_only_lift] | intros ?]).
    destruct (16 <? _); [apply reads_only_abort |].
    apply reads_only_bind; [apply reads_only_readDataInto |]. intros ?.
    apply reads_only_ret.
Qed.

End ReadsOnly.

(** ** std::mem: more on the search *)

Section SearchMore.
Context `{FileApi}.

Lemma overwrite_length (written buffer : list byte) :
  length (Mem.overwrite written buffer) = length buffer.
Proof.
  unfold Mem.overwrite.
  rewrite length_take, length_app, length_drop. lia.
Qed.

(** Every read of the loop lies in its window and has the length of the
    buffer, whatever the host answers. *)
Lemma scan_reads_window (ctx : Evaluator) (sequence : list byte) (occurrenceIndex : Z)
    (count : nat) (offset occurrences : Z) (bytes : list byte) (st : State) :
  exists reads,
    fst (Mem.scan ctx sequence occurrenceIndex count offset occurrences bytes st)
    = Mem.record_reads st reads
    /\ Forall (fun r => offset <= fst r < offset + Z.of_nat count
                        /\ snd r = length bytes) reads.
Proof.
  revert offset occurrences bytes st.
  induction count as [| count IH]; intros offset occurrences bytes st.
  - exists []. split; [symmetry; apply record_reads_nil | constructor].
  - rewrite scan_S.
    assert (Hhere : offset <= fst (offset, length bytes) < offset + Z.of_nat (S count)
                    /\ snd (offset, length bytes) = length bytes)
      by (simpl; split; [lia | reflexivity]).
    assert (Hnext : forall occurrences' bytes',
              length bytes' = length bytes ->
              exists reads,
                fst (Mem.scan ctx sequence occurrenceIndex count (offset + 1)
                       occurrences' bytes'
                       (Mem.record_reads st [(offset, length bytes)]))
                = Mem.record_reads st reads
                /\ Forall (fun r => offset <= fst r < offset + Z.of_nat (S count)
                                    /\ snd r = length bytes) reads).
    { intros occurrences' bytes' Hlen.
      destruct (IH (offset + 1) occurrences' bytes'
                  (Mem.record_reads st [(offset, length bytes)])) as (reads & -> & Hall).
      exists ((offset, length bytes) :: reads). split; [apply record_reads_app |].
      constructor; [exact Hhere |].
      eapply Forall_impl; [exact Hall |].
      intros r [Hr Hn]. split; [lia | congruence]. }
    destruct (readData ctx offset (length bytes)) as [written | msg |];
      [| exists [(offset, length bytes)]; split; [reflexivity | constructor; [exact Hhere | constructor]]
       | exists [(offset, length bytes)]; split; [reflexivity | constructor; [exact Hhere | constructor]]].
    cbv zeta.
    destruct (bool_decide _); [destruct (occurrences <? occurrenceIndex) |];
      try (apply Hnext; apply overwrite_length).
    exists [(offset, length bytes)].
    split; [reflexivity | constructor; [exact Hhere | constructor]].
Qed.

(** X2: when the effective end offset is not below the length of the
    sequence (and data size and offsets fit in 64 bits), every read the
    search issues asks for exactly as many bytes as the sequence has, starts
    at or after [offsetFrom] and ends before the effective end offset, hence
    inside the data; this holds for every host and also when the call
    aborts. *)
Theorem find_sequence_reads_in_bounds (ctx : Evaluator)
    (occurrenceIndex offsetFrom offsetTo : Z) (sequence : list byte) (st : State) :
  0 <= getDataSize ctx < 2 ^ 64 ->
  0 <= offsetFrom < 2 ^ 64 ->
  0 <= offsetTo < 2 ^ 64 ->
  Z.of_nat (length sequence) <= spec_endOffset (getDataSize ctx) offsetFrom offsetTo ->
  exists reads,
    fst (Mem.find_sequence_in_range ctx
           (search_params occurrenceIndex offsetFrom offsetTo sequence) st)
    = Mem.record_reads st reads
    /\ Forall (fun r =>
                 snd r = length sequence
                 /\ offsetFrom <= fst r
                 /\ fst r + Z.of_nat (snd r)
                    < spec_endOffset (getDataSize ctx) offsetFrom offsetTo
                 /\ fst r + Z.of_nat (snd r) < getDataSize ctx) reads.
Proof.
  intros Hsize Hfrom Hto Hfits.
  rewrite find_unfold.
  rewrite (u128_small offsetFrom), (u128_small offsetTo) by lia.
  rewrite (u64_small (getDataSize ctx)), (u64_small offsetFrom),
    (u64_small offsetTo) by lia.
  fold (spec_endOffset (getDataSize ctx) offsetFrom offsetTo) in *.
  pose proof (spec_endOffset_le (getDataSize ctx) offsetFrom offsetTo) as Hle.
  set (endOffset := spec_endOffset (getDataSize ctx) offsetFrom offsetTo) in *.
  rewrite (u64_small (endOffset - _)) by lia.
  destruct (scan_reads_window ctx sequence (u128 occurrenceIndex)
              (Z.to_nat (endOffset - Z.of_nat (length sequence) - offsetFrom))
              offsetFrom 0 (repeat Byte.x00 (length sequence)) st)
    as (reads & Hst & Hall).
  exists reads. split; [exact Hst |].
  eapply Forall_impl; [exact Hall |].
  intros [a n] [Ha Hn]. simpl in *. rewrite repeat_length in Hn. subst n.
  repeat split; lia.
Qed.

(** With a host whose reads are exact, the loop returns only the sentinel
    or an offset of its window at which the host holds the sequence. *)
Lemma scan_result_is_match (ctx : Evaluator) (sequence : list byte)
    (occurrenceIndex : Z) (count : nat) (offset occurrences : Z) (bytes : list byte)
    (st : State) (lit : option Literal) :
  exact_reads ctx ->
  length bytes = length sequence ->
  snd (Mem.scan ctx sequence occurrenceIndex count offset occurrences bytes st) = Ok lit ->
  lit = Some (SignedInteger (-1))
  \/ exists o, lit = Some (UnsignedInteger o)
               /\ offset <= o < offset + Z.of_nat count
               /\ readData ctx o (length sequence) = Ok sequence.
Proof.
  intros Hexact. revert offset occurrences bytes st.
  induction count as [| count IH]; intros offset occurrences bytes st Hlen Hresult.
  - simpl in Hresult. injection Hresult as <-. left. reflexivity.
  - rewrite scan_S in Hresult.
    destruct (readData ctx offset (length bytes)) as [written | msg |] eqn:Hread;
      [| discriminate | discriminate].
    cbv zeta in Hresult.
    pose proof (Hexact _ _ _ Hread) as Hwritten.
    rewrite overwrite_full in Hresult by exact Hwritten.
    assert (Hnext : forall occurrences' st',
              snd (Mem.scan ctx sequence occurrenceIndex count (offset + 1)
                     occurrences' written st') = Ok lit ->
              lit = Some (SignedInteger (-1))
              \/ exists o, lit = Some (UnsignedInteger o)
                           /\ offset <= o < offset + Z.of_nat (S count)
                           /\ readData ctx o (length sequence) = Ok sequence).
    { intros occurrences' st' Hrec.
      assert (Hlen' : length written = length sequence) by congruence.
      destruct (IH (offset + 1) occurrences' written st' Hlen' Hrec)
        as [-> | (o & -> & Ho & Hmatch)];
        [left; reflexivity | right].
      exists o. repeat split; [lia | lia | exact Hmatch]. }
    destruct (bool_decide_reflect (written = sequence)) as [-> | Hne];
      [| eapply Hnext; exact Hresult].
    destruct (occurrences <? occurrenceIndex); [eapply Hnext; exact Hresult |].
    simpl in Hresult. injection Hresult as <-. right.
    exists offset. repeat split; [lia | lia |].
    rewrite <- Hlen. exact Hread.
Qed.

(** X3: on a host whose reads are exact, a search that returns gives either
    the signed sentinel -1 or an UnsignedInteger offset below 2^64 and not
    below the start offset (narrowed to 64 bits) at which the host really
    holds the sequence; this needs no assumption on the offsets or on the
    size of the data. *)
Theorem find_sequence_returns_a_match (ctx : Evaluator)
    (occurrenceIndex offsetFrom offsetTo : Z) (sequence : list byte) (st : State)
    (lit : option Literal) :
  exact_reads ctx ->
  snd (Mem.find_sequence_in_range ctx
         (search_params occurrenceIndex offsetFrom offsetTo sequence) st) = Ok lit ->
  lit = Some (SignedInteger (-1))
  \/ exists o, lit = Some (UnsignedInteger o)
               /\ u64 (u128 offsetFrom) <= o < 2 ^ 64
               /\ readData ctx o (length sequence) = Ok sequence.
Proof.
  intros Hexact Hresult.
  rewrite find_unfold in Hresult.
  apply scan_result_is_match in Hresult; [| exact Hexact | apply repeat_length].
  destruct Hresult as [-> | (o & -> & Ho & Hmatch)]; [left; reflexivity | right].
  exists o. split; [reflexivity |]. split; [| exact Hmatch].
  assert (0 <= u64 (u128 offsetFrom) < 2 ^ 64) by (apply Z.mod_pos_bound; lia).
  match type of Ho with
  | _ <= _ < _ + Z.of_nat (Z.to_nat (u64 ?x - _)) =>
      assert (0 <= u64 x < 2 ^ 64) by (apply Z.mod_pos_bound; lia)
  end.
  lia.
Qed.

End SearchMore.

Lemma bufferEvaluator_exact (data : list byte) : exact_reads (bufferEvaluator data).
Proof.
  intros address size bs. simpl.
  destruct (Z.leb_spec 0 address); simpl; [| discriminate].
  destruct (Z.leb_spec (address + Z.of_nat size) (Z.of_nat (length data)));
    [| discriminate].
  intros Hread. injection Hread as <-.
  rewrite length_take, length_drop. lia.
Qed.

Lemma find_sequence_reads_in_bounds_witness :
  exists reads,
    fst (@Mem.find_sequence_in_range memoryFiles
           (bufferEvaluator [Byte.x00; Byte.xaa; Byte.xbb; Byte.x00; Byte.xaa; Byte.xbb;
                             Byte.x00; Byte.x00])
           (search_params 1 1 7 [Byte.xaa; Byte.xbb]) (FileNs.initial ∅))
    = Mem.record_reads (FileNs.initial ∅) reads
    /\ Forall (fun r => snd r = 2%nat /\ 1 <= fst r
                        /\ fst r + Z.of_nat (snd r) < 7
                        /\ fst r + Z.of_nat (snd r) < 8) reads.
Proof.
  apply (@find_sequence_reads_in_bounds memoryFiles
           (bufferEvaluator [Byte.x00; Byte.xaa; Byte.xbb; Byte.x00; Byte.xaa; Byte.xbb;
                             Byte.x00; Byte.x00])
           1 1 7 [Byte.xaa; Byte.xbb] (FileNs.initial ∅));
    [simpl; lia | lia | lia | vm_compute; discriminate].
Defined.

Lemma find_sequence_returns_a_match_witness :
  Some (UnsignedInteger 4) = Some (SignedInteger (-1))
  \/ exists o, Some (UnsignedInteger 4) = Some (UnsignedInteger o)
               /\ u64 (u128 1) <= o < 2 ^ 64
               /\ readData (bufferEvaluator
                              [Byte.x00; Byte.xaa; Byte.xbb; Byte.x00; Byte.xaa; Byte.xbb;
                               Byte.x00; Byte.x00]) o 2
                  = Ok [Byte.xaa; Byte.xbb].
Proof.
  apply (@find_sequence_returns_a_match memoryFiles
           (bufferEvaluator [Byte.x00; Byte.xaa; Byte.xbb; Byte.x00; Byte.xaa; Byte.xbb;
                             Byte.x00; Byte.x00])
           1 1 0 [Byte.xaa; Byte.xbb] (FileNs.initial ∅));
    [apply bufferEvaluator_exact | vm_compute; reflexivity].
Defined.

Section SearchArguments.
Context `{FileApi}.

Lemma collect_sequence_rejects (i : Z) (good : list byte) (bad : Z)
    (rest : list Literal) (st : State) :
  255 < bad < 2 ^ 128 ->
  Mem.collect_sequence i
    (map (fun b => UnsignedInteger (byte.unsigned b)) good
       ++ UnsignedInteger bad :: rest) st
  = (st, Abort ("byte #" +:+ pretty (i + Z.of_nat (length good))
                  +:+ " value out of range: " +:+ pretty (u64 bad) +:+ " > 0xFF")).
Proof.
  intros Hbad. revert i. induction good as [| b good IH]; intros i.
  - cbn [map app Mem.collect_sequence length]. unfold bind, lift, abortEvaluation.
    cbn [literalToUnsigned]. rewrite u128_small by lia.
    destruct (Z.ltb_spec 255 bad) as [_ | Hsmall]; [| lia].
    change (Z.of_nat 0) with 0. rewrite Z.add_0_r. reflexivity.
  - cbn [map app Mem.collect_sequence]. unfold bind, lift.
    cbn [literalToUnsigned].
    pose proof (byte.unsigned_range b) as Hb.
    rewrite (u128_small (byte.unsigned b)) by lia.
    destruct (Z.ltb_spec 255 (byte.unsigned b)) as [Hbig | _]; [lia |].
    rewrite IH.
    replace (i + 1 + Z.of_nat (length good)) with (i + Z.of_nat (length (b :: good)))
      by (simpl length; lia).
    reflexivity.
Qed.

(** X4: a trailing argument above 0xFF aborts the search before any memory
    is read, with a message that names the index of the first such argument
    in the argument list (counted from 0, the bytes starting at index 3)
    and its value narrowed to 64 bits; the state is unchanged. *)
Theorem find_sequence_rejects_wide_byte (ctx : Evaluator)
    (occurrenceIndex offsetFrom offsetTo : Z) (good : list byte) (bad : Z)
    (rest : list Literal) (st : State) :
  255 < bad < 2 ^ 128 ->
  Mem.find_sequence_in_range ctx
    (UnsignedInteger occurrenceIndex :: UnsignedInteger offsetFrom
       :: UnsignedInteger offsetTo
       :: map (fun b => UnsignedInteger (byte.unsigned b)) good
       ++ UnsignedInteger bad :: rest) st
  = (st, Abort ("byte #" +:+ pretty (3 + Z.of_nat (length good))
                  +:+ " value out of range: " +:+ pretty (u64 bad) +:+ " > 0xFF")).
Proof.
  intros Hbad.
  unfold Mem.find_sequence_in_range, bind, param, lift, ret.
  cbn [nth_error literalToUnsigned drop]. cbv beta iota. rewrite drop_0.
  rewrite collect_sequence_rejects by exact Hbad. reflexivity.
Qed.

End SearchArguments.

Lemma find_sequence_rejects_wide_byte_witness :
  @Mem.find_sequence_in_range memoryFiles (bufferEvaluator [Byte.x00; Byte.x01])
    [UnsignedInteger 0; UnsignedInteger 0; UnsignedInteger 0;
     UnsignedInteger 170; UnsignedInteger 256; StringValue "never looked at"]
    (FileNs.initial ∅)
  = (FileNs.initial ∅, Abort "byte #4 value out of range: 256 > 0xFF").
Proof.
  apply (@find_sequence_rejects_wide_byte memoryFiles (bufferEvaluator [Byte.x00; Byte.x01])
           0 0 0 [Byte.xaa] 256 [StringValue "never looked at"] (FileNs.initial ∅)).
  lia.
Defined.

Section SearchOrder.
Context `{FileApi}.

(** Within the widths of the code, the result of the search is read off
    the list of matching candidates. *)
Lemma find_by_index (ctx : Evaluator) (occurrenceIndex offsetFrom offsetTo : Z)
    (sequence : list byte) (st : State) :
  serves_reads ctx ->
  0 <= getDataSize ctx < 2 ^ 64 ->
  0 <= offsetFrom < 2 ^ 64 ->
  0 <= offsetTo < 2 ^ 64 ->
  0 <= occurrenceIndex < 2 ^ 32 ->
  Z.of_nat (length sequence) <= spec_endOffset (getDataSize ctx) offsetFrom offsetTo ->
  snd (Mem.find_sequence_in_range ctx
         (search_params occurrenceIndex offsetFrom offsetTo sequence) st)
  = Ok (Some (match spec_matches ctx offsetFrom offsetTo sequence
                      !! Z.to_nat occurrenceIndex with
              | Some o => UnsignedInteger o
              | None => SignedInteger (-1)
              end)).
Proof.
  intros Hhost Hsize Hfrom Hto Hocc Hfits.
  rewrite find_unfold.
  rewrite (u128_small occurrenceIndex), (u128_small offsetFrom),
    (u128_small offsetTo) by lia.
  rewrite (u64_small (getDataSize ctx)), (u64_small offsetFrom),
    (u64_small offsetTo) by lia.
  fold (spec_endOffset (getDataSize ctx) offsetFrom offsetTo) in *.
  pose proof (spec_endOffset_le (getDataSize ctx) offsetFrom offsetTo) as Hle.
  unfold spec_matches, spec_candidates.
  set (endOffset := spec_endOffset (getDataSize ctx) offsetFrom offsetTo) in *.
  rewrite (u64_small (endOffset - _)) by lia.
  rewrite scan_finds.
  - rewrite seqZ_to_nat, Z.sub_0_r.
    destruct (filter _ _ !! _); reflexivity.
  - apply repeat_length.
  - intros o Ho. apply Hhost; lia.
  - lia.
  - lia.
Qed.

(** The candidates that pass a test keep their order. *)
Lemma filter_seqZ_increasing (P : Z -> Prop) `{forall z, Decision (P z)}
    (m : Z) (n : nat) (i j : nat) (a b : Z) :
  (i < j)%nat ->
  filter P (seqZ m (Z.of_nat n)) !! i = Some a ->
  filter P (seqZ m (Z.of_nat n)) !! j = Some b ->
  a < b.
Proof.
  revert m i j. induction n as [| n IH]; intros m i j Hij Ha Hb.
  - change (Z.of_nat 0) with 0 in Ha. rewrite seqZ_nil in Ha by lia.
    rewrite filter_nil, lookup_nil in Ha. discriminate.
  - replace (Z.of_nat (S n)) with (Z.succ (Z.of_nat n)) in Ha, Hb by lia.
    rewrite (seqZ_cons m) in Ha, Hb by lia. rewrite Z.pred_succ in Ha, Hb.
    rewrite filter_cons in Ha, Hb.
    destruct (decide (P m)) as [Hm | Hm]; [| exact (IH (Z.succ m) i j Hij Ha Hb)].
    destruct j as [| j]; [lia |]. cbn [lookup list_lookup] in Hb.
    destruct i as [| i].
    + cbn [lookup list_lookup] in Ha. injection Ha as <-.
      apply list_elem_of_lookup_2, list_elem_of_filter in Hb as [_ Hin].
      apply elem_of_seqZ in Hin. lia.
    + cbn [lookup list_lookup] in Ha.
      apply (IH (Z.succ m) i j); [lia | exact Ha | exact Hb].
Qed.

(** X5: within the widths of the code and with a host that serves the reads
    inside the data, the occurrences are numbered from left to right:
    occurrence 0 is the leftmost matching candidate; when the search for
    occurrence k returns an offset and the search for occurrence k + 1
    returns one too, the second offset is larger; and when occurrence k does
    not exist, neither does occurrence k + 1. *)
Theorem find_sequence_occurrences_ascend (ctx : Evaluator)
    (k offsetFrom offsetTo : Z) (sequence : list byte) (st : State) :
  serves_reads ctx ->
  0 <= getDataSize ctx < 2 ^ 64 ->
  0 <= offsetFrom < 2 ^ 64 ->
  0 <= offsetTo < 2 ^ 64 ->
  0 <= k -> k + 1 < 2 ^ 32 ->
  Z.of_nat (length sequence) <= spec_endOffset (getDataSize ctx) offsetFrom offsetTo ->
  (forall o,
     snd (Mem.find_sequence_in_range ctx (search_params 0 offsetFrom offsetTo sequence) st)
       = Ok (Some (UnsignedInteger o)) ->
     forall c, offsetFrom <= c < o -> spec_is_match ctx sequence c = false)
  /\ (forall o o',
        snd (Mem.find_sequence_in_range ctx
               (search_params k offsetFrom offsetTo sequence) st)
          = Ok (Some (UnsignedInteger o)) ->
        snd (Mem.find_sequence_in_range ctx
               (search_params (k + 1) offsetFrom offsetTo sequence) st)
          = Ok (Some (UnsignedInteger o')) ->
        o < o')
  /\ (snd (Mem.find_sequence_in_range ctx
             (search_params k offsetFrom offsetTo sequence) st)
        = Ok (Some (SignedInteger (-1))) ->
      snd (Mem.find_sequence_in_range ctx
             (search_params (k + 1) offsetFrom offsetTo sequence) st)
        = Ok (Some (SignedInteger (-1)))).
Proof.
  intros Hhost Hsize Hfrom Hto Hk Hk1 Hfits.
  rewrite !find_by_index by (try assumption; lia).
  set (matches := spec_matches ctx offsetFrom offsetTo sequence).
  assert (Hform : matches
                  = filter (fun o => spec_is_match ctx sequence o = true)
                      (seqZ offsetFrom
                         (Z.of_nat (Z.to_nat
                            (spec_endOffset (getDataSize ctx) offsetFrom offsetTo
                             - Z.of_nat (length sequence) - offsetFrom))))).
  { unfold matches, spec_matches, spec_candidates. rewrite seqZ_to_nat. reflexivity. }
  replace (Z.to_nat (k + 1)) with (S (Z.to_nat k)) by lia.
  change (Z.to_nat 0) with 0%nat.
  split; [| split].
  - intros o Ho c Hc.
    destruct (matches !! 0%nat) as [o0 |] eqn:Hfirst; [| discriminate].
    injection Ho as ->.
    destruct (spec_is_match ctx sequence c) eqn:Hmatch; [exfalso | reflexivity].
    assert (Hin : c ∈ matches).
    { unfold matches, spec_matches. apply list_elem_of_filter. split; [exact Hmatch |].
      pose proof Hfirst as Ho.
      apply list_elem_of_lookup_2 in Ho. unfold matches, spec_matches in Ho.
      apply list_elem_of_filter in Ho as [_ Ho].
      unfold spec_candidates in *. apply elem_of_seqZ in Ho. apply elem_of_seqZ. lia. }
    apply list_elem_of_lookup_1 in Hin as [i Hi].
    destruct i as [| i]; [rewrite Hfirst in Hi; injection Hi as ->; lia |].
    rewrite Hform in Hfirst, Hi.
    pose proof (filter_seqZ_increasing (fun o => spec_is_match ctx sequence o = true)
                  _ _ 0%nat (S i) o c ltac:(lia) Hfirst Hi).
    lia.
  - intros o o' Ho Ho'.
    destruct (matches !! Z.to_nat k) as [a |] eqn:Ha; [| discriminate].
    destruct (matches !! S (Z.to_nat k)) as [b |] eqn:Hb; [| discriminate].
    injection Ho as ->. injection Ho' as ->.
    rewrite Hform in Ha, Hb.
    apply (filter_seqZ_increasing (fun o => spec_is_match ctx sequence o = true)
             _ _ _ _ _ _ (Nat.lt_succ_diag_r _) Ha Hb).
  - intros Hnone.
    destruct (matches !! Z.to_nat k) as [a |] eqn:Ha; [discriminate |].
    apply lookup_ge_None in Ha.
    rewrite (lookup_ge_None_2 matches (S (Z.to_nat k))) by lia. reflexivity.
Qed.

End SearchOrder.

Lemma find_sequence_occurrences_ascend_witness :
  (forall o,
     snd (@Mem.find_sequence_in_range memoryFiles
            (bufferEvaluator [Byte.x00; Byte.xaa; Byte.xbb; Byte.x00; Byte.xaa; Byte.xbb;
                              Byte.x00; Byte.x00])
            (search_params 0 0 0 [Byte.xaa; Byte.xbb]) (FileNs.initial ∅))
       = Ok (Some (UnsignedInteger o)) ->
     forall c, 0 <= c < o ->
       spec_is_match (bufferEvaluator
                        [Byte.x00; Byte.xaa; Byte.xbb; Byte.x00; Byte.xaa; Byte.xbb;
                         Byte.x00; Byte.x00]) [Byte.xaa; Byte.xbb] c = false)
  /\ snd (@Mem.find_sequence_in_range memoryFiles
            (bufferEvaluator [Byte.x00; Byte.xaa; Byte.xbb; Byte.x00; Byte.xaa; Byte.xbb;
                              Byte.x00; Byte.x00])
            (search_params 0 0 0 [Byte.xaa; Byte.xbb]) (FileNs.initial ∅))
     = Ok (Some (UnsignedInteger 1))
  /\ snd (@Mem.find_sequence_in_range memoryFiles
            (bufferEvaluator [Byte.x00; Byte.xaa; Byte.xbb; Byte.x00; Byte.xaa; Byte.xbb;
                              Byte.x00; Byte.x00])
            (search_params 1 0 0 [Byte.xaa; Byte.xbb]) (FileNs.initial ∅))
     = Ok (Some (UnsignedInteger 4)).
Proof.
  split; [| split; vm_compute; reflexivity].
  apply (@find_sequence_occurrences_ascend memoryFiles
           (bufferEvaluator [Byte.x00; Byte.xaa; Byte.xbb; Byte.x00; Byte.xaa; Byte.xbb;
                             Byte.x00; Byte.x00])
           0 0 0 [Byte.xaa; Byte.xbb] (FileNs.initial ∅));
    [apply bufferEvaluator_serves | simpl; lia | lia | lia | lia | lia
    | vm_compute; discriminate].
Defined.

(** ** std::mem: reading an unsigned integer *)

Lemma drop_repeat {A : Type} (x : A) (n m : nat) :
  drop n (repeat x m) = repeat x (m - n).
Proof.
  revert n. induction m as [| m IH]; intros n; [destruct n; reflexivity |].
  destruct n as [| n]; [reflexivity |]. simpl. apply IH.
Qed.

Section ReadUnsigned.
Context `{FileApi}.

(** For a size of at most 16, [read_unsigned] returns the number the bytes
    handed back by the host spell, whatever their count: the bytes the host
    did not write are those of the initial 0. *)
Lemma read_unsigned_value (ctx : Evaluator) (address size : Z) (bs : list byte)
    (st : State) :
  0 <= size <= 16 ->
  readData ctx (u128 address) (Z.to_nat size) = Ok bs ->
  Mem.read_unsigned ctx [UnsignedInteger address; UnsignedInteger size] st
  = (Mem.record_reads st [(u128 address, Z.to_nat size)],
     Ok (Some (UnsignedInteger (le_combine (take (Z.to_nat size) bs))))).
Proof.
  intros Hsize Hread.
  unfold Mem.read_unsigned, Mem.readDataInto, bind, param, lift, ret; simpl.
  rewrite (u128_small size) by lia.
  destruct (Z.ltb_spec 16 size) as [Hbig | _]; [lia |].
  rewrite Hread. simpl.
  do 3 f_equal.
  unfold Mem.overwrite.
  set (written := take (Z.to_nat size) bs).
  assert (Hwritten : (length written <= 16)%nat).
  { unfold written. rewrite length_take. lia. }
  change (le_split 16 0) with (repeat Byte.x00 16).
  rewrite repeat_length.
  assert (Hdrop : drop (length written) (repeat Byte.x00 16)
                  = repeat Byte.x00 (16 - length written)).
  { apply drop_repeat. }
  rewrite Hdrop.
  rewrite firstn_all2 by (rewrite length_app, repeat_length; lia).
  rewrite le_combine_app_0. reflexivity.
Qed.

(** X6: [read_unsigned] aborts with "read size out of range" and an
    unchanged state when the size exceeds 16.  Otherwise it issues one read
    and returns the bytes the host hands back as an UnsignedInteger, least
    significant byte first and zero-extended: the value is below
    2^(8 * size), a short answer of the host leaves the missing high bytes
    0, and a value below 2^(8 * size) stored in [size] bytes is read back
    unchanged. *)
Theorem read_unsigned_zero_extends (ctx : Evaluator) (address size : Z) (st : State) :
  (16 < u128 size ->
   Mem.read_unsigned ctx [UnsignedInteger address; UnsignedInteger size] st
   = (st, Abort "read size out of range"))
  /\ (0 <= size <= 16 ->
      forall bs,
        readData ctx (u128 address) (Z.to_nat size) = Ok bs ->
        exists v,
          Mem.read_unsigned ctx [UnsignedInteger address; UnsignedInteger size] st
          = (Mem.record_reads st [(u128 address, Z.to_nat size)],
             Ok (Some (UnsignedInteger v)))
          /\ v = le_combine (take (Z.to_nat size) bs)
          /\ 0 <= v < 2 ^ (8 * size)
          /\ 0 <= v < 2 ^ (8 * Z.of_nat (length bs)))
  /\ (0 <= size <= 16 ->
      forall v,
        0 <= v < 2 ^ (8 * size) ->
        readData ctx (u128 address) (Z.to_nat size) = Ok (le_split (Z.to_nat size) v) ->
        Mem.read_unsigned ctx [UnsignedInteger address; UnsignedInteger size] st
        = (Mem.record_reads st [(u128 address, Z.to_nat size)],
           Ok (Some (UnsignedInteger v)))).
Proof.
  split; [| split].
  - intros Hbig.
    unfold Mem.read_unsigned, bind, param, lift, ret, abortEvaluation; simpl.
    destruct (Z.ltb_spec 16 (u128 size)) as [_ | Hsmall]; [reflexivity | lia].
  - intros Hsize bs Hread. eexists.
    split; [exact (read_unsigned_value ctx address size bs st Hsize Hread) |].
    split; [reflexivity |].
    pose proof (le_combine_bound (take (Z.to_nat size) bs)) as Hbound.
    rewrite length_take in Hbound.
    assert (Hmono : forall a b, 0 <= a <= b -> 2 ^ a <= 2 ^ b)
      by (intros a b Hab; apply Z.pow_le_mono_r; lia).
    pose proof (Hmono (8 * Z.of_nat (Z.to_nat size `min` length bs)) (8 * size)
                  ltac:(lia)).
    pose proof (Hmono (8 * Z.of_nat (Z.to_nat size `min` length bs))
                  (8 * Z.of_nat (length bs)) ltac:(lia)).
    lia.
  - intros Hsize v Hv Hread.
    rewrite (read_unsigned_value ctx address size _ st Hsize Hread).
    rewrite firstn_all2 by (rewrite length_le_split; lia).
    rewrite le_combine_split.
    replace (Z.of_nat (Z.to_nat size) * 8) with (8 * size) by lia.
    rewrite Z.mod_small by lia. reflexivity.
Qed.

(** X7: for a size from 1 to 16 and [size] bytes handed back by the host,
    [read_signed] and [read_unsigned] at the same address return two
    readings of the same bits: both issue the same read, the signed result
    reduced modulo 2^(8 * size) is the unsigned one, and the signed result
    is the unsigned one when that is below 2^(8 * size - 1) and the unsigned
    one minus 2^(8 * size) otherwise. *)
Theorem read_signed_of_unsigned (uninitialized : Z) (ctx : Evaluator)
    (address size : Z) (bs : list byte) (st : State) :
  1 <= size <= 16 ->
  readData ctx (u128 address) (Z.to_nat size) = Ok bs ->
  length bs = Z.to_nat size ->
  exists u s,
    Mem.read_unsigned ctx [UnsignedInteger address; UnsignedInteger size] st
    = (Mem.record_reads st [(u128 address, Z.to_nat size)],
       Ok (Some (UnsignedInteger u)))
    /\ Mem.read_signed uninitialized ctx
         [UnsignedInteger address; UnsignedInteger size] st
       = (Mem.record_reads st [(u128 address, Z.to_nat size)],
          Ok (Some (SignedInteger s)))
    /\ s mod 2 ^ (8 * size) = u
    /\ s = (if u <? 2 ^ (8 * size - 1) then u else u - 2 ^ (8 * size)).
Proof.
  intros Hsize Hread Hlen.
  exists (le_combine bs), (to_signed (size * 8) (le_combine bs)).
  split.
  { rewrite (read_unsigned_value ctx address size bs st) by (try assumption; lia).
    rewrite firstn_all2 by lia. reflexivity. }
  split; [apply read_signed_value; assumption |].
  pose proof (le_combine_bound bs) as Hbound. rewrite Hlen in Hbound.
  replace (8 * Z.of_nat (Z.to_nat size)) with (8 * size) in Hbound by lia.
  replace (size * 8) with (8 * size) by lia.
  split.
  { rewrite to_signed_congruent by lia. apply Z.mod_small. exact Hbound. }
  pose proof (pow2_split (8 * size) ltac:(lia)) as Hsplit.
  unfold to_signed.
  destruct (Z.ltb_spec (le_combine bs) (2 ^ (8 * size - 1))) as [Hlow | Hhigh].
  - rewrite Z.mod_small by lia. lia.
  - replace (le_combine bs + 2 ^ (8 * size - 1))
      with (le_combine bs - 2 ^ (8 * size - 1) + 1 * 2 ^ (8 * size)) by lia.
    rewrite Z.mod_add by lia. rewrite Z.mod_small by lia. lia.
Qed.

End ReadUnsigned.

Lemma read_unsigned_zero_extends_witness :
  @Mem.read_unsigned memoryFiles
    (bufferEvaluator [Byte.x00; Byte.xfe; Byte.xff; Byte.x7f])
    [UnsignedInteger 1; UnsignedInteger 2] (FileNs.initial ∅)
  = (Mem.record_reads (FileNs.initial ∅) [(1, 2%nat)], Ok (Some (UnsignedInteger 65534)))
  /\ @Mem.read_unsigned memoryFiles
       (truncatingEvaluator [Byte.x00; Byte.xfe; Byte.xff; Byte.x7f])
       [UnsignedInteger 2; UnsignedInteger 16] (FileNs.initial ∅)
     = (Mem.record_reads (FileNs.initial ∅) [(2, 16%nat)],
        Ok (Some (UnsignedInteger 32767)))
  /\ @Mem.read_unsigned memoryFiles
       (bufferEvaluator [Byte.x00; Byte.xfe; Byte.xff; Byte.x7f])
       [UnsignedInteger 1; UnsignedInteger 17] (FileNs.initial ∅)
     = (FileNs.initial ∅, Abort "read size out of range").
Proof.
  split; [| split].
  - apply (proj2 (proj2 (@read_unsigned_zero_extends memoryFiles
             (bufferEvaluator [Byte.x00; Byte.xfe; Byte.xff; Byte.x7f])
             1 2 (FileNs.initial ∅))));
      [lia | vm_compute; split; [discriminate | reflexivity] | reflexivity].
  - destruct (proj1 (proj2 (@read_unsigned_zero_extends memoryFiles
                (truncatingEvaluator [Byte.x00; Byte.xfe; Byte.xff; Byte.x7f])
                2 16 (FileNs.initial ∅))) ltac:(lia) [Byte.xff; Byte.x7f] eq_refl)
      as (v & Hcall & -> & _).
    exact Hcall.
  - apply (proj1 (@read_unsigned_zero_extends memoryFiles
             (bufferEvaluator [Byte.x00; Byte.xfe; Byte.xff; Byte.x7f])
             1 17 (FileNs.initial ∅))).
    vm_compute. reflexivity.
Defined.

Lemma read_signed_of_unsigned_witness :
  exists u s,
    @Mem.read_unsigned memoryFiles
      (bufferEvaluator [Byte.x00; Byte.xfe; Byte.xff; Byte.x7f])
      [UnsignedInteger 1; UnsignedInteger 2] (FileNs.initial ∅)
    = (Mem.record_reads (FileNs.initial ∅) [(u128 1, Z.to_nat 2)],
       Ok (Some (UnsignedInteger u)))
    /\ @Mem.read_signed memoryFiles 987654321
         (bufferEvaluator [Byte.x00; Byte.xfe; Byte.xff; Byte.x7f])
         [UnsignedInteger 1; UnsignedInteger 2] (FileNs.initial ∅)
       = (Mem.record_reads (FileNs.initial ∅) [(u128 1, Z.to_nat 2)],
          Ok (Some (SignedInteger s)))
    /\ s mod 2 ^ (8 * 2) = u
    /\ s = (if u <? 2 ^ (8 * 2 - 1) then u else u - 2 ^ (8 * 2)).
Proof.
  apply (@read_signed_of_unsigned memoryFiles 987654321
           (bufferEvaluator [Byte.x00; Byte.xfe; Byte.xff; Byte.x7f])
           1 2 [Byte.xfe; Byte.xff] (FileNs.initial ∅));
    [lia | reflexivity | reflexivity].
Defined.

(** ** std::string: substrings *)

Lemma substring_length (s : string) (n m : nat) :
  (n + m <= String.length s)%nat -> String.length (String.substring n m s) = m.
Proof.
  revert n m. induction s as [| c s IH]; intros n m Hlen; simpl in *.
  - destruct n, m; simpl; lia.
  - destruct n as [| n].
    + destruct m as [| m]; [reflexivity |]. simpl. rewrite IH by lia. reflexivity.
    + apply IH. lia.
Qed.

Lemma substring_all (s : string) : String.substring 0 (String.length s) s = s.
Proof.
  induction s as [| c s IH]; simpl; [reflexivity | f_equal; exact IH].
Qed.

Lemma substring_none (s : string) (n : nat) : String.substring n 0 s = EmptyString.
Proof.
  revert n. induction s as [| c s IH]; intros [| n]; simpl; auto.
Qed.

Lemma substring_split (s : string) (k : nat) :
  (k <= String.length s)%nat ->
  (String.substring 0 k s +:+ String.substring k (String.length s - k) s)%string = s.
Proof.
  revert k. induction s as [| c s IH]; intros k Hk.
  - destruct k; reflexivity.
  - destruct k as [| k].
    + rewrite substring_none, Nat.sub_0_r, substring_all. reflexivity.
    + simpl in Hk. simpl.
      change (String c (String.substring 0 k s
                        +:+ String.substring k (String.length s - k) s)%string
              = String c s).
      f_equal. apply IH. lia.
Qed.

Lemma substring_one (s : string) (n : nat) (c : ascii) :
  String.get n s = Some c -> String.substring n 1 s = String c EmptyString.
Proof.
  revert n. induction s as [| d s IH]; intros n Hget; simpl in *; [discriminate |].
  destruct n as [| n]; [| apply IH; exact Hget].
  injection Hget as ->. destruct s; reflexivity.
Qed.

Section SubstringProperties.
Context `{FileApi} `{LibC}.

Lemma substr_value (ctx : Evaluator) (s : string) (pos count : Z) (st : State) :
  Z.of_nat (String.length s) < 2 ^ 64 ->
  0 <= pos <= Z.of_nat (String.length s) ->
  Str.substr ctx [StringValue s; UnsignedInteger pos; UnsignedInteger count] st
  = (st, Ok (Some (StringValue
                     (String.substring (Z.to_nat pos)
                        (Z.to_nat (Z.min (u64 (u128 count))
                                     (Z.of_nat (String.length s) - pos)))
                        s)))).
Proof.
  intros Hlen Hpos.
  unfold Str.substr, bind, param, lift, ret, abortEvaluation; simpl.
  rewrite (u128_small pos) by lia.
  destruct (Z.ltb_spec (Z.of_nat (String.length s)) pos) as [Hbig | _]; [lia |].
  rewrite (u64_small pos) by lia. reflexivity.
Qed.

(** X8: [substr] aborts with "character index out of range" and an
    unchanged state exactly when the position exceeds the length of the
    string.  Otherwise it returns the characters from the position on, and
    [length] of the result is the smaller of the count (narrowed to 64
    bits) and the number of characters left: a count that reaches past the
    end is clamped, it is no error. *)
Theorem substr_clamps (ctx : Evaluator) (s : string) (pos count : Z) (st : State) :
  Z.of_nat (String.length s) < 2 ^ 64 ->
  0 <= pos < 2 ^ 128 ->
  (Z.of_nat (String.length s) < pos ->
   Str.substr ctx [StringValue s; UnsignedInteger pos; UnsignedInteger count] st
   = (st, Abort "character index out of range"))
  /\ (pos <= Z.of_nat (String.length s) ->
      exists r,
        Str.substr ctx [StringValue s; UnsignedInteger pos; UnsignedInteger count] st
        = (st, Ok (Some (StringValue r)))
        /\ Str.length ctx [StringValue r] st
           = (st, Ok (Some (UnsignedInteger
                              (Z.min (u64 (u128 count))
                                 (Z.of_nat (String.length s) - pos)))))
        /\ forall i, (i < String.length r)%nat ->
             String.get i r = String.get (i + Z.to_nat pos) s).
Proof.
  intros Hlen Hpos. split.
  - intros Hbig.
    unfold Str.substr, bind, param, lift, ret, abortEvaluation; simpl.
    rewrite (u128_small pos) by lia.
    destruct (Z.ltb_spec (Z.of_nat (String.length s)) pos) as [_ | Hsmall];
      [reflexivity | lia].
  - intros Hin. eexists.
    split; [apply substr_value; lia |].
    assert (Hcount : 0 <= u64 (u128 count)) by (apply Z.mod_pos_bound; lia).
    assert (Hr : String.length
                   (String.substring (Z.to_nat pos)
                      (Z.to_nat (Z.min (u64 (u128 count))
                                   (Z.of_nat (String.length s) - pos))) s)
                 = Z.to_nat (Z.min (u64 (u128 count))
                               (Z.of_nat (String.length s) - pos)))
      by (apply substring_length; lia).
    split.
    + unfold Str.length, bind, param, lift, ret; simpl.
      rewrite Hr. do 4 f_equal. lia.
    + intros i Hi. rewrite Hr in Hi. apply substring_correct1. exact Hi.
Qed.

(** X9: cutting a string at a position within it loses nothing: [substr]
    from 0 with the position as count, followed by [substr] from the
    position with any count that covers the rest, gives the string back. *)
Theorem substr_split (ctx : Evaluator) (s : string) (k count : Z) (st : State) :
  Z.of_nat (String.length s) < 2 ^ 64 ->
  0 <= k <= Z.of_nat (String.length s) ->
  Z.of_nat (String.length s) - k <= count < 2 ^ 64 ->
  exists front back,
    Str.substr ctx [StringValue s; UnsignedInteger 0; UnsignedInteger k] st
    = (st, Ok (Some (StringValue front)))
    /\ Str.substr ctx [StringValue s; UnsignedInteger k; UnsignedInteger count] st
       = (st, Ok (Some (StringValue back)))
    /\ (front +:+ back)%string = s.
Proof.
  intros Hlen Hk Hcount. eexists. eexists.
  split; [apply substr_value; lia |].
  split; [apply substr_value; lia |].
  rewrite (u128_small k), (u128_small count) by lia.
  rewrite (u64_small k), (u64_small count) by lia.
  rewrite Z.sub_0_r.
  replace (Z.to_nat (Z.min k (Z.of_nat (String.length s)))) with (Z.to_nat k) by lia.
  replace (Z.to_nat (Z.min count (Z.of_nat (String.length s) - k)))
    with (String.length s - Z.to_nat k)%nat by lia.
  change (Z.to_nat 0) with 0%nat.
  apply substring_split. lia.
Qed.

(** X10: for an index within the string, counting from the front and
    counting from the back meet: [at] with index [i] and [at] with index
    [i - length] return the same character, and [substr] from [i] with
    count 1 returns the string made of that character. *)
Theorem at_front_back_substr (ctx : Evaluator) (s : string) (i : Z) (st : State) :
  Z.of_nat (String.length s) < 2 ^ 64 ->
  0 <= i < Z.of_nat (String.length s) ->
  exists c,
    Str.at_ ctx [StringValue s; SignedInteger i] st = (st, Ok (Some (Character c)))
    /\ Str.at_ ctx [StringValue s; SignedInteger (i - Z.of_nat (String.length s))] st
       = (st, Ok (Some (Character c)))
    /\ Str.substr ctx [StringValue s; UnsignedInteger i; UnsignedInteger 1] st
       = (st, Ok (Some (StringValue (String c EmptyString)))).
Proof.
  intros Hlen Hi.
  destruct (at_in_range ctx s i st Hlen ltac:(lia)) as (c & Hget & Hfront).
  destruct (at_in_range ctx s (i - Z.of_nat (String.length s)) st Hlen ltac:(lia))
    as (c' & Hget' & Hback).
  destruct (Z.leb_spec 0 i) as [_ | Hneg]; [| lia].
  destruct (Z.leb_spec 0 (i - Z.of_nat (String.length s))) as [Hnn | _]; [lia |].
  replace (Z.of_nat (String.length s) + (i - Z.of_nat (String.length s))) with i
    in Hget' by lia.
  assert (c' = c) by congruence. subst c'.
  exists c. split; [exact Hfront |]. split; [exact Hback |].
  rewrite substr_value by lia.
  change (u64 (u128 1)) with 1.
  replace (Z.to_nat (Z.min 1 (Z.of_nat (String.length s) - i))) with 1%nat by lia.
  rewrite (substring_one s (Z.to_nat i) c Hget). reflexivity.
Qed.

End SubstringProperties.

Lemma substr_clamps_witness :
  (exists r,
     @Str.substr memoryFiles plainLibC (bufferEvaluator [])
       [StringValue "hello"; UnsignedInteger 2; UnsignedInteger 10] (FileNs.initial ∅)
     = (FileNs.initial ∅, Ok (Some (StringValue r)))
     /\ @Str.length memoryFiles plainLibC (bufferEvaluator []) [StringValue r]
          (FileNs.initial ∅)
        = (FileNs.initial ∅, Ok (Some (UnsignedInteger 3)))
     /\ forall i, (i < String.length r)%nat ->
          String.get i r = String.get (i + 2) "hello")
  /\ @Str.substr memoryFiles plainLibC (bufferEvaluator [])
       [StringValue "hello"; UnsignedInteger 6; UnsignedInteger 1] (FileNs.initial ∅)
     = (FileNs.initial ∅, Abort "character index out of range").
Proof.
  pose proof (@substr_clamps memoryFiles plainLibC (bufferEvaluator []) "hello" 2 10
                (FileNs.initial ∅) ltac:(vm_compute; reflexivity) ltac:(lia))
    as [_ Hin].
  pose proof (@substr_clamps memoryFiles plainLibC (bufferEvaluator []) "hello" 6 1
                (FileNs.initial ∅) ltac:(vm_compute; reflexivity) ltac:(lia))
    as [Hout _].
  split; [apply Hin; vm_compute; discriminate | apply Hout; vm_compute; reflexivity].
Defined.

Lemma substr_split_witness :
  exists front back,
    @Str.substr memoryFiles plainLibC (bufferEvaluator [])
      [StringValue "hello"; UnsignedInteger 0; UnsignedInteger 2] (FileNs.initial ∅)
    = (FileNs.initial ∅, Ok (Some (StringValue front)))
    /\ @Str.substr memoryFiles plainLibC (bufferEvaluator [])
         [StringValue "hello"; UnsignedInteger 2; UnsignedInteger 100] (FileNs.initial ∅)
       = (FileNs.initial ∅, Ok (Some (StringValue back)))
    /\ (front +:+ back)%string = "hello"%string.
Proof.
  apply (@substr_split memoryFiles plainLibC (bufferEvaluator []) "hello" 2 100
           (FileNs.initial ∅));
    [vm_compute; reflexivity | simpl; lia | simpl; lia].
Defined.

Lemma at_front_back_substr_witness :
  exists c,
    @Str.at_ memoryFiles plainLibC (bufferEvaluator [])
      [StringValue "hello"; SignedInteger 1] (FileNs.initial ∅)
    = (FileNs.initial ∅, Ok (Some (Character c)))
    /\ @Str.at_ memoryFiles plainLibC (bufferEvaluator [])
         [StringValue "hello"; SignedInteger (1 - Z.of_nat (String.length "hello"))]
         (FileNs.initial ∅)
       = (FileNs.initial ∅, Ok (Some (Character c)))
    /\ @Str.substr memoryFiles plainLibC (bufferEvaluator [])
         [StringValue "hello"; UnsignedInteger 1; UnsignedInteger 1] (FileNs.initial ∅)
       = (FileNs.initial ∅, Ok (Some (StringValue (String c EmptyString)))).
Proof.
  apply (@at_front_back_substr memoryFiles plainLibC (bufferEvaluator []) "hello" 1
           (FileNs.initial ∅));
    [vm_compute; reflexivity | simpl; lia].
Defined.

(** ** std: the console functions *)

Section ConsoleProperties.
Context `{FileApi} `{LibC}.

(** X11: [error] and [warning] take a literal of any type and render it the
    same way.  [error] aborts with the rendering and leaves the whole state,
    the console included, as it was; [warning] never aborts, returns nothing
    and adds exactly one Warning entry with the rendering to the end of the
    console, leaving the rest of the state alone. *)
Theorem error_aborts_warning_logs (ctx : Evaluator) (l : Literal) (st : State) :
  exists message,
    literalToString l true = Ok message
    /\ Std.error ctx [l] st = (st, Abort message)
    /\ snd (Std.warning ctx [l] st) = Ok None
    /\ console (fst (Std.warning ctx [l] st)) = console st ++ [(Warning, message)]
    /\ memoryReads (fst (Std.warning ctx [l] st)) = memoryReads st
    /\ fileCounter (fst (Std.warning ctx [l] st)) = fileCounter st
    /\ openFiles (fst (Std.warning ctx [l] st)) = openFiles st
    /\ fileSystem (fst (Std.warning ctx [l] st)) = fileSystem st.
Proof.
  destruct (literalToString_cast l) as [message Hmessage].
  exists message. split; [exact Hmessage |].
  unfold Std.error, Std.warning, Std.log, bind, param, lift, ret, abortEvaluation.
  cbn [nth_error]. rewrite Hmessage. cbn [fst snd console memoryReads fileCounter
                                           openFiles fileSystem].
  repeat split; reflexivity.
Qed.

(** X12: [env] with a String name never aborts.  A variable the evaluator
    knows is returned with the state untouched; a missing one gives the
    empty String and one Warning entry that names the variable, and nothing
    else of the state changes.  A name that is not a String is a type
    mismatch: unlike [warning], [env] does not render its argument. *)
Theorem env_missing_is_soft (ctx : Evaluator) (st : State) :
  (forall name value,
     getEnvVariable ctx name = Some value ->
     Std.env ctx [StringValue name] st = (st, Ok (Some value)))
  /\ (forall name,
        getEnvVariable ctx name = None ->
        snd (Std.env ctx [StringValue name] st) = Ok (Some (StringValue EmptyString))
        /\ console (fst (Std.env ctx [StringValue name] st))
           = console st
             ++ [(Warning,
                  ("environment variable '" +:+ name +:+ "' does not exist")%string)]
        /\ memoryReads (fst (Std.env ctx [StringValue name] st)) = memoryReads st
        /\ fileCounter (fst (Std.env ctx [StringValue name] st)) = fileCounter st
        /\ openFiles (fst (Std.env ctx [StringValue name] st)) = openFiles st
        /\ fileSystem (fst (Std.env ctx [StringValue name] st)) = fileSystem st)
  /\ (forall l,
        (forall name, l <> StringValue name) ->
        Std.env ctx [l] st = (st, Abort type_mismatch)).
Proof.
  split; [| split].
  - intros name value Hknown.
    unfold Std.env, bind, param, lift, ret. cbn [nth_error literalToString].
    rewrite Hknown. reflexivity.
  - intros name Hmissing.
    unfold Std.env, Std.log, bind, param, lift, ret. cbn [nth_error literalToString].
    rewrite Hmissing. cbn. repeat split; reflexivity.
  - intros l Hl.
    unfold Std.env, bind, param, lift, ret. cbn [nth_error].
    destruct l; try reflexivity. exfalso. eapply Hl. reflexivity.
Qed.

End ConsoleProperties.

Lemma env_missing_is_soft_witness :
  @Std.env memoryFiles plainLibC (envEvaluator [] "HOME" (StringValue "/root"))
    [StringValue "HOME"] (FileNs.initial ∅)
  = (FileNs.initial ∅, Ok (Some (StringValue "/root")))
  /\ console (fst (@Std.env memoryFiles plainLibC
                     (envEvaluator [] "HOME" (StringValue "/root"))
                     [StringValue "PATH"] (FileNs.initial ∅)))
     = [(Warning, "environment variable 'PATH' does not exist"%string)]
  /\ @Std.env memoryFiles plainLibC (envEvaluator [] "HOME" (StringValue "/root"))
       [UnsignedInteger 7] (FileNs.initial ∅)
     = (FileNs.initial ∅, Abort type_mismatch).
Proof.
  pose proof (@env_missing_is_soft memoryFiles plainLibC
                (envEvaluator [] "HOME" (StringValue "/root")) (FileNs.initial ∅))
    as (Hknown & Hmissing & Hmismatch).
  split; [apply Hknown; reflexivity |].
  split; [apply (Hmissing "PATH"%string); reflexivity |].
  apply Hmismatch. intros name. discriminate.
Defined.

(** ** std::file: the statics across calls *)

Lemma u32_next_differs (x : Z) : 0 <= x < 2 ^ 32 -> u32 (x + 1) <> x.
Proof.
  intros Hx. unfold u32.
  destruct (Z_lt_dec (x + 1) (2 ^ 32)) as [Hlt | Hge].
  - rewrite Z.mod_small by lia. lia.
  - replace (x + 1) with (2 ^ 32) by lia. rewrite Z.mod_same by lia. lia.
Qed.

Lemma u32_shift (z k : Z) : u32 (z + k * 2 ^ 32) = u32 z.
Proof. unfold u32. apply Z_mod_plus_full. Qed.

Lemma u32_u128_shift (z k : Z) : u32 (u128 (z + k * 2 ^ 32)) = u32 (u128 z).
Proof. rewrite !u32_u128. apply u32_shift. Qed.

Lemma omap_key_of_ids (keys : list Z) : omap key_of (UnsignedInteger <$> keys) = keys.
Proof.
  induction keys as [| k keys IH]; [reflexivity |].
  change (k :: omap key_of (UnsignedInteger <$> keys) = k :: keys).
  rewrite IH. reflexivity.
Qed.

Section TableProperties.
Context `{FileApi} `{LibC}.

(** X13: a call of [open] that does not return an id consumes none: the
    counter and the table are as before, whatever the arguments were.  A
    call that returns hands out the counter plus one modulo 2^32, which is
    then the counter and a mapped handle.  Console and memory reads are
    never touched, and a mode other than 1, 2 or 3 is rejected before the
    file system is. *)
Theorem open_failure_consumes_no_id (ctx : Evaluator) (params : list Literal)
    (st : State) :
  match snd (FileNs.open ctx params st) with
  | Ok id =>
      id = Some (UnsignedInteger (u32 (fileCounter st + 1)))
      /\ fileCounter (fst (FileNs.open ctx params st)) = u32 (fileCounter st + 1)
      /\ is_Some (openFiles (fst (FileNs.open ctx params st))
                    !! u32 (fileCounter st + 1))
  | _ =>
      fileCounter (fst (FileNs.open ctx params st)) = fileCounter st
      /\ openFiles (fst (FileNs.open ctx params st)) = openFiles st
  end
  /\ console (fst (FileNs.open ctx params st)) = console st
  /\ memoryReads (fst (FileNs.open ctx params st)) = memoryReads st
  /\ forall path mode rest,
       u128 mode < 1 \/ 3 < u128 mode ->
       FileNs.open ctx (StringValue path :: UnsignedInteger mode :: rest) st
       = (st, Abort "invalid file open mode").
Proof.
  assert (Hopened : forall path (m : Mode),
    let r := (let '(file, fs) := File_new path m (fileSystem st) in
              if negb (File_isValid file)
              then (FileNs.with_files st (fileCounter st) (openFiles st)
                      (File_delete file fs),
                    Abort ("failed to open file " +:+ path))
              else match openFiles st !! u32 (fileCounter st + 1) with
                   | Some _ =>
                       (FileNs.with_files st (u32 (fileCounter st + 1))
                          (openFiles st) (File_delete file fs),
                        Ok (Some (UnsignedInteger (u32 (fileCounter st + 1)))))
                   | None =>
                       (FileNs.with_files st (u32 (fileCounter st + 1))
                          (<[u32 (fileCounter st + 1) := file]> (openFiles st)) fs,
                        Ok (Some (UnsignedInteger (u32 (fileCounter st + 1)))))
                   end) in
    match snd r with
    | Ok id =>
        id = Some (UnsignedInteger (u32 (fileCounter st + 1)))
        /\ fileCounter (fst r) = u32 (fileCounter st + 1)
        /\ is_Some (openFiles (fst r) !! u32 (fileCounter st + 1))
    | _ => fileCounter (fst r) = fileCounter st /\ openFiles (fst r) = openFiles st
    end
    /\ console (fst r) = console st
    /\ memoryReads (fst r) = memoryReads st).
  { intros path m. cbv zeta.
    destruct (File_new path m (fileSystem st)) as [file fs].
    destruct (File_isValid file); cbn [negb].
    - destruct (openFiles st !! u32 (fileCounter st + 1)) as [old |] eqn:Hold;
        cbn [fst snd FileNs.with_files fileCounter openFiles console memoryReads].
      + rewrite Hold. repeat split; eauto.
      + rewrite lookup_insert_eq. repeat split; eauto.
    - cbn [fst snd FileNs.with_files fileCounter openFiles console memoryReads].
      repeat split; reflexivity. }
  split; [| split; [| split]].
  4: { intros path mode rest Hmode.
       unfold FileNs.open, FileNs.select_mode, bind, param, lift, ret, abortEvaluation.
       cbn [nth_error literalToString literalToUnsigned].
       destruct (Z.eqb_spec (u128 mode) 1) as [? | _]; [lia |].
       destruct (Z.eqb_spec (u128 mode) 2) as [? | _]; [lia |].
       destruct (Z.eqb_spec (u128 mode) 3) as [? | _]; [lia |].
       reflexivity. }
  all: unfold FileNs.open, FileNs.select_mode, bind, param, lift, ret, abortEvaluation.
  all: destruct params as [| p0 params]; cbn [nth_error fst snd]; auto.
  all: destruct (literalToString p0 false) as [path | msg |]; cbn [fst snd]; auto.
  all: destruct params as [| p1 params]; cbn [nth_error fst snd]; auto.
  all: destruct (literalToUnsigned p1) as [modeEnum | msg |]; cbn [fst snd]; auto.
  all: destruct (modeEnum =? 1); [apply (Hopened path Read) |].
  all: destruct (modeEnum =? 2); [apply (Hopened path Write) |].
  all: destruct (modeEnum =? 3); [apply (Hopened path Create) |].
  all: cbn [fst snd]; auto.
Qed.

(** X14: when the next handle is free, closing the id that [open] returned
    puts the table back as it was before the [open].  The counter keeps its
    advanced value: a second [close] of the id aborts, and the next [open]
    that returns hands out a different id. *)
Theorem open_close_restores_table (ctx : Evaluator) (path : string) (mode : Z)
    (st st1 : State) (id : Literal) :
  openFiles st !! u32 (fileCounter st + 1) = None ->
  FileNs.open ctx [StringValue path; UnsignedInteger mode] st = (st1, Ok (Some id)) ->
  exists st2,
    FileNs.close ctx [id] st1 = (st2, Ok None)
    /\ openFiles st2 = openFiles st
    /\ fileCounter st2 = u32 (fileCounter st + 1)
    /\ FileNs.close ctx [id] st2 = (st2, Abort "failed to access invalid file")
    /\ forall path' mode' st3 id',
         FileNs.open ctx [StringValue path'; UnsignedInteger mode'] st2
         = (st3, Ok (Some id')) ->
         id' <> id.
Proof.
  intros Hfree Hopen.
  destruct (open_cases ctx path mode st) as [(_ & _ & Hfailed)
                                            | (Hcounter & Hresult & file & Hfiles)].
  { exfalso. apply (Hfailed (Some id)). simpl. rewrite Hopen. reflexivity. }
  simpl in Hcounter, Hresult, Hfiles. rewrite Hopen in Hcounter, Hresult, Hfiles.
  cbn [fst snd] in Hcounter, Hresult, Hfiles.
  injection Hresult as ->.
  rewrite Hfree in Hfiles.
  set (k := u32 (fileCounter st + 1)) in *.
  assert (Hk : u32 (u128 k) = k).
  { rewrite u32_u128. unfold k, u32. apply Z.mod_mod. lia. }
  assert (Hclose : FileNs.close ctx [UnsignedInteger k] st1
                   = (FileNs.with_files st1 (fileCounter st1)
                        (delete k (openFiles st1)) (File_delete file (fileSystem st1)),
                      Ok None)).
  { unfold FileNs.close, bind, param, lift, ret.
    cbn [nth_error literalToUnsigned]. rewrite Hk, Hfiles, lookup_insert_eq.
    reflexivity. }
  eexists. split; [exact Hclose |].
  cbn [FileNs.with_files openFiles fileCounter].
  assert (Hback : delete k (openFiles st1) = openFiles st).
  { rewrite Hfiles. apply delete_insert_id. exact Hfree. }
  split; [exact Hback |].
  split; [exact Hcounter |].
  split.
  - unfold FileNs.close, bind, param, lift, ret.
    cbn [nth_error literalToUnsigned FileNs.with_files openFiles].
    rewrite Hk, Hback, Hfree. reflexivity.
  - intros path' mode' st3 id' Hagain.
    destruct (open_cases ctx path' mode'
                (FileNs.with_files st1 (fileCounter st1)
                   (delete k (openFiles st1)) (File_delete file (fileSystem st1))))
      as [(_ & _ & Hfailed') | (_ & Hresult' & _)].
    { exfalso. apply (Hfailed' (Some id')). simpl. rewrite Hagain. reflexivity. }
    simpl in Hresult'. rewrite Hagain in Hresult'.
    cbn [fst snd FileNs.with_files fileCounter] in Hresult'.
    injection Hresult' as ->.
    rewrite Hcounter. intros Heq. injection Heq as Heq.
    apply (u32_next_differs k); [apply u32_range | exact Heq].
Qed.

(** What a call other than [open] and [close] does on a mapped handle: it
    returns, and replaces the file object of that handle and the file
    system. *)
Lemma handle_call_outcome (ctx : Evaluator) (c : FileCall) (file : Z)
    (f : File) (st : State) :
  handle_of c = Some file ->
  (forall k, c <> call_close k) ->
  openFiles st !! u32 file = Some f ->
  exists v f' fs',
    perform ctx c st
    = (FileNs.with_files st (fileCounter st) (<[u32 file := f']> (openFiles st)) fs',
       Ok v).
Proof.
  intros Hc Hkind Hlookup.
  destruct c; simpl in Hc; try discriminate; injection Hc as ->;
    try (exfalso; eapply Hkind; reflexivity); simpl;
    unfold FileNs.read, FileNs.write, FileNs.seek, FileNs.size,
      FileNs.resize, FileNs.flush, FileNs.remove, bind, param, lift, ret; simpl;
    try (destruct (literalToString_cast data) as [s ->]);
    rewrite ?u32_u128, ?(onOpenFile_mapped _ _ _ f)
      by (rewrite ?u32_u128; exact Hlookup);
    simpl; rewrite ?u32_u128; eauto.
Qed.

Lemma dom_insert_mapped (files : gmap Z File) (k : Z) (f f' : File) :
  files !! k = Some f -> dom (<[k := f']> files) = dom files.
Proof.
  intros Hlookup. rewrite dom_insert_L.
  assert (Hin : k ∈ dom files) by (apply elem_of_dom; eauto).
  apply set_eq. intros x. rewrite elem_of_union, elem_of_singleton.
  split; [intros [-> | Hx]; assumption | auto].
Qed.

(** X15: [read], [write], [seek], [size], [resize], [flush] and [remove]
    applied to a mapped handle return, and touch that handle alone: the
    table has the same handles, every other handle maps to the file object
    it mapped to, and counter, console and memory reads are as before. *)
Theorem handle_calls_keep_table (ctx : Evaluator) (c : FileCall) (file : Z)
    (f : File) (st : State) :
  handle_of c = Some file ->
  (forall k, c <> call_close k) ->
  openFiles st !! u32 file = Some f ->
  (exists v, snd (perform ctx c st) = Ok v)
  /\ dom (openFiles (fst (perform ctx c st))) = dom (openFiles st)
  /\ (forall k, k <> u32 file ->
        openFiles (fst (perform ctx c st)) !! k = openFiles st !! k)
  /\ fileCounter (fst (perform ctx c st)) = fileCounter st
  /\ console (fst (perform ctx c st)) = console st
  /\ memoryReads (fst (perform ctx c st)) = memoryReads st.
Proof.
  intros Hc Hkind Hlookup.
  destruct (handle_call_outcome ctx c file f st Hc Hkind Hlookup)
    as (v & f' & fs' & ->).
  cbn [fst snd FileNs.with_files openFiles fileCounter console memoryReads].
  split; [eauto |].
  split; [apply (dom_insert_mapped _ _ f); exact Hlookup |].
  split; [intros k Hk; apply lookup_insert_ne; congruence |].
  repeat split; reflexivity.
Qed.

(** X16: a file function sees the low 32 bits of a handle only: two handle
    values that differ by a multiple of 2^32 select the same entry of the
    table, in every function that takes a handle. *)
Theorem handles_are_taken_modulo_2_32 (ctx : Evaluator) (c : FileCall)
    (file k : Z) (st : State) :
  perform ctx (with_handle (file + k * 2 ^ 32) c) st
  = perform ctx (with_handle file c) st.
Proof.
  destruct c; simpl; try reflexivity;
    unfold FileNs.close, FileNs.read, FileNs.write, FileNs.seek, FileNs.size,
      FileNs.resize, FileNs.flush, FileNs.remove, FileNs.onOpenFile,
      bind, param, lift, ret; simpl;
    rewrite ?u32_u128_shift; reflexivity.
Qed.

End TableProperties.

Lemma classic_close (c : FileCall) :
  (exists k, c = call_close k) \/ (forall k, c <> call_close k).
Proof. destruct c; eauto; right; intros k; discriminate. Qed.

Section TableHistory.
Context `{FileApi} `{LibC}.

(** What one call does to the set of mapped handles, while the counter has
    a value left for an id: an issued id is added, a closed handle is
    removed, and nothing else changes it. *)
Lemma perform_dom (ctx : Evaluator) (c : FileCall) (st : State) :
  handles_bounded st ->
  (forall v, snd (perform ctx c st) = Ok (Some v) -> handle_of c = None ->
     fileCounter st + 1 < 2 ^ 32) ->
  forall e,
    e = {| ev_before := st; ev_call := c;
           ev_result := snd (perform ctx c st);
           ev_after := fst (perform ctx c st) |} ->
    match issued_by e, closed_by e with
    | Some _, Some _ => False
    | Some _, None =>
        dom (openFiles (fst (perform ctx c st)))
        = {[fileCounter st + 1]} ∪ dom (openFiles st)
    | None, Some k =>
        k ∈ dom (openFiles st)
        /\ dom (openFiles (fst (perform ctx c st))) = dom (openFiles st) ∖ {[k]}
    | None, None => dom (openFiles (fst (perform ctx c st))) = dom (openFiles st)
    end.
Proof.
  intros [Hnn Hkeys] Hroom e ->.
  destruct (handle_of c) as [file |] eqn:Hc.
  - rewrite (issued_by_handle _ file) by exact Hc.
    destruct (openFiles st !! u32 file) as [f |] eqn:Hlookup.
    2: { unfold closed_by. cbn [ev_call ev_result].
         rewrite (perform_unmapped ctx c file st Hc Hlookup). cbn [fst snd].
         destruct c; reflexivity. }
    destruct (classic_close c) as [[k ->] | Hkind].
    + simpl in Hc. injection Hc as ->.
      unfold closed_by. cbn [ev_call ev_result perform].
      unfold FileNs.close, bind, param, lift, ret.
      cbn [nth_error literalToUnsigned]. rewrite u32_u128, Hlookup.
      cbn [fst snd FileNs.with_files openFiles].
      split; [apply elem_of_dom; eauto | apply dom_delete_L].
    + destruct (handle_call_outcome ctx c file f st Hc Hkind Hlookup)
        as (v & f' & fs' & Hperform).
      rewrite Hperform. unfold closed_by. cbn [ev_call ev_result fst snd].
      cbn [FileNs.with_files openFiles].
      destruct c; try (exfalso; eapply Hkind; reflexivity);
        try (apply (dom_insert_mapped _ _ f); exact Hlookup).
  - destruct c; simpl in Hc; try discriminate.
    unfold issued_by, closed_by. cbn [ev_call ev_result].
    destruct (open_cases ctx path mode st) as [(_ & Hfiles & Hfailed)
                                              | (_ & Hresult & file & Hfiles)].
    + destruct (snd (perform ctx (call_open path mode) st)) as [[id |] | msg |] eqn:Hr;
        try (rewrite Hfiles; reflexivity).
      exfalso. apply (Hfailed (Some id)). reflexivity.
    + specialize (Hroom _ Hresult eq_refl).
      assert (Hnext : u32 (fileCounter st + 1) = fileCounter st + 1).
      { unfold u32. apply Z.mod_small. lia. }
      assert (Hfresh : openFiles st !! (fileCounter st + 1) = None).
      { destruct (openFiles st !! (fileCounter st + 1)) eqn:Hl; [| reflexivity].
        assert (1 <= fileCounter st + 1 <= fileCounter st) by (apply Hkeys; eauto).
        lia. }
      rewrite Hresult. rewrite Hnext, Hfresh in Hfiles. rewrite Hfiles.
      apply dom_insert_L.
Qed.

Lemma closed_cons (e : Event) (events : list Event) :
  omap closed_by (e :: events)
  = match closed_by e with
    | Some k => k :: omap closed_by events
    | None => omap closed_by events
    end.
Proof. reflexivity. Qed.

(** The mapped handles after a run, from a state with bounded handles. *)
Lemma run_dom (ctx : Evaluator) (calls : list FileCall) (st : State) :
  handles_bounded st ->
  fileCounter st + Z.of_nat (length (issued (fst (run ctx calls st)))) < 2 ^ 32 ->
  dom (openFiles (snd (run ctx calls st)))
  = (dom (openFiles st)
     ∪ list_to_set (omap key_of (issued (fst (run ctx calls st)))))
    ∖ list_to_set (omap closed_by (fst (run ctx calls st))).
Proof.
  revert st. induction calls as [| c calls IH]; intros st Hbounded Hfew.
  - simpl. apply set_eq. intros x.
    rewrite elem_of_difference, elem_of_union, !elem_of_empty. tauto.
  - rewrite run_cons in *. cbn [fst snd] in *.
    rewrite issued_cons in *. rewrite closed_cons.
    set (st' := fst (perform ctx c st)) in *.
    set (e := {| ev_before := st; ev_call := c;
                 ev_result := snd (perform ctx c st); ev_after := st' |}) in *.
    set (events := fst (run ctx calls st')) in *.
    assert (Hroom : forall v, snd (perform ctx c st) = Ok (Some v) ->
                      handle_of c = None -> fileCounter st + 1 < 2 ^ 32).
    { intros v Hv Hc.
      assert (Hid : issued_by e = Some v).
      { unfold issued_by, e. cbn [ev_call ev_result]. rewrite Hv.
        destruct c; simpl in Hc; congruence. }
      rewrite Hid in Hfew. simpl in Hfew. lia. }
    destruct (perform_step ctx c st Hbounded Hroom) as (Hbounded' & [Hquiet Hissue] & _).
    pose proof (perform_dom ctx c st Hbounded Hroom e eq_refl) as Hdom.
    fold st' e in Hbounded', Hquiet, Hissue, Hdom.
    specialize (IH st' Hbounded'). fold events in IH.
    destruct (issued_by e) as [id |] eqn:Hid.
    + destruct (Hissue id eq_refl) as (-> & _ & Hcounter).
      cbn [ev_before ev_after e] in Hcounter. simpl length in Hfew.
      destruct (closed_by e) as [k |]; [contradiction |].
      rewrite IH by lia. rewrite Hdom.
      change (omap key_of (UnsignedInteger (fileCounter (ev_before e) + 1)
                             :: issued events))
        with ((fileCounter st + 1) :: omap key_of (issued events)).
      rewrite list_to_set_cons.
      apply set_eq. intros x.
      rewrite !elem_of_difference, !elem_of_union. tauto.
    + specialize (Hquiet eq_refl). cbn [ev_before ev_after e] in Hquiet.
      rewrite IH by lia.
      destruct (closed_by e) as [k |].
      * destruct Hdom as [Hin Hdom]. rewrite Hdom, list_to_set_cons.
        assert (Hlater : k ∉ (list_to_set (omap key_of (issued events)) : gset Z)).
        { assert (Hfew' : fileCounter st' + Z.of_nat (length (issued events)) < 2 ^ 32)
            by lia.
          destruct (run_counts_up ctx calls st' Hbounded' Hfew') as (Hids & _).
          fold events in Hids. rewrite Hids, omap_key_of_ids.
          rewrite elem_of_list_to_set, elem_of_seqZ.
          destruct Hbounded as [_ Hkeys].
          assert (1 <= k <= fileCounter st) by (apply Hkeys, elem_of_dom, Hin).
          lia. }
        apply set_eq. intros x.
        rewrite !elem_of_difference, !elem_of_union, !elem_of_difference,
          elem_of_singleton.
        split.
        -- intros [[[Hx Hne] | Hx] Hopen]; (split; [tauto |]); intros [-> | Hc];
             tauto.
        -- intros [[Hx | Hx] Hopen].
           ++ split; [| tauto]. left. split; [exact Hx | tauto].
           ++ split; tauto.
      * rewrite Hdom. reflexivity.
Qed.

(** X17: in a history that starts with the statics at their initial values
    and issues fewer than 2^32 ids, the handles mapped at the end are
    exactly the ids [open] has returned less the handles [close] has
    closed: no other call maps or unmaps a handle, and no id comes back
    after its [close]. *)
Theorem open_handles_are_issued_less_closed (ctx : Evaluator)
    (calls : list FileCall) (fs : FileSystem)
    (Hfew : Z.of_nat (length (issued (fst (run ctx calls (FileNs.initial fs)))))
            < 2 ^ 32) :
  dom (openFiles (snd (run ctx calls (FileNs.initial fs))))
  = list_to_set (omap key_of (issued (fst (run ctx calls (FileNs.initial fs)))))
    ∖ list_to_set (omap closed_by (fst (run ctx calls (FileNs.initial fs)))).
Proof.
  rewrite (run_dom ctx calls (FileNs.initial fs) (handles_bounded_initial fs))
    by (cbn [FileNs.initial fileCounter]; lia).
  cbn [FileNs.initial openFiles]. rewrite dom_empty_L.
  apply set_eq. intros x.
  rewrite !elem_of_difference, elem_of_union, elem_of_empty. tauto.
Qed.

End TableHistory.

Lemma open_failure_consumes_no_id_witness :
  @FileNs.open memoryFiles plainLibC (bufferEvaluator [])
    [StringValue "a.bin"; UnsignedInteger 7] (FileNs.initial ∅)
  = (FileNs.initial ∅, Abort "invalid file open mode").
Proof.
  pose proof (@open_failure_consumes_no_id memoryFiles plainLibC (bufferEvaluator [])
                [StringValue "a.bin"; UnsignedInteger 7] (FileNs.initial ∅))
    as (_ & _ & _ & Hmode).
  apply Hmode. right. vm_compute. reflexivity.
Defined.

Lemma open_close_restores_table_witness :
  exists st2,
    @FileNs.close memoryFiles (bufferEvaluator []) [UnsignedInteger 1]
      (fst (@FileNs.open memoryFiles plainLibC (bufferEvaluator [])
              [StringValue "a.bin"; UnsignedInteger 3] (FileNs.initial ∅)))
    = (st2, Ok None)
    /\ openFiles st2 = ∅
    /\ fileCounter st2 = 1.
Proof.
  destruct (@open_close_restores_table memoryFiles plainLibC (bufferEvaluator [])
              "a.bin" 3 (FileNs.initial ∅)
              (fst (@FileNs.open memoryFiles plainLibC (bufferEvaluator [])
                      [StringValue "a.bin"; UnsignedInteger 3] (FileNs.initial ∅)))
              (UnsignedInteger 1) eq_refl eq_refl)
    as (st2 & Hclose & Hfiles & Hcounter & _).
  exists st2. split; [exact Hclose |]. split; [exact Hfiles | exact Hcounter].
Defined.

Lemma handle_calls_keep_table_witness :
  (exists v,
     snd (@perform memoryFiles plainLibC (bufferEvaluator [])
            (call_write 1 (StringValue "magic"))
            (snd (@run memoryFiles plainLibC (bufferEvaluator [])
                    [call_open "a.bin" 3; call_open "b.bin" 3] (FileNs.initial ∅))))
     = Ok v)
  /\ openFiles
       (fst (@perform memoryFiles plainLibC (bufferEvaluator [])
               (call_write 1 (StringValue "magic"))
               (snd (@run memoryFiles plainLibC (bufferEvaluator [])
                       [call_open "a.bin" 3; call_open "b.bin" 3] (FileNs.initial ∅)))))
       !! 2
     = Some {| mf_path := "b.bin"; mf_position := 0; mf_valid := true |}.
Proof.
  pose proof (@handle_calls_keep_table memoryFiles plainLibC (bufferEvaluator [])
                (call_write 1 (StringValue "magic")) 1
                {| mf_path := "a.bin"; mf_position := 0; mf_valid := true |}
                (snd (@run memoryFiles plainLibC (bufferEvaluator [])
                        [call_open "a.bin" 3; call_open "b.bin" 3] (FileNs.initial ∅)))
                eq_refl ltac:(intros k; discriminate) eq_refl)
    as (Hreturns & _ & Hothers & _).
  split; [exact Hreturns |].
  rewrite Hothers by (vm_compute; discriminate). reflexivity.
Defined.

Lemma open_handles_are_issued_less_closed_witness :
  dom (openFiles (snd (@run memoryFiles plainLibC (bufferEvaluator []) example_session
                         (FileNs.initial ∅))))
  = list_to_set [1; 2; 3] ∖ list_to_set [1; 3].
Proof.
  rewrite (@open_handles_are_issued_less_closed memoryFiles plainLibC
             (bufferEvaluator []) example_session ∅)
    by (vm_compute; reflexivity).
  reflexivity.
Defined.

(** ** The registry: trust tiers *)

(** X18: the registrations at the Dangerous tier are exactly those of the
    namespaces [std::file] and [std::http]: every function that reaches the
    file system or the network is Dangerous, and no function of [std],
    [std::mem], [std::string] or [std::math] is. *)
Theorem dangerous_functions_are_file_and_http :
  Forall (fun f => trust f = Dangerous <-> is_guarded_namespace (fn_namespace f) = true)
    registerPatternLanguageFunctions.
Proof.
  unfold registerPatternLanguageFunctions.
  repeat (apply List.Forall_cons;
          [vm_compute; split; intros Hx; first [reflexivity | discriminate Hx] |]).
  apply List.Forall_nil.
Qed.

(** ** std::string: the base of parse_int *)

Lemma i32_u128_shift (z k : Z) : i32 (u128 (z + k * 2 ^ 32)) = i32 (u128 z).
Proof.
  unfold i32.
  rewrite <- (to_signed_mod 32 (u128 (z + k * 2 ^ 32))) by lia.
  rewrite <- (to_signed_mod 32 (u128 z)) by lia.
  change (u128 (z + k * 2 ^ 32) mod 2 ^ 32) with (u32 (u128 (z + k * 2 ^ 32))).
  change (u128 z mod 2 ^ 32) with (u32 (u128 z)).
  rewrite u32_u128_shift. reflexivity.
Qed.

Section ParseBase.
Context `{FileApi} `{LibC}.

(** X19: [parse_int] hands the base to [strtoll] as an [int], so it sees
    the low 32 bits of the base only: two bases that differ by a multiple
    of 2^32 give the same result, and base 2^32 + 16 reads hexadecimal. *)
Theorem parse_int_base_is_narrowed (ctx : Evaluator) (s : string) (base k : Z)
    (st : State) :
  Str.parse_int ctx [StringValue s; UnsignedInteger (base + k * 2 ^ 32)] st
  = Str.parse_int ctx [StringValue s; UnsignedInteger base] st
  /\ Str.parse_int ctx [StringValue "ff"; UnsignedInteger (2 ^ 32 + 16)] st
     = (st, Ok (Some (SignedInteger 255))).
Proof.
  split; [| reflexivity].
  unfold Str.parse_int, bind, param, lift, ret.
  cbn [nth_error literalToString literalToUnsigned].
  rewrite i32_u128_shift. reflexivity.
Qed.

End ParseBase.

(** ** std::file: a closed handle after the counter has wrapped *)

Section Reissue.
Context `{FileApi} `{LibC}.

(** A run of calls of [open] closes nothing. *)
Lemma opens_close_nothing (ctx : Evaluator) (path : string) (mode : Z) (n : nat)
    (st : State) :
  omap closed_by (fst (run ctx (repeat (call_open path mode) n) st)) = [].
Proof.
  revert st. induction n as [| n IH]; intros st; [reflexivity |].
  cbn [repeat]. rewrite run_cons. cbn [fst]. rewrite closed_cons.
  unfold closed_by at 1. cbn [ev_call]. apply IH.
Qed.

(** With the counter at its last value, a handle that is closed is handed
    out again by the second [open] that follows, and the file functions
    accept it. *)
Lemma handle_reissued_after_wrap (ctx : Evaluator) (path : string) (f : File)
    (st : State) :
  fileCounter st = 2 ^ 32 - 1 ->
  openFiles st !! 1 = Some f ->
  (forall fs, File_isValid (fst (File_new path Create fs)) = true) ->
  exists st1,
    FileNs.close ctx [UnsignedInteger 1] st = (st1, Ok None)
    /\ issued (fst (run ctx [call_open path 3; call_open path 3] st1))
       = [UnsignedInteger 0; UnsignedInteger 1]
    /\ exists s,
         snd (perform ctx (call_read 1 4)
                (snd (run ctx [call_open path 3; call_open path 3] st1)))
         = Ok (Some (StringValue s)).
Proof.
  intros Hcounter Hmapped Hvalid.
  set (st1 := FileNs.with_files st (fileCounter st) (delete 1 (openFiles st))
                (File_delete f (fileSystem st))).
  exists st1. split.
  { unfold FileNs.close, bind, param, lift, ret.
    cbn [nth_error literalToUnsigned].
    change (u32 (u128 1)) with 1. rewrite Hmapped. reflexivity. }
  rewrite !run_cons. cbn [fst snd run].
  set (st2 := fst (perform ctx (call_open path 3) st1)).
  set (st3 := fst (perform ctx (call_open path 3) st2)).
  pose proof (open_create_valid ctx path st1 (Hvalid _)) as Hfirst.
  assert (Hzero : u32 (fileCounter st1 + 1) = 0).
  { unfold st1. cbn [FileNs.with_files fileCounter]. rewrite Hcounter. reflexivity. }
  rewrite Hzero in Hfirst.
  destruct (open_cases ctx path 3 st1) as [(_ & _ & Hfailed)
                                          | (Hcounter2 & _ & file2 & Hfiles2)].
  { exfalso. eapply Hfailed. exact Hfirst. }
  fold st2 in Hcounter2, Hfiles2. rewrite Hzero in Hcounter2, Hfiles2.
  assert (Hfree : openFiles st2 !! 1 = None).
  { rewrite Hfiles2. unfold st1. cbn [FileNs.with_files openFiles].
    destruct (delete 1 (openFiles st) !! 0);
      [| rewrite lookup_insert_ne by lia]; apply lookup_delete_eq. }
  pose proof (open_create_valid ctx path st2 (Hvalid _)) as Hsecond.
  rewrite Hcounter2 in Hsecond. change (u32 (0 + 1)) with 1 in Hsecond.
  destruct (open_cases ctx path 3 st2) as [(_ & _ & Hfailed)
                                          | (_ & _ & file3 & Hfiles3)].
  { exfalso. eapply Hfailed. exact Hsecond. }
  fold st3 in Hfiles3. rewrite Hcounter2 in Hfiles3.
  change (u32 (0 + 1)) with 1 in Hfiles3. rewrite Hfree in Hfiles3.
  split.
  { rewrite !issued_cons. unfold issued_by. cbn [ev_call ev_result].
    rewrite Hfirst, Hsecond. reflexivity. }
  assert (Hagain : openFiles st3 !! u32 1 = Some file3).
  { change (u32 1) with 1. rewrite Hfiles3. apply lookup_insert_eq. }
  cbn [perform]. unfold FileNs.read, bind, param, lift, ret.
  cbn [nth_error literalToUnsigned].
  change (u128 1) with 1.
  rewrite (onOpenFile_mapped _ _ _ file3 Hagain). eauto.
Qed.

End Reissue.

(** C5 as stated fails: after 2^32 - 1 files have been opened the handle 1
    is mapped and the counter is at its last value; [close(1)] succeeds,
    the second [open] after it returns the id 1 again, and [read] applied
    to the handle 1 then returns instead of aborting. *)
Lemma closed_handle_is_issued_again :
  exists st1,
    @FileNs.close memoryFiles (bufferEvaluator []) [UnsignedInteger 1]
      (snd (@run memoryFiles plainLibC (bufferEvaluator []) filling_session
              (FileNs.initial ∅)))
    = (st1, Ok None)
    /\ issued (fst (@run memoryFiles plainLibC (bufferEvaluator [])
                      [call_open "f" 3; call_open "f" 3] st1))
       = [UnsignedInteger 0; UnsignedInteger 1]
    /\ exists s,
         snd (@perform memoryFiles plainLibC (bufferEvaluator []) (call_read 1 4)
                (snd (@run memoryFiles plainLibC (bufferEvaluator [])
                        [call_open "f" 3; call_open "f" 3] st1)))
         = Ok (Some (StringValue s)).
Proof.
  unfold filling_session.
  set (ctx := bufferEvaluator []).
  set (n := Z.to_nat (2 ^ 32 - 1)).
  assert (Hn : Z.of_nat n = 2 ^ 32 - 1) by (unfold n; lia).
  pose proof (@run_counts_up memoryFiles plainLibC ctx (repeat (call_open "f" 3) n)
                (FileNs.initial ∅) (handles_bounded_initial ∅)) as Hrun.
  pose proof (@run_dom memoryFiles plainLibC ctx (repeat (call_open "f" 3) n)
                (FileNs.initial ∅) (handles_bounded_initial ∅)) as Hdom.
  rewrite memory_creates_issue in Hrun, Hdom.
  destruct Hrun as (Hids & Hcounter & _); [simpl; lia |].
  specialize (Hdom ltac:(simpl; lia)).
  rewrite Hids, omap_key_of_ids, opens_close_nothing in Hdom.
  set (st := snd (@run memoryFiles plainLibC ctx (repeat (call_open "f" 3) n)
                    (FileNs.initial ∅))) in *.
  simpl in Hcounter. rewrite Hn in Hcounter.
  assert (Hin : 1 ∈ dom (openFiles st)).
  { rewrite Hdom. apply elem_of_difference. split; [| apply not_elem_of_empty].
    apply elem_of_union. right.
    apply elem_of_list_to_set, elem_of_seqZ. cbn [FileNs.initial fileCounter]. lia. }
  apply elem_of_dom in Hin as [f Hmapped].
  apply (@handle_reissued_after_wrap memoryFiles plainLibC ctx "f" f st Hcounter Hmapped).
  intros fs. reflexivity.
Qed.
